(** * picks: batch image optimisation pipeline (src/picks.py)

    A shallow embedding of the planning, worker and aggregation code of
    [picks.py], with the properties of its specification stated and
    settled against that embedding.

    Conventions.
    - A Python [str] is a Rocq [string] (its UTF-8 bytes); comparing two
      strings byte by byte is comparing them by code point.
    - A [pathlib.Path] is the list of its [parts].
    - [print] appends a line to an explicit output log.
    - A Python exception is the [Raise] case of [result]. *)

From Stdlib Require Import ZArith Lia Ascii SpecFloat.
From stdpp Require Import base decidable option list strings pretty gmap sorting.

Local Open Scope nat_scope.

(** ** Python built-ins on strings *)

Module Py.

(** [len(s)] *)
Definition len (s : string) : nat := String.length s.

(** [str(n)] for a non-negative [int]: its decimal digits. *)
Definition str (n : nat) : string := pretty n.

Fixpoint zeros (k : nat) : string :=
  match k with
  | 0 => ""
  | S k' => String "0"%char (zeros k')
  end.

Definition is_sign (c : ascii) : bool :=
  bool_decide (c = "+"%char) || bool_decide (c = "-"%char).

(** [s.zfill(width)]: pads with zeros on the left, after a leading sign. *)
Definition zfill (s : string) (width : nat) : string :=
  match s with
  | String c s' =>
      if is_sign c then String c (zeros (width - len s) +:+ s')
      else zeros (width - len s) +:+ s
  | "" => zeros width
  end.

(** [s.startswith(p)] *)
Fixpoint startswith (s p : string) : bool :=
  match p, s with
  | "", _ => true
  | String a p', String b s' => bool_decide (a = b) && startswith s' p'
  | String _ _, "" => false
  end.

(** The scan of [s.replace(old, new)] for a non-empty [old]: [skip] counts
    the characters of a match that are still to be passed over. *)
Fixpoint replace_scan (old new : string) (skip : nat) (s : string) : string :=
  match s with
  | "" => ""
  | String c s' =>
      match skip with
      | S k => replace_scan old new k s'
      | 0 =>
          if startswith s old
          then new +:+ replace_scan old new (len old - 1) s'
          else String c (replace_scan old new 0 s')
      end
  end.

Fixpoint intersperse (new s : string) : string :=
  match s with
  | "" => new
  | String c s' => new +:+ String c (intersperse new s')
  end.

(** [s.replace(old, new)]: every non-overlapping occurrence, left to right;
    an empty [old] matches between any two characters. *)
Definition replace (s old new : string) : string :=
  match old with
  | "" => intersperse new s
  | _ => replace_scan old new 0 s
  end.

Definition lower_char (c : ascii) : ascii :=
  let n := nat_of_ascii c in
  if (65 <=? n) && (n <=? 90) then ascii_of_nat (n + 32) else c.

(** [s.lower()] on ASCII letters. *)
Fixpoint lower (s : string) : string :=
  match s with
  | "" => ""
  | String c s' => String (lower_char c) (lower s')
  end.

Definition upper_char (c : ascii) : ascii :=
  let n := nat_of_ascii c in
  if (97 <=? n) && (n <=? 122) then ascii_of_nat (n - 32) else c.

(** [s.upper()] on ASCII letters. *)
Fixpoint upper (s : string) : string :=
  match s with
  | "" => ""
  | String c s' => String (upper_char c) (upper s')
  end.

(** [s.rfind(c)]: the index of the last [c] in [s]. *)
Fixpoint rfind (s : string) (c : ascii) : option nat :=
  match s with
  | "" => None
  | String a s' =>
      match rfind s' c with
      | Some i => Some (S i)
      | None => if bool_decide (a = c) then Some 0 else None
      end
  end.

(** [s[i:]] and [s[:i]] for [0 <= i]. *)
Fixpoint drop (i : nat) (s : string) : string :=
  match i, s with
  | S i', String _ s' => drop i' s'
  | _, _ => s
  end.

Fixpoint take (i : nat) (s : string) : string :=
  match i, s with
  | S i', String c s' => String c (take i' s')
  | _, _ => ""
  end.

(** The value of a decimal numeral, leading zeros allowed ([int(s)]). *)
Definition digit_val (c : ascii) : nat := nat_of_ascii c - 48.

Fixpoint int_go (acc : nat) (s : string) : nat :=
  match s with
  | "" => acc
  | String c s' => int_go (10 * acc + digit_val c) s'
  end.

Definition int (s : string) : nat := int_go 0 s.

End Py.

(** ** Sequential names *)

(** [generate_sequential_name(folder_name, index, total_count, file_extension)] *)
Definition generate_sequential_name
    (folder_name : string) (index total_count : nat) (file_extension : string)
    : string :=
  let digits := Py.len (Py.str total_count) in
  let digits := Nat.max digits 4 in
  let number_str := Py.zfill (Py.str index) digits in
  folder_name +:+ "-" +:+ number_str +:+ file_extension.

(** The words of the specification: the number of decimal digits of [n], and
    [i] written with [w] digits by adding zeros on the left. *)
Fixpoint digitCount_go (fuel n : nat) : nat :=
  match fuel with
  | 0 => 1
  | S fuel' => if n <? 10 then 1 else S (digitCount_go fuel' (n / 10))
  end.

Definition digitCount (n : nat) : nat := digitCount_go n n.

Definition spec_zero_padded (i w : nat) : string :=
  Py.zeros (w - digitCount i) +:+ Py.str i.

Definition spec_sequential_name
    (sourceRootName : string) (i N : nat) (ext : string) : string :=
  sourceRootName +:+ "-" +:+ spec_zero_padded i (Nat.max 4 (digitCount N)) +:+ ext.

(** A string of decimal digits. *)
Definition is_digit (c : ascii) : bool :=
  (48 <=? nat_of_ascii c) && (nat_of_ascii c <=? 57).

Fixpoint all_digits (s : string) : bool :=
  match s with
  | "" => true
  | String c s' => is_digit c && all_digits s'
  end.

(** ** Paths ([pathlib.PurePosixPath]) *)

Abbreviation Path := (list string).

Module Path.

(** [s.split('/')] *)
Fixpoint split_sep (s : string) : list string :=
  match s with
  | "" => [""]
  | String c s' =>
      if bool_decide (c = "/"%char) then "" :: split_sep s'
      else match split_sep s' with
           | x :: r => String c x :: r
           | [] => [String c ""]
           end
  end.

(** A component that is kept when a string is parsed: neither empty nor
    [.] (pathlib collapses repeated separators and single dots). *)
Definition kept (x : string) : bool :=
  negb (bool_decide (x = "")) && negb (bool_decide (x = ".")).

(** The root of a POSIX path string: exactly two leading slashes are kept
    as they are, any other number of them is a single slash. *)
Definition root_of (s : string) : list string :=
  if Py.startswith s "/" then
    if Py.startswith s "//" && negb (Py.startswith s "///") then ["//"] else ["/"]
  else [].

(** [Path(s)]: the parts of the string [s]. *)
Definition of_str (s : string) : Path :=
  root_of s ++ filter (λ x, Is_true (kept x)) (split_sep s).

Definition is_root (x : string) : bool :=
  bool_decide (x = "/") || bool_decide (x = "//").

Definition is_absolute (p : Path) : bool :=
  match p with
  | x :: _ => is_root x
  | [] => false
  end.

Fixpoint concat_sep (l : list string) : string :=
  match l with
  | [] => ""
  | [x] => x
  | x :: r => x +:+ "/" +:+ concat_sep r
  end.

(** [str(p)] *)
Definition fspath (p : Path) : string :=
  match p with
  | [] => "."
  | x :: r => if is_root x then x +:+ concat_sep r else concat_sep p
  end.

(** [p.name]: the final component, empty for a bare root. *)
Definition name (p : Path) : string :=
  match last p with
  | Some x => if is_root x then "" else x
  | None => ""
  end.

(** The suffix of a file name: from its last dot on, when that dot is
    neither the first nor the last character. *)
Definition suffix_of_name (nm : string) : string :=
  match Py.rfind nm "." with
  | Some i => if (0 <? i) && (i <? Py.len nm - 1) then Py.drop i nm else ""
  | None => ""
  end.

(** [p.suffix] *)
Definition suffix (p : Path) : string := suffix_of_name (name p).

(** [p.parent] *)
Definition parent (p : Path) : Path :=
  match p with
  | [x] => if is_root x then p else []
  | _ => removelast p
  end.

(** [p / q] for two paths. *)
Definition joinpath (p q : Path) : Path :=
  if is_absolute q then q else p ++ q.

(** [p / s] for a string [s]. *)
Definition joinpath_str (p : Path) (s : string) : Path := joinpath p (of_str s).

Fixpoint strip_prefix (base p : Path) : option Path :=
  match base, p with
  | [], _ => Some p
  | b :: base', x :: p' => if bool_decide (b = x) then strip_prefix base' p' else None
  | _ :: _, [] => None
  end.

End Path.

Infix "//" := Path.joinpath (at level 40, left associativity).
Infix "//s" := Path.joinpath_str (at level 40, left associativity).

(** ** Exceptions, the world and the command monad *)

Inductive result (A : Type) : Type :=
  | Ok (a : A)
  | Raise (exc : string).
Arguments Ok {A} a.
Arguments Raise {A} exc.

(** A node of the file system: a regular file with its bytes, or a
    directory with the size that [stat] reports for it. *)
Inductive node : Type :=
  | RegularFile (content : list Byte.byte)
  | Directory (st_size : nat).

(** The part of the world the program reads and writes: the file system
    nodes by path, the lines printed so far, and (as a ghost record) the
    calls made to the transformer [optimize_image].  A node is found
    under the path as the program writes it: the file system of this
    model has no symbolic links and names each file by one path only
    (the links that matter to the planner are given to it separately,
    through [resolve]). *)
Record World : Type := mkWorld {
  nodes : gmap Path node;
  stdout : list string;
  transformer_calls : list (string * Path);
}.

Definition M (A : Type) : Type := World → result A * World.

Definition ret {A} (a : A) : M A := λ w, (Ok a, w).

Definition bind {A B} (m : M A) (k : A → M B) : M B := λ w,
  match m w with
  | (Ok a, w') => k a w'
  | (Raise e, w') => (Raise e, w')
  end.

Definition raise {A} (e : string) : M A := λ w, (Raise e, w).

(** [try: m except Exception as e: h(e)] *)
Definition try_except {A} (m : M A) (h : string → M A) : M A := λ w,
  match m w with
  | (Ok a, w') => (Ok a, w')
  | (Raise e, w') => h e w'
  end.

Definition lift {A} (r : result A) : M A := λ w, (r, w).

#[global] Instance M_ret : MRet M := @ret.
#[global] Instance M_bind : MBind M := λ A B k m, bind m k.

(** [print(line)] *)
Definition print (line : string) : M unit := λ w,
  (Ok (), mkWorld (nodes w) (stdout w ++ [line]) (transformer_calls w)).

Definition get_world : M World := λ w, (Ok w, w).

(** The value a command returns and the world it leaves. *)
Definition run {A} (m : M A) (w : World) : result A * World := m w.

Module Path_ops.

(** [p.relative_to(base)]: [ValueError] unless [base] is a prefix of [p]. *)
Definition relative_to (p base : Path) : result Path :=
  match base with
  | [] => if Path.is_absolute p then Raise "ValueError" else Ok p
  | _ => match Path.strip_prefix base p with
         | Some r => Ok r
         | None => Raise "ValueError"
         end
  end.

Fixpoint contains_char (c : ascii) (s : string) : bool :=
  match s with
  | "" => false
  | String a s' => bool_decide (a = c) || contains_char c s'
  end.

(** [p.with_suffix(suffix)] *)
Definition with_suffix (p : Path) (suffix : string) : result Path :=
  if contains_char "/"%char suffix then Raise "ValueError"
  else if (negb (bool_decide (suffix = "")) && negb (Py.startswith suffix "."))
          || bool_decide (suffix = ".") then Raise "ValueError"
  else
    let name := Path.name p in
    if bool_decide (name = "") then Raise "ValueError"
    else
      let old_suffix := Path.suffix p in
      let name' :=
        if bool_decide (old_suffix = "") then name +:+ suffix
        else Py.take (Py.len name - Py.len old_suffix) name +:+ suffix in
      Ok (removelast p ++ [name']).

Fixpoint prefixes (p : Path) : list Path :=
  match p with
  | [] => []
  | x :: r => [x] :: map (cons x) (prefixes r)
  end.

(** The directories [mkdir(parents=True)] may have to make for a path: its
    ancestors from the top down and the path itself; a bare root is always
    there already. *)
Definition bare_root (a : Path) : bool :=
  match a with
  | [x] => Path.is_root x
  | _ => false
  end.

Definition ancestors (p : Path) : list Path :=
  filter (λ a, bare_root a = false) (prefixes p).

End Path_ops.

(** The size [stat] gives a directory made by [mkdir] (it depends on the
    file system; nothing below depends on its value). *)
Definition new_dir_size : nat := 4096.

Definition node_size (n : node) : nat :=
  match n with
  | RegularFile content => length content
  | Directory sz => sz
  end.

(** [Path(p).stat().st_size] *)
Definition stat_size (p : Path) : M nat := λ w,
  match nodes w !! p with
  | Some n => (Ok (node_size n), w)
  | None => (Raise "FileNotFoundError", w)
  end.

(** [Path(p).exists()]; an [OSError] other than that of a missing file
    (a name too long, a directory that may not be searched) is outside
    this model. *)
Definition exists_ (p : Path) : M bool := λ w,
  (Ok (bool_decide (is_Some (nodes w !! p))), w).

Definition is_regular (n : node) : bool :=
  match n with
  | RegularFile _ => true
  | Directory _ => false
  end.

Definition mkdir_one (m : gmap Path node) (p : Path) : gmap Path node :=
  match m !! p with
  | Some _ => m
  | None => <[p := Directory new_dir_size]> m
  end.

(** [p.mkdir(parents=True, exist_ok=True)]: creates the directory and its
    missing ancestors; a regular file at the path itself is a
    [FileExistsError], one at an ancestor a [NotADirectoryError]. *)
Definition mkdir_p (p : Path) : M unit := λ w,
  if existsb (λ a, match nodes w !! a with
                   | Some n => is_regular n
                   | None => false
                   end) (Path_ops.ancestors p)
  then (Raise (if existsb (λ a, match nodes w !! a with
                                | Some n => is_regular n
                                | None => false
                                end) (removelast (Path_ops.ancestors p))
               then "NotADirectoryError" else "FileExistsError"), w)
  else (Ok (), mkWorld (foldl mkdir_one (nodes w) (Path_ops.ancestors p))
                       (stdout w) (transformer_calls w)).

(** ** Discovery *)

(** What [os.walk] sees below a directory: the names of its files and its
    sub-directories, each in the order the operating system lists them.
    Directories reached only through a symbolic link are not part of the
    tree ([followlinks=False]). *)
#[warnings="-register-all"] Inductive tree : Type :=
  | Dir (files : list string) (dirs : list (string * tree)).

Definition endswith_sep (a : string) : bool :=
  bool_decide (String.get (Py.len a - 1) a = Some "/"%char).

(** [os.path.join(a, b)] *)
Definition os_path_join (a b : string) : string :=
  if Py.startswith b "/" then b
  else if bool_decide (a = "") || endswith_sep a then a +:+ b
  else a +:+ "/" +:+ b.

(** [os.walk(top, followlinks=False)]: top-down, one triple
    [(root, dirs, files)] per directory. *)
Fixpoint walk (top : string) (t : tree) : list (string * list string * list string) :=
  match t with
  | Dir files dirs =>
      (top, map fst dirs, files)
      :: flat_map (λ dt, walk (os_path_join top (fst dt)) (snd dt)) dirs
  end.

Definition default_extensions : gset string :=
  {[ ".jpg"; ".jpeg"; ".png"; ".bmp"; ".tiff"; ".tif"; ".webp" ]}.

(** The truth value of an optional set: [None] and the empty set are false. *)
Definition truthy (s : option (gset string)) : bool :=
  match s with
  | Some x => negb (bool_decide (x = ∅))
  | None => false
  end.

(** The two nested loops of [get_image_files]. *)
Definition collect (image_extensions : gset string)
    (triples : list (string * list string * list string)) : list string :=
  flat_map (λ tr : string * list string * list string,
    let '(root, _, files) := tr in
    map (os_path_join root)
      (filter (λ file, Py.lower (Path.suffix (Path.of_str file)) ∈ image_extensions)
              files))
    triples.

(** [get_image_files(folder_path, include_extensions)], on the tree found
    at [folder_path]. *)
Definition get_image_files (t : tree) (folder_path : Path)
    (include_extensions : option (gset string)) : M (list string) :=
  if truthy include_extensions then
    let image_extensions := default ∅ include_extensions ∩ default_extensions in
    if bool_decide (image_extensions = ∅) then
      print "Warning: No valid image extensions found in --include filter";;
      mret []
    else mret (collect image_extensions (walk (Path.fspath folder_path) t))
  else mret (collect default_extensions (walk (Path.fspath folder_path) t)).

(** ** Configuration and tasks *)

Inductive Format : Type := jpg | webp.

#[global] Instance Format_eq_dec : EqDecision Format.
Proof. solve_decision. Defined.

Definition format_str (f : Format) : string :=
  match f with
  | jpg => "jpg"
  | webp => "webp"
  end.

(** The parsed command line ([argparse.Namespace]). *)
Record Args : Type := mkArgs {
  max_size : Z;
  quality_arg : Z;
  format : Format;
  keep_names : bool;
  processes : Z;
  dry_run : bool;
  skip_existing : bool;
  preserve_dirs : bool;
}.

(** The tuple handed to a worker:
    [(input_path, output_path, max_size, quality, output_format, skip_existing)]. *)
Record Task : Type := mkTask {
  input_path : string;
  output_path : Path;
  task_max_size : Z;
  task_quality : Z;
  output_format : Format;
  task_skip_existing : bool;
}.

#[global] Instance Task_eq_dec : EqDecision Task.
Proof. solve_decision. Defined.

(** [create_destination_structure(target_folder, destination_base, dry_run)] *)
Definition create_destination_structure
    (target_folder destination_base : Path) (dry_run : bool) : M Path :=
  let target_name := Path.name target_folder in
  let destination_folder := destination_base //s target_name in
  (if negb dry_run then mkdir_p destination_folder else mret ());;
  mret destination_folder.

Definition file_extension_of (f : Format) : string :=
  if bool_decide (f = webp) then ".webp" else ".jpg".

(** ** Planning *)

(** The naming block of the planning loop (the same statements compute the
    preview in [preview_processing]): the output path of the file at
    position [index] among [total] files. *)
Definition output_file_for (args : Args) (target_path destination_folder : Path)
    (file_extension : string) (total index : nat) (input_file : string)
    : result Path :=
  if preserve_dirs args then
    match Path_ops.relative_to (Path.of_str input_file) target_path with
    | Raise e => Raise e
    | Ok rel_path =>
        if keep_names args then
          match Path_ops.with_suffix rel_path file_extension with
          | Raise e => Raise e
          | Ok renamed => Ok (destination_folder // renamed)
          end
        else
          let folder_name := Path.name target_path in
          let filename :=
            generate_sequential_name folder_name index total file_extension in
          Ok (destination_folder // Path.parent rel_path //s filename)
    end
  else
    if keep_names args then
      match Path_ops.relative_to (Path.of_str input_file) target_path with
      | Raise e => Raise e
      | Ok rel_path =>
          Ok (destination_folder
                //s Py.replace (Path.name rel_path) (Path.suffix rel_path) file_extension)
      end
    else
      let folder_name := Path.name target_path in
      let filename :=
        generate_sequential_name folder_name index total file_extension in
      Ok (destination_folder //s filename).

(** [image_files.sort()] *)
Definition sort_files (image_files : list string) : list string :=
  merge_sort String.le image_files.

Definition preview_line (input_file : string) (output_file : Path) : string :=
  "  " +:+ Path.name (Path.of_str input_file) +:+ " → " +:+ Path.name output_file.

(** The loop of [preview_processing] over [image_files[:5]]. *)
Fixpoint preview_loop (args : Args) (target_path destination_folder : Path)
    (file_extension : string) (total index : nat) (files : list string) : M unit :=
  match files with
  | [] => mret ()
  | input_file :: rest =>
      output_file ← lift (output_file_for args target_path destination_folder
                            file_extension total index input_file);
      print (preview_line input_file output_file);;
      preview_loop args target_path destination_folder file_extension total
        (S index) rest
  end.

(** [preview_processing(args, image_files, target_path, destination_folder, quality)] *)
Definition preview_processing (args : Args) (image_files : list string)
    (target_path destination_folder : Path) (quality : Z) : M (list Task) :=
  print "";;
  print "=== DRY RUN PREVIEW ===";;
  print ("Would process " +:+ Py.str (length image_files) +:+ " images");;
  print ("Format: " +:+ Py.upper (format_str (format args)));;
  print ("Quality: " +:+ pretty quality);;
  print ("Max size: " +:+ pretty (max_size args) +:+ "px");;
  print ("Processes: " +:+ pretty (processes args));;
  print ("Naming: " +:+ (if keep_names args then "Keep original" else "Sequential"));;
  print ("Directory structure: "
           +:+ (if preserve_dirs args then "Preserved" else "Flattened"));;
  (if skip_existing args then print "Skip existing: Yes" else mret ());;
  print "";;
  print "Example output filenames:";;
  let file_extension := file_extension_of (format args) in
  preview_loop args target_path destination_folder file_extension
    (length image_files) 1 (take 5 image_files);;
  (if bool_decide (5 < length image_files)
   then print ("  ... and " +:+ Py.str (length image_files - 5) +:+ " more files")
   else mret ());;
  print "";;
  print "No files will be processed in dry-run mode.";;
  mret [].

Section Planner.

(** [p.resolve()]: the path with symbolic links and [..] segments resolved,
    as the operating system answers it, or the exception it raises
    ([RuntimeError] on a loop of symbolic links). *)
Variable resolve : Path → result Path.

Definition security_error (output_file : Path) : string :=
  "Security error: Output path would be outside destination folder: "
    +:+ Path.fspath output_file.

(** [output_file.resolve().relative_to(destination_folder.resolve())] *)
Definition resolved_relative_to (output_file destination_folder : Path) : result Path :=
  match resolve output_file with
  | Raise e => Raise e
  | Ok resolved_output =>
      match resolve destination_folder with
      | Raise e => Raise e
      | Ok resolved_destination =>
          Path_ops.relative_to resolved_output resolved_destination
      end
  end.

(** The loop of [prepare_processing_tasks] over [enumerate(image_files, 1)];
    the security check catches [ValueError] only. *)
Fixpoint plan_loop (args : Args) (target_path destination_folder : Path)
    (quality : Z) (file_extension : string) (total index : nat)
    (files : list string) (task_args : list Task) : M (list Task) :=
  match files with
  | [] => mret task_args
  | input_file :: rest =>
      output_file ← lift (output_file_for args target_path destination_folder
                            file_extension total index input_file);
      let task := mkTask input_file output_file (max_size args) quality
                    (format args) (skip_existing args) in
      if preserve_dirs args then
        match resolved_relative_to output_file destination_folder with
        | Raise e =>
            if bool_decide (e = "ValueError") then
              print (security_error output_file);;
              plan_loop args target_path destination_folder quality file_extension
                total (S index) rest task_args
            else raise e
        | Ok _ =>
            plan_loop args target_path destination_folder quality file_extension
              total (S index) rest (task_args ++ [task])
        end
      else
        plan_loop args target_path destination_folder quality file_extension
          total (S index) rest (task_args ++ [task])
  end.

(** [prepare_processing_tasks(args, target_path, destination_folder, quality,
    include_extensions)], on the tree found at [target_path]. *)
Definition prepare_processing_tasks (t : tree) (args : Args)
    (target_path destination_folder : Path) (quality : Z)
    (include_extensions : option (gset string)) : M (list Task) :=
  print "Scanning for images...";;
  image_files ← get_image_files t target_path include_extensions;
  if bool_decide (image_files = []) then
    print "No image files found in the target folder.";;
    mret []
  else
    let image_files := sort_files image_files in
    print ("Found " +:+ Py.str (length image_files) +:+ " images to process");;
    if dry_run args then
      preview_processing args image_files target_path destination_folder quality
    else
      let file_extension := file_extension_of (format args) in
      plan_loop args target_path destination_folder quality file_extension
        (length image_files) 1 image_files [].

End Planner.

(** ** Floating point: [int(a / b)] on integers

    Python's [/] on two [int]s gives the binary64 number nearest to the
    quotient and [int] truncates it toward zero.  Binary64 is
    [SpecFloat] at precision 53 and maximal exponent 1024; the operands
    are converted as [float] does, which is exact below [2^53]. *)

Module Float.

Definition prec : Z := 53.
Definition emax : Z := 1024.

(** [float(z)] *)
Definition of_int (z : Z) : spec_float :=
  SpecFloat.binary_normalize prec emax z 0 false.

(** [a / b] for two integers. *)
Definition truediv (a b : Z) : result spec_float :=
  if (b =? 0)%Z then Raise "ZeroDivisionError"
  else Ok (SpecFloat.SFdiv prec emax (of_int a) (of_int b)).

(** [int(x)]: the integer part of [x]. *)
Definition to_int (x : spec_float) : result Z :=
  match x with
  | S754_zero _ => Ok 0%Z
  | S754_finite s m e =>
      let magnitude :=
        match e with
        | Zneg k => (Z.pos m / 2 ^ Z.pos k)%Z
        | _ => (Z.pos m * 2 ^ e)%Z
        end in
      Ok (if s then (- magnitude)%Z else magnitude)
  | S754_infinity _ => Raise "OverflowError"
  | S754_nan => Raise "ValueError"
  end.

(** [int(a / b)] *)
Definition int_truediv (a b : Z) : result Z :=
  match truediv a b with
  | Ok q => to_int q
  | Raise e => Raise e
  end.

End Float.

(** ** The transformer *)

(** How [img.save] ends: with the bytes of the file it has written, or
    with an exception, raised before the output file is opened
    ([written = None]) or after it, with the bytes written by then. *)
Inductive save_outcome : Type :=
  | Saved (encoded : list Byte.byte)
  | SaveError (e : string) (written : option (list Byte.byte)).

(** The image library (Pillow), as far as [optimize_image] uses it.  Every
    operation that can fail returns a [result]. *)
Class PIL : Type := {
  Image : Type;
  (** [Image.open] on the bytes of a file *)
  image_decode : list Byte.byte → result Image;
  (** [ImageOps.exif_transpose] *)
  exif_transpose : Image → result Image;
  (** [img.mode == 'RGB'] and [img.convert('RGB')] *)
  mode_is_RGB : Image → bool;
  convert_RGB : Image → result Image;
  (** [img.size], as (width, height) *)
  image_size : Image → Z * Z;
  (** [img.resize((w, h), LANCZOS)] *)
  image_resize : Image → Z * Z → result Image;
  (** [img.save(..., fmt, quality=q, optimize=True)] *)
  image_save : Image → Format → Z → save_outcome;
  (** whether a [save] that fails removes the output file, when it is
      the one that created it *)
  save_removes_created : bool;
}.

(** The size computed at lines 386-392 of [optimize_image] when the image
    is resized. *)
Definition new_size (width height max_size : Z) : result (Z * Z) :=
  if (width >? height)%Z then
    match Float.int_truediv (height * max_size) width with
    | Ok new_height => Ok (max_size, new_height)
    | Raise e => Raise e
    end
  else
    match Float.int_truediv (width * max_size) height with
    | Ok new_width => Ok (new_width, max_size)
    | Raise e => Raise e
    end.

(** What [optimize_image] does to the size of an image: [None] when it does
    not call [resize], the new size when it does. *)
Definition resize_decision (width height max_size : Z) : result (option (Z * Z)) :=
  let max_current := Z.max width height in
  if (max_current >? max_size)%Z then
    match new_size width height max_size with
    | Ok sz => Ok (Some sz)
    | Raise e => Raise e
    end
  else Ok None.

Definition read_file (p : Path) : M (list Byte.byte) := λ w,
  match nodes w !! p with
  | Some (RegularFile content) => (Ok content, w)
  | Some (Directory _) => (Raise "IsADirectoryError", w)
  | None => (Raise "FileNotFoundError", w)
  end.

Definition write_file (p : Path) (content : list Byte.byte) : M unit := λ w,
  match nodes w !! p with
  | Some (Directory _) => (Raise "IsADirectoryError", w)
  | _ => (Ok (), mkWorld (<[p := RegularFile content]> (nodes w))
                         (stdout w) (transformer_calls w))
  end.

Definition record_call (input_path : string) (output_path : Path) : M unit := λ w,
  (Ok (), mkWorld (nodes w) (stdout w)
            (transformer_calls w ++ [(input_path, output_path)])).

Section Transformer.

Context `{pil : PIL}.

(** [img.save(output_path, ...)]: the output file is opened for writing,
    which creates it or empties it, and then the encoder writes into it.
    When the encoder fails, a file that was there before is left with
    what has been written. *)
Definition save_image (img : Image) (output_path : Path) (output_format : Format)
    (quality : Z) : M unit :=
  match image_save img output_format quality with
  | Saved encoded => write_file output_path encoded
  | SaveError e None => raise e
  | SaveError e (Some written) => λ w,
      match nodes w !! output_path with
      | Some (Directory _) => (Raise "IsADirectoryError", w)
      | Some (RegularFile _) => (Raise e, (write_file output_path written w).2)
      | None =>
          (Raise e,
           if save_removes_created then w else (write_file output_path written w).2)
      end
  end.

(** [optimize_image(input_path, output_path, max_size, quality, output_format)] *)
Definition optimize_image (input_path : string) (output_path : Path)
    (max_size quality : Z) (output_format : Format) : M bool :=
  record_call input_path output_path;;
  try_except
    (content ← read_file (Path.of_str input_path);
     img ← lift (image_decode content);
     img ← try_except (lift (exif_transpose img)) (λ _, mret img);
     img ← (if mode_is_RGB img then mret img else lift (convert_RGB img) : M Image);
     let '(width, height) := image_size img in
     decision ← lift (resize_decision width height max_size);
     img ← match decision with
           | Some sz => lift (image_resize img sz)
           | None => mret img
           end;
     mkdir_p (Path.parent output_path);;
     save_image img output_path output_format quality;;
     mret true)
    (λ e, print ("Error processing " +:+ input_path +:+ ": " +:+ e);;
          mret false).

(** ** The worker *)

(** The tuple a worker returns:
    [(success, input_path, error_message, input_size, output_size, skipped)]. *)
Record WorkerResult : Type := mkResult {
  success : bool;
  result_input_path : string;
  error_message : option string;
  input_size : nat;
  output_size : nat;
  skipped : bool;
}.

(** [process_single_image(args_tuple)] *)
Definition process_single_image (task : Task) : M WorkerResult :=
  let input := input_path task in
  let output := output_path task in
  try_except
    (input_size ← stat_size (Path.of_str input);
     skip ← (if task_skip_existing task then exists_ output else mret false : M bool);
     if (skip : bool) then
       output_size ← stat_size output;
       mret (mkResult true input None input_size output_size true)
     else
       success ← optimize_image input output (task_max_size task)
                   (task_quality task) (output_format task);
       if (success : bool) then
         present ← exists_ output;
         output_size ← (if (present : bool) then stat_size output else mret 0 : M nat);
         mret (mkResult success input None input_size output_size false)
       else
         mret (mkResult false input (Some "Processing failed") input_size 0 false))
    (λ e,
       input_size ← try_except (stat_size (Path.of_str input)) (λ _, mret 0);
       mret (mkResult false input (Some e) input_size 0 false)).

End Transformer.

(** ** Aggregation *)

(** The five running totals of [process_images_with_progress]:
    [successful, failed, skipped, total_input_size, total_output_size]. *)
Record RunStats : Type := mkStats {
  successful : nat;
  failed : nat;
  skipped_count : nat;
  total_input_size : nat;
  total_output_size : nat;
}.

Definition no_stats : RunStats := mkStats 0 0 0 0 0.

(** The truth value of an optional string: [None] and [''] are false. *)
Definition truthy_str (s : option string) : bool :=
  match s with
  | Some x => negb (bool_decide (x = ""))
  | None => false
  end.

(** The statements that fold one worker result into the totals (lines
    308-319, and again 333-344); [pbar.write] is a [print]. *)
Definition fold_result (input_file : string) (st : RunStats) (r : WorkerResult)
    : M RunStats :=
  let total_in := total_input_size st + input_size r in
  let total_out := total_output_size st + output_size r in
  if skipped r then
    mret (mkStats (successful st) (failed st) (S (skipped_count st)) total_in total_out)
  else if success r then
    mret (mkStats (S (successful st)) (failed st) (skipped_count st) total_in total_out)
  else
    (if truthy_str (error_message r)
     then print ("Error processing " +:+ input_file +:+ ": "
                   +:+ default "" (error_message r))
     else mret ());;
    mret (mkStats (successful st) (S (failed st)) (skipped_count st) total_in total_out).

(** What [future.result()] gives for a completed future: the worker's
    tuple, or the exception that ended the worker. *)
Definition FutureResult : Type := result WorkerResult.

(** The process pool: [submit] for every task, then [as_completed]; the
    pool answers with the completed futures in completion order, each with
    the task it was submitted for, and the world the workers leave. *)
Class ProcessPool : Type := {
  pool_run : Z → list Task → World → list (Task * FutureResult) * World;
}.

Section Executor.

Context `{pil : PIL} `{pool : ProcessPool}.

(** The loop of the single-process branch. *)
Fixpoint run_sequential (task_args : list Task) (st : RunStats) : M RunStats :=
  match task_args with
  | [] => mret st
  | task_arg :: rest =>
      r ← process_single_image task_arg;
      st' ← fold_result (input_path task_arg) st r;
      run_sequential rest st'
  end.

(** The loop of the multi-process branch over [as_completed]. *)
Fixpoint fold_completed (completed : list (Task * FutureResult)) (st : RunStats)
    : M RunStats :=
  match completed with
  | [] => mret st
  | (task_arg, future) :: rest =>
      st' ← match future with
            | Ok r => fold_result (input_path task_arg) st r
            | Raise e =>
                print ("Unexpected error processing " +:+ input_path task_arg
                         +:+ ": " +:+ e);;
                mret (mkStats (successful st) (S (failed st)) (skipped_count st)
                        (total_input_size st) (total_output_size st))
            end;
      fold_completed rest st'
  end.

(** [process_images_with_progress(task_args, args)]; the progress bar
    itself is display only and is left out. *)
Definition process_images_with_progress (task_args : list Task) (args : Args)
    : M RunStats :=
  if bool_decide (task_args = []) then mret no_stats
  else if bool_decide (processes args = 1%Z) then run_sequential task_args no_stats
  else
    completed ← (λ w, let '(c, w') := pool_run (processes args) task_args w in
                      (Ok c, w'));
    fold_completed completed no_stats.

(** ** The pipeline *)

Variable resolve : Path → result Path.

(** [main()] from the point where [validate_arguments] has returned
    [target_path, destination_base, quality, include_extensions]; the tree
    is what [os.walk] finds at [target_path].  The byte-size summary that
    ends the report is formatting only and is left out. *)
Definition main (t : tree) (args : Args) (target_path destination_base : Path)
    (quality : Z) (include_extensions : option (gset string)) : M unit :=
  destination_folder ← create_destination_structure target_path destination_base
                         (dry_run args);
  print ("Output will be saved to: " +:+ Path.fspath destination_folder);;
  task_args ← prepare_processing_tasks resolve t args target_path
                destination_folder quality include_extensions;
  if bool_decide (task_args = []) then mret ()
  else
    st ← process_images_with_progress task_args args;
    print "";;
    print "Optimization complete!";;
    print ("Successfully processed: " +:+ Py.str (successful st) +:+ " images");;
    (if bool_decide (0 < skipped_count st)
     then print ("Skipped existing: " +:+ Py.str (skipped_count st) +:+ " images")
     else mret ());;
    (if bool_decide (0 < failed st)
     then print ("Failed to process: " +:+ Py.str (failed st) +:+ " images")
     else mret ()).

End Executor.

(** ** Notions used to state the properties *)

(** A string without a path separator. *)
Definition no_sep (s : string) : Prop := Path_ops.contains_char "/"%char s = false.

(** A name as a directory holds it: not empty, not [.], no separator. *)
Definition plain_name (s : string) : Prop := no_sep s ∧ s ≠ "" ∧ s ≠ ".".

(** A tree all of whose files and directories have such names. *)
Fixpoint tree_plain (t : tree) : Prop :=
  match t with
  | Dir files dirs =>
      Forall plain_name files
      ∧ (fix all_plain (ds : list (string * tree)) : Prop :=
           match ds with
           | [] => True
           | dt :: rest => plain_name (fst dt) ∧ tree_plain (snd dt) ∧ all_plain rest
           end) dirs
  end.

(** A path in the form [Path] keeps it: parsing its string gives it back. *)
Definition canonical_path (p : Path) : Prop := Path.of_str (Path.fspath p) = p.

(** A file below [target_path]: the parts of the target, then names. *)
Definition below (target_path : Path) (f : string) : Prop :=
  ∃ rel, Path.of_str f = target_path ++ rel ∧ rel ≠ [] ∧ Forall plain_name rel.

(** Parts as parsing gives them: a root, or a name without separators. *)
Definition parts_plain (p : Path) : Prop :=
  Forall (λ x, Path.is_root x = true ∨ no_sep x) p.

(** A value of [pathlib.Path]: the parts of some string. *)
Definition valid_path (p : Path) : Prop := ∃ s, p = Path.of_str s.

(** [p] lies within [base]: the parts of [base] begin those of [p]. *)
Definition within (base p : Path) : Prop := base `prefix_of` p.

(** [resolve] returns for every path: no loop of symbolic links. *)
Definition resolves (resolve : Path → result Path) : Prop :=
  ∀ p, ∃ q, resolve p = Ok q.

(** The containment test the planner makes on a computed output path. *)
Definition contained (resolve : Path → result Path)
    (destination_folder output_file : Path) : bool :=
  match resolved_relative_to resolve output_file destination_folder with
  | Ok _ => true
  | Raise _ => false
  end.

(** The resolved path [p] lies within the resolved folder [base]. *)
Definition resolved_within (resolve : Path → result Path) (base p : Path) : Prop :=
  ∃ resolved_base resolved_p,
    resolve base = Ok resolved_base ∧ resolve p = Ok resolved_p
    ∧ within resolved_base resolved_p.

(** The candidate tasks of a planning loop: one per input file, in order,
    each with the output path the naming block computes for its index. *)
Inductive candidates (args : Args) (target_path destination_folder : Path)
    (quality : Z) (file_extension : string) (total : nat)
    : nat → list string → list Task → Prop :=
  | candidates_nil index :
      candidates args target_path destination_folder quality file_extension total
        index [] []
  | candidates_cons index input_file rest output_file cs :
      output_file_for args target_path destination_folder file_extension total
        index input_file = Ok output_file →
      candidates args target_path destination_folder quality file_extension total
        (S index) rest cs →
      candidates args target_path destination_folder quality file_extension total
        index (input_file :: rest)
        (mkTask input_file output_file (max_size args) quality (format args)
           (skip_existing args) :: cs).

(** The candidates the planner keeps: all of them when it flattens, those
    that pass the containment test when it preserves directories. *)
Definition kept_by_planner (resolve : Path → result Path) (args : Args)
    (destination_folder : Path) (c : Task) : bool :=
  if preserve_dirs args then contained resolve destination_folder (output_path c)
  else true.

(** The diagnostics of a planning loop: one line for each candidate that
    is not kept. *)
Definition diagnostics (resolve : Path → result Path) (args : Args)
    (destination_folder : Path) (cs : list Task) : list string :=
  map (λ c, security_error (output_path c))
    (filter (λ c, ¬ Is_true (kept_by_planner resolve args destination_folder c)) cs).

Definition include_warning : string :=
  "Warning: No valid image extensions found in --include filter".

(** A file system's answer to [resolve()], from a table of symbolic links
    (the path of each link and the resolved path it points to): the parts
    are followed from the root, [..] steps back to the parent, and a prefix
    that is a link is replaced by its target. *)
Fixpoint realpath_go (links : list (Path * Path)) (resolved todo : Path) : Path :=
  match todo with
  | [] => resolved
  | x :: rest =>
      if bool_decide (x = "..") then realpath_go links (removelast resolved) rest
      else
        let here := resolved ++ [x] in
        match list_find (λ l, l.1 = here) links with
        | Some (_, (_, target)) => realpath_go links target rest
        | None => realpath_go links here rest
        end
  end.

Definition realpath (links : list (Path * Path)) (p : Path) : Path :=
  realpath_go links [] p.

(** The same with loops: below a link that points to itself [resolve()]
    raises [RuntimeError]. *)
Definition realpath_or_loop (loops : list Path) (links : list (Path * Path))
    (p : Path) : result Path :=
  if existsb (λ l, bool_decide (l `prefix_of` p)) loops then Raise "RuntimeError"
  else Ok (realpath links p).

(** A command that leaves the file system and the record of transformer
    calls as they were; it may print. *)
Definition read_only {A} (m : M A) : Prop :=
  ∀ w r w', m w = (r, w') →
    nodes w' = nodes w ∧ transformer_calls w' = transformer_calls w.

(** A command that leaves one component [f] of the world as it was. *)
Definition preserves {A X} (f : World → X) (m : M A) : Prop :=
  ∀ w r w', m w = (r, w') → f w' = f w.

(** A command that always returns a value. *)
Definition never_raises {A} (m : M A) : Prop :=
  ∀ w, ∃ a w', m w = (Ok a, w').

(** The number of tasks counted in the totals. *)
Definition counted (st : RunStats) : nat :=
  successful st + failed st + skipped_count st.

(** A command whose value, when it returns one, satisfies [P]. *)
Definition returns {A} (P : A → Prop) (m : M A) : Prop :=
  ∀ w a w', m w = (Ok a, w') → P a.

(** The words of the specification for keep-original naming: the file
    name with its extension, the final suffix, replaced by [ext]. *)
Definition spec_replace_extension (filename ext : string) : string :=
  Py.take (Py.len filename - Py.len (Path.suffix_of_name filename)) filename +:+ ext.

(** The outcome of a task, as the specification names it; a worker's
    tuple is read the way the aggregation loop reads it. *)
Inductive Outcome : Type :=
  | Succeeded (inputBytes outputBytes : nat)
  | Skipped (inputBytes outputBytes : nat)
  | Failed (inputBytes : nat) (errorMessage : option string).

Definition outcome_of (r : WorkerResult) : Outcome :=
  if skipped r then Skipped (input_size r) (output_size r)
  else if success r then Succeeded (input_size r) (output_size r)
  else Failed (input_size r) (error_message r).

(** The outcome of a completed future: that of the worker's tuple, or a
    failure when the worker ended with an exception. *)
Definition future_outcome (future : FutureResult) : Outcome :=
  match future with
  | Ok r => outcome_of r
  | Raise e => Failed 0 (Some e)
  end.

Definition is_succeeded (o : Outcome) : bool :=
  match o with Succeeded _ _ => true | _ => false end.

Definition is_skipped (o : Outcome) : bool :=
  match o with Skipped _ _ => true | _ => false end.

Definition is_failed (o : Outcome) : bool :=
  match o with Failed _ _ => true | _ => false end.

(** The number of outcomes of one kind. *)
Fixpoint count_outcomes (kind : Outcome → bool) (outcomes : list Outcome) : nat :=
  match outcomes with
  | [] => 0
  | o :: rest => (if kind o then 1 else 0) + count_outcomes kind rest
  end.

(** The counts [st'] are the counts [st] with the outcomes added, each
    to the count of its kind. *)
Definition counts_with (st : RunStats) (outcomes : list Outcome) (st' : RunStats) : Prop :=
  successful st' = successful st + count_outcomes is_succeeded outcomes
  ∧ skipped_count st' = skipped_count st + count_outcomes is_skipped outcomes
  ∧ failed st' = failed st + count_outcomes is_failed outcomes.

(** The outcomes of the single-process loop: each task is handed to the
    worker in turn, in the file system that the tasks before it have
    left. *)
Inductive sequential_outcomes `{pil : PIL} : list Task → World → list Outcome → Prop :=
  | sequential_outcomes_nil w :
      sequential_outcomes [] w []
  | sequential_outcomes_cons task rest w r w1 w2 outcomes :
      process_single_image task w = (Ok r, w1) →
      nodes w2 = nodes w1 →
      transformer_calls w2 = transformer_calls w1 →
      sequential_outcomes rest w2 outcomes →
      sequential_outcomes (task :: rest) w (outcome_of r :: outcomes).

(** The outcomes of a batch: those of the loop with one process, those of
    the futures the pool has completed with more. *)
Definition batch_outcomes `{pil : PIL} `{pool : ProcessPool} (args : Args)
    (task_args : list Task) (w : World) (outcomes : list Outcome) : Prop :=
  if bool_decide (processes args = 1%Z) then sequential_outcomes task_args w outcomes
  else outcomes = map (λ tf, future_outcome tf.2) (pool_run (processes args) task_args w).1.

(** The lines of the dry-run preview before and after the example names. *)
Definition preview_header (args : Args) (n : nat) (quality : Z) : list string :=
  [""; "=== DRY RUN PREVIEW ===";
   "Would process " +:+ Py.str n +:+ " images";
   "Format: " +:+ Py.upper (format_str (format args));
   "Quality: " +:+ pretty quality;
   "Max size: " +:+ pretty (max_size args) +:+ "px";
   "Processes: " +:+ pretty (processes args);
   "Naming: " +:+ (if keep_names args then "Keep original" else "Sequential");
   "Directory structure: "
     +:+ (if preserve_dirs args then "Preserved" else "Flattened")]
  ++ (if skip_existing args then ["Skip existing: Yes"] else [])
  ++ [""; "Example output filenames:"].

(** One line for each previewed task: the name of the input file, an
    arrow, the name of the output file. *)
Definition preview_lines (cs : list Task) : list string :=
  map (λ c, "  " +:+ Path.name (Path.of_str (input_path c)) +:+ " → "
              +:+ Path.name (output_path c)) cs.

Definition preview_remainder (n : nat) : list string :=
  if bool_decide (5 < n) then ["  ... and " +:+ Py.str (n - 5) +:+ " more files"]
  else [].

Definition preview_footer : list string :=
  [""; "No files will be processed in dry-run mode."].

(** The words of the specification for resizing: standard rounding of a
    quotient of positive integers (halves go up), and what any rounding
    to a nearest integer satisfies. *)
Definition round_half_up (num den : Z) : Z := ((2 * num + den) / (2 * den))%Z.

Definition is_nearest_integer (r num den : Z) : Prop :=
  (2 * Z.abs (r * den - num) ≤ den)%Z.

(** The size the specification gives a resized image: the larger dimension
    becomes [maxDimension], the shorter one is scaled by the same ratio and
    rounded. *)
Definition spec_new_size (width height maxDimension : Z) : Z * Z :=
  if (width >? height)%Z
  then (maxDimension, round_half_up (height * maxDimension) width)
  else (round_half_up (width * maxDimension) height, maxDimension).

(** The world after [main] has announced the destination folder. *)
Definition announced (destination_folder : Path) (w : World) : World :=
  mkWorld (nodes w)
    (stdout w ++ ["Output will be saved to: " +:+ Path.fspath destination_folder])
    (transformer_calls w).

Definition append_lines (lines : list string) (w : World) : World :=
  mkWorld (nodes w) (stdout w ++ lines) (transformer_calls w).

(** The world after the two progress lines of the planner. *)
Definition scanning (w : World) : World :=
  mkWorld (nodes w) (stdout w ++ ["Scanning for images..."]) (transformer_calls w).

Definition found (n : nat) (w : World) : World :=
  mkWorld (nodes w)
    (stdout w ++ ["Found " +:+ Py.str n +:+ " images to process"])
    (transformer_calls w).

(** ** Example worlds *)

Definition empty_world : World := mkWorld ∅ [] [].

Definition two_files : tree := Dir ["b.jpg"; "a.jpg"] [].

(** Two directories that each hold a file named [x.jpg]. *)
Definition same_names : tree :=
  Dir [] [("a", Dir ["x.jpg"] []); ("b", Dir ["x.jpg"] [])].

Definition one_file : tree := Dir ["x.jpg"] [].

(** A directory that holds [y.png] and [y.jpg]. *)
Definition same_stem : tree := Dir [] [("sub", Dir ["y.png"; "y.jpg"] [])].

(** A destination in which [photos-0001.jpg] is a symbolic link to a file
    outside it. *)
Definition link_at_output : list (Path * Path) :=
  [(["/"; "out"; "photos"; "photos-0001.jpg"], ["/"; "etc"; "passwd"])].

(** A source with a sub-directory [sub], and a destination in which [sub]
    is a symbolic link to [/tmp]. *)
Definition with_subdir : tree := Dir ["x.jpg"] [("sub", Dir ["y.png"; "z.txt"] [])].

Definition link_at_subdir : list (Path * Path) :=
  [(["/"; "out"; "photos"; "sub"], ["/"; "tmp"])].

Definition seven_files : tree :=
  Dir ["g.png"; "f.jpg"; "e.jpg"; "d.jpg"; "c.jpg"; "b.jpg"; "a.jpg"; "notes.txt"] [].

(** A codec for the examples: an image is its size, read from the first
    two bytes of the file; encoding writes the size back. *)
Definition toy_decode (content : list Byte.byte) : result (Z * Z) :=
  match content with
  | a :: b :: _ => Ok (Z.of_N (Byte.to_N a), Z.of_N (Byte.to_N b))
  | _ => Raise "UnidentifiedImageError"
  end.

Definition toy_encode (img : Z * Z) : list Byte.byte :=
  match Byte.of_N (Z.to_N (fst img)), Byte.of_N (Z.to_N (snd img)) with
  | Some a, Some b => [a; b]
  | _, _ => []
  end.

Definition toy_pil : PIL := {|
  Image := Z * Z;
  image_decode := toy_decode;
  exif_transpose := λ img, Ok img;
  mode_is_RGB := λ _, true;
  convert_RGB := λ img, Ok img;
  image_size := λ img, img;
  image_resize := λ _ sz, Ok sz;
  image_save := λ img _ _, Saved (toy_encode img);
  save_removes_created := true;
|}.

(** The same codec with an encoder that fails once the output file is
    open, before it has written a byte. *)
Definition failing_encoder : PIL := {|
  Image := Z * Z;
  image_decode := toy_decode;
  exif_transpose := λ img, Ok img;
  mode_is_RGB := λ _, true;
  convert_RGB := λ img, Ok img;
  image_size := λ img, img;
  image_resize := λ _ sz, Ok sz;
  image_save := λ _ _ _, SaveError "encoder error" (Some []);
  save_removes_created := true;
|}.

(** A pool for the examples: the workers run one after the other and the
    futures complete in the reverse of the submission order. *)
Fixpoint toy_run (task_args : list Task) (w : World)
    : list (Task * FutureResult) * World :=
  match task_args with
  | [] => ([], w)
  | task_arg :: rest =>
      let '(done, w1) := toy_run rest w in
      match process_single_image (pil := toy_pil) task_arg w1 with
      | (r, w2) => (done ++ [(task_arg, r)], w2)
      end
  end.

Definition toy_pool : ProcessPool := {| pool_run := λ _, toy_run |}.

Definition default_args : Args :=
  mkArgs 2400 87 jpg false 1 false false false.

Definition flatten_keep_names : Args :=
  mkArgs 2400 87 jpg true 1 false false false.

Definition preserve_keep_names : Args :=
  mkArgs 2400 87 jpg true 1 false false true.

Definition dry_run_args : Args :=
  mkArgs 2400 87 jpg false 1 true false false.

Definition four_processes : Args :=
  mkArgs 2400 87 jpg true 4 false true false.

(** A world with two source images and one output that already exists. *)
Definition small_world : World :=
  mkWorld
    (<[ ["photos"; "a.jpg"] := RegularFile [Byte.x04; Byte.x03; Byte.x00] ]>
     (<[ ["photos"; "b.jpg"] := RegularFile [Byte.x05] ]>
      (<[ ["dest"; "photos"; "a.jpg"] := RegularFile [Byte.x01; Byte.x01] ]> ∅)))
    [] [].

Definition skip_task : Task :=
  mkTask "photos/a.jpg" ["dest"; "photos"; "a.jpg"] 2 87 jpg true.

Definition fresh_task : Task :=
  mkTask "photos/b.jpg" ["dest"; "photos"; "b.jpg"] 2 87 jpg true.

(** ** The rest of the program

    The functions of [picks.py] that the sections above leave out: the
    display name of the progress bar, the validation of the command line
    and the size summary that ends the report. *)

(** *** More Python built-ins *)

Definition tab : ascii := "009"%char.

(** [s[:k]]: a negative [k] counts from the end of [s]. *)
Definition py_slice_to (s : string) (k : Z) : string :=
  if (k <? 0)%Z then Py.take (Z.to_nat (Z.of_nat (Py.len s) + k)) s
  else Py.take (Z.to_nat k) s.

Fixpoint spaces (k : nat) : string :=
  match k with
  | 0 => ""
  | S k' => String " "%char (spaces k')
  end.

(** [s.ljust(width)]: [s] itself when it is already that long. *)
Definition py_ljust (s : string) (width : Z) : string :=
  s +:+ spaces (Z.to_nat (width - Z.of_nat (Py.len s))).

(** [s.split(sep)] for a separator of one character. *)
Fixpoint py_split (sep : ascii) (s : string) : list string :=
  match s with
  | "" => [""]
  | String c s' =>
      if bool_decide (c = sep) then "" :: py_split sep s'
      else match py_split sep s' with
           | x :: r => String c x :: r
           | [] => [String c ""]
           end
  end.

(** The white space of ASCII, as [str.isspace] has it: tab to carriage
    return, the four separators and the space. *)
Definition is_space (c : ascii) : bool :=
  let n := nat_of_ascii c in
  ((9 <=? n) && (n <=? 13)) || ((28 <=? n) && (n <=? 32)).

(** [s.lstrip(chars)] and [s.rstrip(chars)], the characters to remove
    given by a test. *)
Fixpoint py_lstrip (drop : ascii → bool) (s : string) : string :=
  match s with
  | "" => ""
  | String c s' => if drop c then py_lstrip drop s' else s
  end.

Fixpoint py_rstrip (drop : ascii → bool) (s : string) : string :=
  match s with
  | "" => ""
  | String c s' =>
      match py_rstrip drop s' with
      | "" => if drop c then "" else String c ""
      | r => String c r
      end
  end.

(** [s.strip()], on a string of ASCII characters. *)
Definition py_strip (s : string) : string :=
  py_lstrip is_space (py_rstrip is_space s).

(** A string of ASCII characters: its bytes are its characters. *)
Fixpoint ascii_only (s : string) : bool :=
  match s with
  | "" => true
  | String c s' => (nat_of_ascii c <? 128) && ascii_only s'
  end.

(** *** The display name *)

(** [clean_filename_for_display(filename, fixed_length)] *)
Definition clean_filename_for_display (filename : string) (fixed_length : Z) : string :=
  let clean_name := Path.name (Path.of_str filename) in
  let clean_name :=
    Py.replace (Py.replace clean_name " " "_") (String tab "") "_" in
  let clean_name :=
    if (Z.of_nat (Py.len clean_name) >? fixed_length)%Z
    then py_slice_to clean_name (fixed_length - 3) +:+ "..."
    else clean_name in
  py_ljust clean_name fixed_length.

(** *** Validation of the command line *)

(** The whole parsed command line: the options of [Args] with the two
    positional arguments and [--include]. *)
Record Namespace : Type := mkNamespace {
  options : Args;
  target_folder : string;
  destination : string;
  include : option string;
}.

(** [sys.exit(code)] *)
Definition sys_exit {A} (code : Z) : M A := raise "SystemExit".

(** [Path(p).is_dir()], with the same limit as [exists_]. *)
Definition is_dir (p : Path) : M bool := λ w,
  (Ok match nodes w !! p with
      | Some (Directory _) => true
      | _ => false
      end, w).

(** One element of the set built from [--include]:
    [f'.{ext.strip().lower().lstrip(".")}']. *)
Definition include_extension (ext : string) : string :=
  "." +:+ py_lstrip (λ c, bool_decide (c = "."%char)) (Py.lower (py_strip ext)).

(** [validate_arguments(args)] *)
Definition validate_arguments (args : Namespace)
    : M (Path * Path * Z * option (gset string)) :=
  let opts := options args in
  (if bool_decide (processes opts < 1)%Z || bool_decide (processes opts > 16)%Z
   then print ("Error: Number of processes must be between 1 and 16 (got "
                 +:+ pretty (processes opts) +:+ ")");;
        sys_exit 1
   else mret ());;
  (if negb (bool_decide (1 ≤ quality_arg opts)%Z
            && bool_decide (quality_arg opts ≤ 100)%Z)
   then print ("Error: Quality must be between 1 and 100 (got "
                 +:+ pretty (quality_arg opts) +:+ ")");;
        sys_exit 1
   else mret ());;
  (if bool_decide (max_size opts < 1)%Z
   then print ("Error: Max size must be positive (got "
                 +:+ pretty (max_size opts) +:+ ")");;
        sys_exit 1
   else mret ());;
  (if skip_existing opts && negb (keep_names opts)
   then print "Warning: --skip-existing only works with --keep-names flag";;
        print "Sequential naming can't reliably map existing files to source files";;
        sys_exit 1
   else mret ());;
  let target_path := Path.of_str (target_folder args) in
  target_exists ← exists_ target_path;
  target_is_dir ← (if (target_exists : bool) then is_dir target_path
                   else mret false : M bool);
  (if negb target_exists || negb target_is_dir
   then print ("Error: Target folder '" +:+ target_folder args
                 +:+ "' does not exist or is not a directory");;
        sys_exit 1
   else mret ());;
  let destination_base := Path.of_str (destination args) in
  destination_exists ← exists_ destination_base;
  (if negb destination_exists
   then print ("Error: Destination '" +:+ destination args +:+ "' does not exist");;
        sys_exit 1
   else mret ());;
  let include_extensions : option (gset string) :=
    if truthy_str (include args)
    then Some (list_to_set (map include_extension
                              (py_split ","%char (default "" (include args)))))
    else None in
  let quality := quality_arg opts in
  let quality :=
    if bool_decide (format opts = webp) && bool_decide (quality = 87)%Z
    then 82%Z else quality in
  mret (target_path, destination_base, quality, include_extensions).

(** *** The size summary *)

(** The integer nearest to [num / den], halves going to the even one
    ([0 <= num], [0 < den]). *)
Definition round_half_even (num den : Z) : Z :=
  let q := (num / den)%Z in
  let r := (num mod den)%Z in
  if (2 * r <? den)%Z then q
  else if (den <? 2 * r)%Z then (q + 1)%Z
  else if Z.even q then q else (q + 1)%Z.

(** A number of tenths written with one decimal. *)
Definition decimal_1 (tenths : Z) : string :=
  pretty (tenths / 10)%Z +:+ "." +:+ pretty (tenths mod 10)%Z.

(** [f'{x:.1f}'] for a float [x]: the decimal with one digit after the
    point that is nearest to [x], halves going to the even digit. *)
Definition format_1f (x : spec_float) : string :=
  match x with
  | S754_zero s => (if s then "-" else "") +:+ "0.0"
  | S754_infinity s => if s then "-inf" else "inf"
  | S754_nan => "nan"
  | S754_finite s m e =>
      let tenths :=
        match e with
        | Zneg k => round_half_even (10 * Z.pos m) (2 ^ Z.pos k)
        | _ => (10 * Z.pos m * 2 ^ e)%Z
        end in
      (if s then "-" else "") +:+ decimal_1 tenths
  end.

(** The value of [size_bytes] in [format_size]: an [int] at first, a
    [float] once it has been divided. *)
Inductive number : Type :=
  | PyInt (z : Z)
  | PyFloat (x : spec_float).

(** [float(v)]: an [int] too large for a float is an [OverflowError]. *)
Definition to_float (v : number) : result spec_float :=
  match v with
  | PyFloat x => Ok x
  | PyInt z =>
      match Float.of_int z with
      | S754_infinity _ => Raise "OverflowError"
      | x => Ok x
      end
  end.

(** [1024.0] *)
Definition f1024 : spec_float := Float.of_int 1024.

(** [v < 1024.0]; an [int] is compared with a float exactly. *)
Definition lt_1024 (v : number) : bool :=
  match v with
  | PyInt z => (z <? 1024)%Z
  | PyFloat x => SFltb x f1024
  end.

(** [v / 1024.0] *)
Definition div_1024 (v : number) : result spec_float :=
  match to_float v with
  | Ok x => Ok (SFdiv Float.prec Float.emax x f1024)
  | Raise e => Raise e
  end.

(** [f'{v:.1f}'] *)
Definition format_number (v : number) : result string :=
  match to_float v with
  | Ok x => Ok (format_1f x)
  | Raise e => Raise e
  end.

(** The loop of [format_size] over the units that are left. *)
Fixpoint format_size_units (units : list string) (size_bytes : number)
    : result string :=
  match units with
  | [] =>
      match format_number size_bytes with
      | Ok s => Ok (s +:+ "TB")
      | Raise e => Raise e
      end
  | unit :: rest =>
      if lt_1024 size_bytes then
        match format_number size_bytes with
        | Ok s => Ok (s +:+ unit)
        | Raise e => Raise e
        end
      else
        match div_1024 size_bytes with
        | Ok x => format_size_units rest (PyFloat x)
        | Raise e => Raise e
        end
  end.

(** [format_size(size_bytes)], the function local to [main]. *)
Definition format_size (size_bytes : Z) : result string :=
  format_size_units ["B"; "KB"; "MB"; "GB"] (PyInt size_bytes).

(** [((total_input_size - total_output_size) / total_input_size) * 100] *)
Definition compression_ratio (total_input_size total_output_size : Z)
    : result spec_float :=
  match Float.truediv (total_input_size - total_output_size) total_input_size with
  | Ok q => Ok (SFmul Float.prec Float.emax q (Float.of_int 100))
  | Raise e => Raise e
  end.

(** The size summary that ends [main] (lines 454-474). *)
Definition size_summary (st : RunStats) : M unit :=
  let total_input_size := Z.of_nat (total_input_size st) in
  let total_output_size := Z.of_nat (total_output_size st) in
  if (0 <? total_input_size)%Z then
    input_size_str ← lift (format_size total_input_size);
    output_size_str ← lift (format_size total_output_size);
    if (0 <? total_input_size)%Z then
      ratio ← lift (compression_ratio total_input_size total_output_size);
      let space_saved := (total_input_size - total_output_size)%Z in
      space_saved_str ← lift (format_size space_saved);
      print "";;
      print "Size Summary:";;
      print ("Original: " +:+ input_size_str +:+ " → Optimized: " +:+ output_size_str);;
      print ("Space saved: " +:+ space_saved_str +:+ " (" +:+ format_1f ratio
               +:+ "% compression)")
    else mret ()
  else mret ().

(** The words for a size: the unit is the first of B, KB, MB and GB in
    which the size is below 1024, or TB, and the number has one decimal. *)
Definition size_unit (n : Z) : nat :=
  if (n <? 1024)%Z then 0
  else if (n <? 1024 ^ 2)%Z then 1
  else if (n <? 1024 ^ 3)%Z then 2
  else if (n <? 1024 ^ 4)%Z then 3
  else 4.

Definition unit_name (k : nat) : string := nth k ["B"; "KB"; "MB"; "GB"] "TB".

Definition spec_format_size (n : Z) : string :=
  let k := size_unit n in
  decimal_1 (round_half_even (10 * n) (1024 ^ Z.of_nat k)) +:+ unit_name k.

(** *** Notions used to state the properties *)

(** The file [f] lies in the tree [t], in the directory reached from its
    top by the names [ds]. *)
Inductive tree_file : tree → list string → string → Prop :=
  | tree_file_here files dirs f :
      f ∈ files → tree_file (Dir files dirs) [] f
  | tree_file_below files dirs d t ds f :
      (d, t) ∈ dirs → tree_file t ds f → tree_file (Dir files dirs) (d :: ds) f.

(** The extensions [get_image_files] looks for. *)
Definition image_extensions_of (include_extensions : option (gset string))
    : gset string :=
  if truthy include_extensions
  then default ∅ include_extensions ∩ default_extensions
  else default_extensions.

(** From [w] to [w'] every node is kept as it is, and what is new is a
    directory: no file is written. *)
Definition adds_directories (w w' : World) : Prop :=
  ∀ p, match nodes w !! p with
       | Some n => nodes w' !! p = Some n
       | None => nodes w' !! p = None ∨ ∃ sz, nodes w' !! p = Some (Directory sz)
       end.

(** A line that reports an error for an input file. *)
Definition error_line (l : string) : Prop :=
  Py.startswith l "Error processing " = true.

(** The pair a call to the transformer leaves in the record. *)
Definition call_of (task : Task) : string * Path :=
  (input_path task, output_path task).

(** *** More example worlds *)

Definition webp_args : Args :=
  mkArgs 2400 87 webp true 4 false true false.

(** A world with a source folder and a destination. *)
Definition folders_world : World :=
  mkWorld
    (<[ ["photos"] := Directory 4096 ]>
     (<[ ["photos"; "a.jpg"] := RegularFile [Byte.x04; Byte.x03; Byte.x00] ]>
      (<[ ["out"] := Directory 4096 ]> ∅)))
    [] [].

Definition webp_command_line : Namespace :=
  mkNamespace webp_args "photos" "out" (Some "JPG, .png").

(** ** Strings *)

Lemma app_nil_r_s (s : string) : s +:+ "" = s.
Proof. induction s as [|c s IH]; simpl; [done|]. unfold String.app in *. simpl. by rewrite IH. Qed.

Lemma app_assoc_s (a b c : string) : (a +:+ b) +:+ c = a +:+ (b +:+ c).
Proof.
  induction a as [|x a IH]; [done|].
  unfold String.app in *. simpl. by rewrite IH.
Qed.

Lemma app_cons_s (x : ascii) (a b : string) : String x a +:+ b = String x (a +:+ b).
Proof. done. Qed.

Lemma len_app (a b : string) : Py.len (a +:+ b) = Py.len a + Py.len b.
Proof.
  unfold Py.len. induction a as [|x a IH]; [done|].
  rewrite app_cons_s. simpl. by rewrite IH.
Qed.

Lemma len_zeros (k : nat) : Py.len (Py.zeros k) = k.
Proof. unfold Py.len. induction k as [|k IH]; simpl; [done|]. by rewrite IH. Qed.

Lemma app_inv_tail_s (a b c : string) : a +:+ c = b +:+ c → a = b.
Proof.
  revert b. induction a as [|x a IH]; intros [|y b] H.
  - done.
  - exfalso. apply (f_equal Py.len) in H. rewrite app_cons_s in H.
    rewrite len_app in H. unfold Py.len in H. simpl in H.
    fold (Py.len (b +:+ c)) in H. rewrite len_app in H. unfold Py.len in H. lia.
  - exfalso. apply (f_equal Py.len) in H. rewrite app_cons_s in H.
    rewrite len_app in H. unfold Py.len in H. simpl in H.
    fold (Py.len (a +:+ c)) in H. rewrite len_app in H. unfold Py.len in H. lia.
  - rewrite !app_cons_s in H. injection H as -> H. f_equal. by apply IH.
Qed.

(** ** Decimal numerals *)

Lemma digitCount_go_fuel (f1 f2 m : nat) :
  m ≤ f1 → m ≤ f2 → digitCount_go f1 m = digitCount_go f2 m.
Proof.
  revert f2 m. induction f1 as [|f1 IH]; intros f2 m H1 H2.
  - assert (m = 0) as -> by lia. by destruct f2.
  - destruct f2 as [|f2].
    + assert (m = 0) as -> by lia. done.
    + cbn [digitCount_go]. destruct (m <? 10) eqn:E; [done|].
      apply Nat.ltb_ge in E. f_equal. apply IH.
      * pose proof (Nat.div_lt m 10). lia.
      * pose proof (Nat.div_lt m 10). lia.
Qed.

Lemma digitCount_small (n : nat) : n < 10 → digitCount n = 1.
Proof.
  unfold digitCount. destruct n as [|n]; [done|]. simpl.
  intros H. destruct (S n <? 10) eqn:E; [done|]. apply Nat.ltb_ge in E. lia.
Qed.

Lemma digitCount_step (n : nat) : 10 ≤ n → digitCount n = S (digitCount (n / 10)).
Proof.
  unfold digitCount. destruct n as [|n]; [lia|]. intros H.
  cbn [digitCount_go]. destruct (S n <? 10) eqn:E.
  { apply Nat.ltb_lt in E. lia. }
  f_equal. apply digitCount_go_fuel; [|done].
  pose proof (Nat.div_lt (S n) 10). lia.
Qed.

(** The digit count is what the specification means by it. *)
Lemma digitCount_spec (n : nat) :
  1 ≤ digitCount n ∧ n < 10 ^ digitCount n ∧ (1 ≤ n → 10 ^ (digitCount n - 1) ≤ n).
Proof.
  induction n as [n IH] using lt_wf_ind.
  destruct (le_lt_dec 10 n) as [Hge|Hlt].
  - rewrite digitCount_step by done.
    destruct (IH (n / 10)) as (H1 & H2 & H3).
    { apply Nat.div_lt; lia. }
    assert (1 ≤ n / 10) as Hq by (apply Nat.div_le_lower_bound; lia).
    specialize (H3 Hq).
    pose proof (Nat.div_mod_eq n 10) as Hn.
    pose proof (Nat.mod_upper_bound n 10 ltac:(lia)) as Hm.
    split; [lia|]. split.
    + rewrite Nat.pow_succ_r'. lia.
    + intros _. replace (S (digitCount (n / 10)) - 1) with (S (digitCount (n / 10) - 1)) by lia.
      rewrite Nat.pow_succ_r'. lia.
  - rewrite digitCount_small by done. simpl. lia.
Qed.

Lemma digitCount_mono (i n : nat) : i ≤ n → digitCount i ≤ digitCount n.
Proof.
  intros Hle.
  destruct (digitCount_spec i) as (Hi1 & Hi2 & Hi3).
  destruct (digitCount_spec n) as (Hn1 & Hn2 & Hn3).
  destruct (decide (i = 0)) as [->|Hi0].
  { rewrite (digitCount_small 0) by lia. done. }
  apply Nat.nlt_ge. intros Hlt.
  assert (10 ^ digitCount n ≤ 10 ^ (digitCount i - 1)) as Hp
    by (apply Nat.pow_le_mono_r; lia).
  specialize (Hi3 ltac:(lia)). lia.
Qed.

Lemma pretty_go_app (x : N) (s : string) :
  pretty_N_go x s = pretty_N_go x "" +:+ s.
Proof.
  revert s. induction (N.lt_wf_0 x) as [x _ IH]; intros s.
  destruct (decide (x = 0%N)) as [->|Hx].
  { by rewrite !pretty_N_go_0. }
  rewrite (pretty_N_go_step x s), (pretty_N_go_step x "") by lia.
  rewrite (IH (x `div` 10)%N) by (apply N.div_lt; lia).
  rewrite (IH (x `div` 10)%N ltac:(apply N.div_lt; lia) (String _ "")).
  by rewrite app_assoc_s.
Qed.

Lemma pretty_go_step (n : nat) :
  0 < n →
  pretty_N_go (N.of_nat n) ""
  = pretty_N_go (N.of_nat (n / 10)) ""
      +:+ String (pretty_N_char (N.of_nat (n mod 10))) "".
Proof.
  intros Hn. rewrite pretty_N_go_step by lia.
  rewrite pretty_go_app. by rewrite Nat2N.inj_div, Nat2N.inj_mod.
Qed.

Lemma str_unfold (n : nat) :
  Py.str n = if decide (n = 0) then "0" else pretty_N_go (N.of_nat n) "".
Proof.
  unfold Py.str, pretty, pretty_nat, pretty, pretty_N.
  destruct (decide (N.of_nat n = 0%N)), (decide (n = 0)); (done || lia).
Qed.

Lemma len_digits (n : nat) :
  0 < n → Py.len (pretty_N_go (N.of_nat n) "") = digitCount n.
Proof.
  induction n as [n IH] using lt_wf_ind. intros Hn.
  rewrite pretty_go_step, len_app by done.
  destruct (le_lt_dec 10 n) as [Hge|Hlt].
  - assert (n / 10 < n) as H1 by (apply Nat.div_lt; lia).
    assert (0 < n / 10) as H2 by (apply Nat.div_str_pos; lia).
    rewrite (IH _ H1 H2), (digitCount_step n Hge). unfold Py.len. simpl. lia.
  - rewrite Nat.div_small by done. rewrite digitCount_small by done.
    change (N.of_nat 0) with 0%N. by rewrite pretty_N_go_0.
Qed.

Lemma len_str (n : nat) : Py.len (Py.str n) = digitCount n.
Proof.
  rewrite str_unfold. destruct (decide (n = 0)) as [->|Hn]; [done|].
  apply len_digits. lia.
Qed.

Lemma all_digits_app (a b : string) :
  all_digits (a +:+ b) = all_digits a && all_digits b.
Proof.
  induction a as [|x a IH]; [done|].
  rewrite app_cons_s. simpl. by rewrite IH, andb_assoc.
Qed.

Lemma pretty_char_digit (x : N) :
  (x < 10)%N →
  is_digit (pretty_N_char x) = true ∧ Py.digit_val (pretty_N_char x) = N.to_nat x.
Proof.
  intros Hx.
  assert (x = 0 ∨ x = 1 ∨ x = 2 ∨ x = 3 ∨ x = 4 ∨ x = 5 ∨ x = 6 ∨ x = 7
          ∨ x = 8 ∨ x = 9)%N as Hc by lia.
  repeat (destruct Hc as [->|Hc]; [by vm_compute|]). subst x. by vm_compute.
Qed.

Lemma int_go_app (acc : nat) (a b : string) :
  Py.int_go acc (a +:+ b) = Py.int_go (Py.int_go acc a) b.
Proof.
  revert acc. induction a as [|x a IH]; intros acc; [done|].
  rewrite app_cons_s. simpl. by rewrite IH.
Qed.

Lemma digits_value (n : nat) :
  all_digits (pretty_N_go (N.of_nat n) "") = true
  ∧ Py.int (pretty_N_go (N.of_nat n) "") = n.
Proof.
  induction n as [n IH] using lt_wf_ind.
  destruct (decide (n = 0)) as [->|Hn]; [done|].
  rewrite pretty_go_step by lia.
  destruct (IH (n / 10)) as [Hd Hv]; [apply Nat.div_lt; lia|].
  destruct (pretty_char_digit (N.of_nat (n mod 10))) as [Hc Hcv].
  { pose proof (Nat.mod_upper_bound n 10). lia. }
  split.
  - rewrite all_digits_app, Hd. cbn [all_digits andb]. by rewrite Hc.
  - unfold Py.int in *. rewrite int_go_app, Hv. cbn [Py.int_go].
    rewrite Hcv, Nat2N.id.
    pose proof (Nat.div_mod_eq n 10). lia.
Qed.

Lemma str_value (n : nat) :
  all_digits (Py.str n) = true ∧ Py.int (Py.str n) = n.
Proof.
  rewrite str_unfold. destruct (decide (n = 0)) as [->|Hn]; [done|].
  apply digits_value.
Qed.

Lemma zfill_digits (s : string) (w : nat) :
  all_digits s = true → Py.zfill s w = Py.zeros (w - Py.len s) +:+ s.
Proof.
  destruct s as [|c s]; intros Hd.
  - simpl. unfold Py.len. simpl. by rewrite Nat.sub_0_r, app_nil_r_s.
  - unfold Py.zfill. simpl in Hd. apply andb_prop in Hd as [Hc _].
    assert (Py.is_sign c = false) as ->; [|done].
    unfold Py.is_sign. unfold is_digit in Hc.
    apply andb_prop in Hc as [H1 _]. apply Nat.leb_le in H1.
    rewrite !bool_decide_eq_false_2; [done|..]; intros ->; vm_compute in H1; lia.
Qed.

Lemma int_zeros (k : nat) (s : string) :
  Py.int (Py.zeros k +:+ s) = Py.int s.
Proof.
  unfold Py.int. induction k as [|k IH]; [done|].
  cbn [Py.zeros]. rewrite app_cons_s. simpl. apply IH.
Qed.

Lemma int_zfill_str (n w : nat) : Py.int (Py.zfill (Py.str n) w) = n.
Proof.
  destruct (str_value n) as [Hd Hv].
  by rewrite zfill_digits, int_zeros.
Qed.

Lemma zfill_str_inj (i j w : nat) :
  Py.zfill (Py.str i) w = Py.zfill (Py.str j) w → i = j.
Proof.
  intros H. rewrite <-(int_zfill_str i w), <-(int_zfill_str j w). by rewrite H.
Qed.

Lemma generate_sequential_name_inj (folder ext : string) (i j total : nat) :
  generate_sequential_name folder i total ext
  = generate_sequential_name folder j total ext → i = j.
Proof.
  unfold generate_sequential_name. intros H.
  apply String.app_inj, String.app_inj, app_inv_tail_s in H.
  by apply zfill_str_inj in H.
Qed.

(** C9. For a 1-based index [i] of [N] files, the name that
    [generate_sequential_name] builds is the source folder's name, a dash,
    [i] written in decimal with zeros on the left up to
    [max(4, digitCount(N))] digits, and the extension: it is the name the
    specification gives, that numeral has exactly that many characters,
    all of them digits, and its value is [i].  With 12 files the index has
    4 digits and with 123456 files it has 6. *)
Theorem sequential_name_padding (folder ext : string) (i N : nat) :
  1 ≤ i ≤ N →
  generate_sequential_name folder i N ext = spec_sequential_name folder i N ext
  ∧ Py.len (spec_zero_padded i (Nat.max 4 (digitCount N))) = Nat.max 4 (digitCount N)
  ∧ all_digits (spec_zero_padded i (Nat.max 4 (digitCount N))) = true
  ∧ Py.int (spec_zero_padded i (Nat.max 4 (digitCount N))) = i
  ∧ (N = 12 → i = 1 → generate_sequential_name folder i N ext
                       = folder +:+ "-0001" +:+ ext)
  ∧ (N = 123456 → i = 1 → generate_sequential_name folder i N ext
                           = folder +:+ "-000001" +:+ ext).
Proof.
  intros [Hi HN].
  destruct (str_value i) as [Hd Hv].
  pose proof (digitCount_mono i N HN) as Hmono.
  assert (generate_sequential_name folder i N ext
          = spec_sequential_name folder i N ext) as Heq.
  { unfold generate_sequential_name, spec_sequential_name, spec_zero_padded.
    rewrite zfill_digits by done. rewrite !len_str.
    by rewrite (Nat.max_comm (digitCount N) 4). }
  split; [done|]. unfold spec_zero_padded. repeat split.
  - rewrite len_app, len_zeros, len_str. lia.
  - rewrite all_digits_app, Hd, andb_true_r.
    generalize (Nat.max 4 (digitCount N) - digitCount i).
    intros k. induction k as [|k IH]; [done|]. simpl. by rewrite IH.
  - by rewrite int_zeros.
  - intros -> ->. by vm_compute.
  - intros -> ->. rewrite Heq. unfold spec_sequential_name, spec_zero_padded.
    by vm_compute.
Qed.

Lemma sequential_name_padding_witness :
  generate_sequential_name "folder" 1 12 ".jpg" = "folder-0001.jpg".
Proof.
  destruct (sequential_name_padding "folder" ".jpg" 1 12 ltac:(lia))
    as (_ & _ & _ & _ & H & _).
  exact (H eq_refl eq_refl).
Defined.

(** ** Discovery *)

Lemma truthy_empty : truthy (Some ∅) = false.
Proof. unfold truthy. by rewrite bool_decide_eq_true_2. Qed.

(** C5, as stated, fails: [get_image_files] returns the files in the order
    of the walk, here [photos/b.jpg] before [photos/a.jpg]. *)
Lemma get_image_files_not_sorted :
  get_image_files two_files ["photos"] None empty_world
  = (Ok ["photos/b.jpg"; "photos/a.jpg"], empty_world)
  ∧ ¬ Sorted String.le ["photos/b.jpg"; "photos/a.jpg"].
Proof.
  split; [by vm_compute|].
  intros H. apply Sorted_inv in H as [_ H]. apply HdRel_inv in H.
  by vm_compute in H.
Qed.

Lemma sort_files_sorted (l : list string) : StronglySorted String.le (sort_files l).
Proof. apply StronglySorted_merge_sort; apply _. Qed.

Lemma sort_files_perm (l : list string) : sort_files l ≡ₚ l.
Proof. apply merge_sort_Permutation. Qed.

Lemma sort_files_length (l : list string) : length (sort_files l) = length l.
Proof. by rewrite sort_files_perm. Qed.

Lemma sort_files_of_perm (l l' : list string) : l ≡ₚ l' → sort_files l = sort_files l'.
Proof.
  intros H. apply (StronglySorted_unique String.le); try apply sort_files_sorted.
  by rewrite !sort_files_perm.
Qed.

Lemma sort_files_nil (l : list string) : sort_files l = [] → l = [].
Proof.
  intros H. apply length_zero_iff_nil. rewrite <-sort_files_length, H. done.
Qed.

(** ** Paths *)

Lemma no_sep_app (a b : string) : no_sep (a +:+ b) ↔ no_sep a ∧ no_sep b.
Proof.
  unfold no_sep. induction a as [|x a IH]; [by intuition|].
  rewrite app_cons_s. cbn [Path_ops.contains_char].
  destruct (bool_decide (x = "/"%char)); cbn [orb]; [by intuition|done].
Qed.

Lemma no_sep_digits (s : string) : all_digits s = true → no_sep s.
Proof.
  unfold no_sep. induction s as [|c s IH]; [done|]. cbn [all_digits].
  intros [Hc Hs]%andb_prop. cbn [Path_ops.contains_char]. rewrite (IH Hs).
  rewrite bool_decide_eq_false_2; [done|]. intros ->. by vm_compute in Hc.
Qed.

Lemma all_digits_zeros (k : nat) : all_digits (Py.zeros k) = true.
Proof. induction k as [|k IH]; [done|]. cbn [Py.zeros all_digits]. by rewrite IH. Qed.

Lemma split_sep_single (s : string) : no_sep s → Path.split_sep s = [s].
Proof.
  unfold no_sep. induction s as [|c s IH]; [done|].
  cbn [Path_ops.contains_char Path.split_sep].
  destruct (bool_decide (c = "/"%char)); [done|]. cbn [orb].
  intros H. by rewrite (IH H).
Qed.

Lemma split_sep_no_sep (s : string) : Forall no_sep (Path.split_sep s).
Proof.
  induction s as [|c s IH]; [by repeat constructor|].
  cbn [Path.split_sep]. destruct (bool_decide (c = "/"%char)) eqn:Hc.
  - by constructor.
  - destruct (Path.split_sep s) as [|x r].
    + constructor; [|done]. unfold no_sep. cbn [Path_ops.contains_char].
      by rewrite Hc.
    + apply Forall_cons in IH as [Hx Hr]. constructor; [|done].
      unfold no_sep in *. cbn [Path_ops.contains_char]. by rewrite Hc, Hx.
Qed.

Lemma root_of_no_sep (s : string) : no_sep s → Path.root_of s = [].
Proof.
  unfold no_sep, Path.root_of. destruct s as [|c s]; [done|].
  cbn [Path_ops.contains_char Py.startswith].
  destruct (decide ("/"%char = c)) as [<-|Hc].
  - by rewrite bool_decide_eq_true_2.
  - by rewrite (bool_decide_eq_false_2 ("/"%char = c)).
Qed.

Lemma root_of_cases (s : string) :
  Path.root_of s = [] ∨ Path.root_of s = ["/"] ∨ Path.root_of s = ["//"].
Proof. unfold Path.root_of. repeat case_match; auto. Qed.

(** A plain file name parses to itself. *)
Lemma of_str_single (s : string) :
  no_sep s → s ≠ "" → s ≠ "." → Path.of_str s = [s].
Proof.
  intros Hs H1 H2. unfold Path.of_str.
  rewrite root_of_no_sep, split_sep_single by done.
  rewrite filter_cons_True; [done|].
  unfold Path.kept. by rewrite !bool_decide_eq_false_2.
Qed.

Lemma is_root_sep (x : string) : Path.is_root x = true → ¬ no_sep x.
Proof.
  unfold Path.is_root. intros [H|H]%orb_prop; apply bool_decide_eq_true_1 in H;
    subst; by vm_compute.
Qed.

Lemma no_sep_not_root (x : string) : no_sep x → Path.is_root x = false.
Proof.
  intros H. destruct (Path.is_root x) eqn:E; [|done]. by apply is_root_sep in E.
Qed.

Lemma name_no_sep (p : Path) : valid_path p → no_sep (Path.name p).
Proof.
  intros [s ->]. unfold Path.name, Path.of_str.
  destruct (last _) as [x|] eqn:Hl; [|done].
  destruct (Path.is_root x) eqn:Hr; [done|].
  apply last_app_Some in Hl as [Hl|[_ Hl]].
  - apply last_Some in Hl as [l' Hl].
    assert (x ∈ filter (λ x, Is_true (Path.kept x)) (Path.split_sep s)) as Hin.
    { rewrite Hl. set_solver. }
    apply list_elem_of_filter in Hin as [_ Hin].
    pose proof (split_sep_no_sep s) as Hall.
    rewrite Forall_forall in Hall. by apply Hall.
  - destruct (root_of_cases s) as [H|[H|H]]; rewrite H in Hl;
      simplify_eq/=; done.
Qed.

Lemma joinpath_str_single (p : Path) (s : string) :
  no_sep s → s ≠ "" → s ≠ "." → p //s s = p ++ [s].
Proof.
  intros Hs H1 H2. unfold Path.joinpath_str. rewrite of_str_single by done.
  unfold Path.joinpath, Path.is_absolute. by rewrite no_sep_not_root.
Qed.

Lemma file_extension_cases (f : Format) :
  file_extension_of f = ".jpg" ∨ file_extension_of f = ".webp".
Proof. destruct f; vm_compute; auto. Qed.

Lemma sequential_name_plain (folder : string) (i total : nat) (f : Format) :
  no_sep folder →
  let nm := generate_sequential_name folder i total (file_extension_of f) in
  no_sep nm ∧ nm ≠ "" ∧ nm ≠ ".".
Proof.
  intros Hf nm. subst nm. unfold generate_sequential_name.
  destruct (str_value i) as [Hd _].
  rewrite zfill_digits by done.
  set (num := Py.zeros _ +:+ Py.str i).
  assert (all_digits num = true) as Hnum.
  { unfold num. by rewrite all_digits_app, all_digits_zeros, Hd. }
  split; [|split].
  - rewrite !no_sep_app.
    split; [done|]. split; [by vm_compute|]. split; [by apply no_sep_digits|].
    by destruct (file_extension_cases f) as [-> | ->]; vm_compute.
  - intros H%(f_equal Py.len). rewrite !len_app in H.
    change (Py.len "-") with 1 in H. change (Py.len "") with 0 in H. lia.
  - intros H%(f_equal Py.len). rewrite !len_app in H.
    change (Py.len "-") with 1 in H. change (Py.len ".") with 1 in H.
    destruct (file_extension_cases f) as [He|He]; rewrite He in H;
      [change (Py.len ".jpg") with 4 in H|change (Py.len ".webp") with 5 in H];
      lia.
Qed.

Lemma strip_prefix_Some (base p r : Path) :
  Path.strip_prefix base p = Some r → p = base ++ r.
Proof.
  revert p. induction base as [|b base IH]; intros p H.
  - by injection H as ->.
  - destruct p as [|x p]; [done|]. cbn [Path.strip_prefix] in H.
    destruct (decide (b = x)) as [->|Hne].
    + rewrite bool_decide_eq_true_2 in H by done. cbn. f_equal. by apply IH.
    + by rewrite bool_decide_eq_false_2 in H.
Qed.

Lemma relative_to_within (p base r : Path) :
  Path_ops.relative_to p base = Ok r → within base p.
Proof.
  unfold Path_ops.relative_to, within. destruct base as [|b base].
  - intros _. by apply prefix_nil.
  - destruct (Path.strip_prefix _ _) as [r'|] eqn:Hs; [|done].
    intros _. exists r'. by apply strip_prefix_Some.
Qed.

Lemma contained_within (resolve : Path → result Path) (dest out : Path) :
  contained resolve dest out = true → resolved_within resolve dest out.
Proof.
  unfold contained, resolved_relative_to, resolved_within.
  destruct (resolve out) as [ro|e]; [|done].
  destruct (resolve dest) as [rd|e]; [|done].
  destruct (Path_ops.relative_to ro rd) as [r|e] eqn:Hr; [|done].
  intros _. exists rd, ro. split; [done|]. split; [done|].
  by eapply relative_to_within.
Qed.

Lemma filter_all {A} (P : A → Prop) `{∀ x, Decision (P x)} (l : list A) :
  (∀ x, P x) → filter P l = l.
Proof.
  intros HP. induction l as [|x l IH]; [done|].
  rewrite filter_cons_True by done. by rewrite IH.
Qed.

Lemma filter_none {A} (P : A → Prop) `{∀ x, Decision (P x)} (l : list A) :
  (∀ x, ¬ P x) → filter P l = [].
Proof.
  intros HP. induction l as [|x l IH]; [done|].
  by rewrite filter_cons_False.
Qed.


(** ** Flat output paths *)

Lemma of_str_parts_plain (s : string) : parts_plain (Path.of_str s).
Proof.
  unfold parts_plain, Path.of_str. apply Forall_app. split.
  - destruct (root_of_cases s) as [-> | [-> | ->]]; repeat constructor; by left.
  - apply Forall_forall. intros x [_ Hx]%list_elem_of_filter. right.
    pose proof (split_sep_no_sep s) as Hall. rewrite Forall_forall in Hall. auto.
Qed.

Lemma strip_prefix_Forall {P : string → Prop} (base p r : Path) :
  Path.strip_prefix base p = Some r → Forall P p → Forall P r.
Proof.
  intros H%strip_prefix_Some Hp. subst p. by apply Forall_app in Hp as [_ ?].
Qed.

Lemma relative_to_parts_plain (p base r : Path) :
  Path_ops.relative_to p base = Ok r → parts_plain p → parts_plain r.
Proof.
  unfold Path_ops.relative_to. destruct base as [|b base].
  - destruct (Path.is_absolute p); [done|]. by intros [= ->].
  - destruct (Path.strip_prefix _ _) as [r'|] eqn:Hs; [|done].
    intros [= ->]. by apply (strip_prefix_Forall (b :: base) p).
Qed.

Lemma name_plain (p : Path) : parts_plain p → no_sep (Path.name p).
Proof.
  intros Hp. unfold Path.name. destruct (last p) as [x|] eqn:Hl; [|done].
  destruct (Path.is_root x) eqn:Hr; [done|].
  apply last_Some in Hl as [l' ->]. apply Forall_app in Hp as [_ Hx].
  apply Forall_cons in Hx as [[Hx|Hx] _]; [congruence|done].
Qed.

Lemma no_sep_cons (c : ascii) (s : string) :
  no_sep (String c s) ↔ c ≠ "/"%char ∧ no_sep s.
Proof.
  unfold no_sep. cbn [Path_ops.contains_char].
  destruct (decide (c = "/"%char)) as [->|Hc].
  - rewrite bool_decide_eq_true_2 by done. cbn [orb]. by intuition.
  - rewrite bool_decide_eq_false_2 by done. cbn [orb]. by intuition.
Qed.

Lemma replace_scan_no_sep (old new : string) (s : string) :
  no_sep new → no_sep s → ∀ skip, no_sep (Py.replace_scan old new skip s).
Proof.
  intros Hnew. induction s as [|c s IH]; intros Hs skip; [done|].
  apply no_sep_cons in Hs as [Hc Hs]. cbn [Py.replace_scan].
  destruct skip as [|k]; [|by apply IH].
  destruct (Py.startswith _ _).
  - apply no_sep_app. split; [done|]. by apply IH.
  - apply no_sep_cons. split; [done|]. by apply IH.
Qed.

Lemma intersperse_no_sep (new s : string) :
  no_sep new → no_sep s → no_sep (Py.intersperse new s).
Proof.
  intros Hnew. induction s as [|c s IH]; intros Hs; [done|].
  apply no_sep_cons in Hs as [Hc Hs]. cbn [Py.intersperse].
  apply no_sep_app. split; [done|]. apply no_sep_cons. split; [done|]. by apply IH.
Qed.

Lemma replace_no_sep (s old new : string) :
  no_sep s → no_sep new → no_sep (Py.replace s old new).
Proof.
  intros Hs Hnew. unfold Py.replace. destruct old.
  - by apply intersperse_no_sep.
  - by apply replace_scan_no_sep.
Qed.

(** Joining a name without separators keeps the folder as a prefix. *)
Lemma joinpath_str_within (p : Path) (s : string) : no_sep s → within p (p //s s).
Proof.
  intros Hs. unfold Path.joinpath_str, Path.joinpath, Path.of_str.
  rewrite root_of_no_sep, split_sep_single by done. cbn [app].
  destruct (decide (Is_true (Path.kept s))).
  - rewrite filter_cons_True by done. rewrite filter_nil.
    unfold Path.is_absolute. rewrite no_sep_not_root by done. by exists [s].
  - rewrite filter_cons_False by done. rewrite filter_nil. cbn.
    exists []. by rewrite app_nil_r.
Qed.

(** When the planner flattens, an output path is the destination folder
    followed by one name: it is inside the destination folder as written. *)
Lemma flat_output_within (args : Args) (target_path destination_folder : Path)
    (total index : nat) (f : string) (out : Path) :
  valid_path target_path → preserve_dirs args = false →
  output_file_for args target_path destination_folder
    (file_extension_of (format args)) total index f = Ok out →
  within destination_folder out.
Proof.
  intros Hv Hflat. unfold output_file_for. rewrite Hflat.
  destruct (keep_names args).
  - destruct (Path_ops.relative_to _ _) as [rel|] eqn:Hrel; [|done].
    intros [= <-]. apply joinpath_str_within, replace_no_sep.
    + eapply name_plain, relative_to_parts_plain; [done|]. apply of_str_parts_plain.
    + by destruct (file_extension_cases (format args)) as [-> | ->].
  - intros [= <-]. apply joinpath_str_within.
    by apply sequential_name_plain, name_no_sep.
Qed.

(** The branch that preserves directories replaces the final suffix only:
    [with_suffix] gives the name the specification describes. *)
Lemma with_suffix_replaces_extension (p : Path) (f : Format) :
  Path.name p ≠ "" →
  Path_ops.with_suffix p (file_extension_of f)
  = Ok (removelast p ++ [spec_replace_extension (Path.name p) (file_extension_of f)]).
Proof.
  intros Hn. unfold Path_ops.with_suffix, spec_replace_extension.
  assert (∀ s, Py.take (Py.len s) s = s) as Htake.
  { intros s. unfold Py.len. induction s as [|c s IH]; [done|]. cbn. by rewrite IH. }
  assert (Path_ops.contains_char "/"%char (file_extension_of f) = false) as ->
    by (by destruct f; vm_compute).
  assert ((negb (bool_decide (file_extension_of f = ""))
             && negb (Py.startswith (file_extension_of f) ".")
           || bool_decide (file_extension_of f = ".")) = false) as ->
    by (by destruct f; vm_compute).
  rewrite bool_decide_eq_false_2 by done. unfold Path.suffix.
  case_bool_decide as Hs; [|done].
  rewrite Hs. change (Py.len "") with 0. by rewrite Nat.sub_0_r, Htake.
Qed.

(** ** Discovered files lie under the target folder *)

Lemma tree_induction (P : tree → Prop) :
  (∀ files dirs, Forall (λ dt, P (snd dt)) dirs → P (Dir files dirs)) → ∀ t, P t.
Proof.
  intros H. fix IH 1. intros [files dirs]. apply H.
  induction dirs as [|[d t] dirs IHd]; constructor; [apply IH|apply IHd].
Qed.

Lemma tree_plain_unfold (files : list string) (dirs : list (string * tree)) :
  tree_plain (Dir files dirs)
  ↔ Forall plain_name files
    ∧ Forall (λ dt, plain_name (fst dt) ∧ tree_plain (snd dt)) dirs.
Proof.
  cbn [tree_plain]. apply and_iff_compat_l.
  induction dirs as [|dt dirs IH]; [by split; [constructor|]|].
  rewrite Forall_cons, <-IH. tauto.
Qed.

Lemma split_sep_nonempty (s : string) : Path.split_sep s ≠ [].
Proof.
  destruct s as [|c s]; [done|]. cbn [Path.split_sep].
  destruct (bool_decide _); [done|]. by destruct (Path.split_sep s).
Qed.

Lemma split_sep_app (a b : string) :
  Path.split_sep (a +:+ "/" +:+ b) = Path.split_sep a ++ Path.split_sep b.
Proof.
  induction a as [|c a IH].
  - change ("" +:+ "/" +:+ b) with (String "/" b). cbn [Path.split_sep].
    by rewrite bool_decide_eq_true_2.
  - rewrite app_cons_s. cbn [Path.split_sep]. rewrite IH.
    destruct (bool_decide (c = "/"%char)); [done|].
    pose proof (split_sep_nonempty a). by destruct (Path.split_sep a).
Qed.

Lemma split_sep_plain_app (a b : string) :
  no_sep b →
  ∃ l x, Path.split_sep a = l ++ [x] ∧ Path.split_sep (a +:+ b) = l ++ [x +:+ b].
Proof.
  intros Hb. induction a as [|c a (l & x & Ha & Hab)].
  - exists [], "". split; [done|]. change ("" +:+ b) with b.
    by rewrite split_sep_single.
  - rewrite app_cons_s. cbn [Path.split_sep]. rewrite Ha, Hab.
    destruct (bool_decide (c = "/"%char)).
    + exists ("" :: l), x. by split.
    + destruct l as [|y l]; cbn.
      * exists [], (String c x). by split.
      * exists (String c y :: l), x. by split.
Qed.

Lemma filter_kept_snoc (l : list string) (x : string) :
  filter (λ y, Is_true (Path.kept y)) (l ++ [x])
  = filter (λ y, Is_true (Path.kept y)) l
      ++ (if Path.kept x then [x] else []).
Proof.
  rewrite filter_app. f_equal. destruct (Path.kept x) eqn:Hk.
  - rewrite filter_cons_True; [done|]. cbv beta. by rewrite Hk.
  - rewrite filter_cons_False; [done|]. cbv beta. rewrite Hk. by intros [].
Qed.

Lemma plain_kept (s : string) : plain_name s → Path.kept s = true.
Proof.
  intros (_ & H1 & H2). unfold Path.kept. by rewrite !bool_decide_eq_false_2.
Qed.

Lemma endswith_sep_snoc (a : string) :
  endswith_sep a = true → ∃ a', a = a' +:+ "/".
Proof.
  unfold endswith_sep. intros H%bool_decide_eq_true_1.
  induction a as [|c a IH]; [done|].
  destruct a as [|c' a].
  - cbn in H. injection H as ->. by exists "".
  - destruct IH as [a' Ha'].
    { cbn [Py.len String.length Nat.sub] in H |- *.
      by rewrite Nat.sub_0_r in *. }
    exists (String c a'). by rewrite app_cons_s, <-Ha'.
Qed.

Lemma endswith_sep_false (a : string) :
  endswith_sep a = false → a ≠ "" → ∃ a' c, a = a' +:+ String c "" ∧ c ≠ "/"%char.
Proof.
  unfold endswith_sep. intros H%bool_decide_eq_false_1 Hne.
  induction a as [|c a IH]; [done|].
  destruct a as [|c' a].
  - exists "", c. split; [done|]. intros ->. by apply H.
  - destruct IH as (a' & c0 & Ha' & Hc0); [|done|].
    { cbn [Py.len String.length Nat.sub] in H |- *.
      by rewrite Nat.sub_0_r in *. }
    exists (String c a'), c0. by rewrite app_cons_s, <-Ha'.
Qed.

Lemma startswith_cons (c : ascii) (s p : string) :
  Py.startswith (String c s) (String c p) = Py.startswith s p.
Proof. cbn [Py.startswith]. by rewrite bool_decide_eq_true_2. Qed.

Lemma startswith_cons_ne (c d : ascii) (s p : string) :
  d ≠ c → Py.startswith (String c s) (String d p) = false.
Proof. intros H. cbn [Py.startswith]. by rewrite bool_decide_eq_false_2. Qed.

Lemma startswith_nil (s : string) : Py.startswith s "" = true.
Proof. by destruct s. Qed.

Ltac root_cases :=
  repeat match goal with
    | |- context [Py.startswith (String ?c _) (String "/" _)] =>
        destruct (decide ("/"%char = c)) as [<-|?];
        [rewrite !startswith_cons|rewrite !startswith_cons_ne by done]
    | |- context [Py.startswith _ ""] => rewrite !startswith_nil
    | |- context [Py.startswith "" (String _ _)] =>
        change (Py.startswith "" (String ?d ?p)) with false
    end.

(** Appending to a string whose last character is not a separator leaves
    its root as it is. *)
Lemma root_of_app_after_name (a' : string) (c : ascii) (x : string) :
  c ≠ "/"%char →
  Path.root_of ((a' +:+ String c "") +:+ x) = Path.root_of (a' +:+ String c "").
Proof.
  intros Hc. unfold Path.root_of.
  destruct a' as [|c1 [|c2 [|c3 a']]]; rewrite ?app_cons_s;
    change ("" +:+ ?s) with s; rewrite ?app_cons_s;
    root_cases; try done.
  all: destruct x; root_cases; done.
Qed.

(** Appending a name to a non-empty string leaves its root as it is. *)
Lemma root_of_app_name (a b : string) :
  a ≠ "" → Py.startswith b "/" = false → Path.root_of (a +:+ b) = Path.root_of a.
Proof.
  intros Ha Hb. unfold Path.root_of.
  destruct a as [|c1 [|c2 [|c3 a]]]; [done|..]; rewrite ?app_cons_s;
    change ("" +:+ ?s) with s.
  all: destruct b as [|d b]; [by rewrite ?app_nil_r_s|].
  all: cbn [Py.startswith] in Hb; rewrite startswith_nil, andb_true_r in Hb;
    apply bool_decide_eq_false_1 in Hb.
  all: root_cases; done.
Qed.

Lemma plain_not_rooted (b : string) : plain_name b → Py.startswith b "/" = false.
Proof.
  intros (Hs & Hne & _). destruct b as [|c b]; [done|].
  apply no_sep_cons in Hs as [Hc _]. by apply startswith_cons_ne.
Qed.

(** The parts of [os.path.join(a, file)] are the parts of [a] and then
    [file]. *)
Lemma of_str_join (a file : string) :
  plain_name file → Path.of_str (os_path_join a file) = Path.of_str a ++ [file].
Proof.
  intros Hp. pose proof Hp as (Hs & Hne & Hnd).
  unfold os_path_join. rewrite plain_not_rooted by done.
  destruct (decide (a = "")) as [->|Ha].
  { rewrite bool_decide_eq_true_2 by done. cbn [orb].
    change ("" +:+ file) with file. by rewrite of_str_single. }
  rewrite bool_decide_eq_false_2 by done. cbn [orb].
  destruct (endswith_sep a) eqn:He.
  - apply endswith_sep_snoc in He as [a' ->]. unfold Path.of_str.
    rewrite root_of_app_name by (by auto using plain_not_rooted).
    rewrite app_assoc_s, split_sep_app, (split_sep_single file) by done.
    change (Path.split_sep (a' +:+ "/")) with (Path.split_sep (a' +:+ "/" +:+ "")).
    rewrite split_sep_app. change (Path.split_sep "") with [""].
    rewrite !filter_kept_snoc, plain_kept by done.
    change (Path.kept "") with false. by rewrite app_nil_r, app_assoc.
  - apply endswith_sep_false in He as (a' & c & -> & Hc); [|done].
    unfold Path.of_str.
    rewrite root_of_app_after_name by done.
    rewrite (split_sep_app (a' +:+ String c "") file).
    rewrite (split_sep_single file), filter_kept_snoc, plain_kept by done.
    by rewrite app_assoc.
Qed.

(** ** Commands *)

Lemma bind_unfold {A B} (m : M A) (k : A → M B) (w : World) :
  (m ≫= k) w = match m w with
               | (Ok a, w') => k a w'
               | (Raise e, w') => (Raise e, w')
               end.
Proof. done. Qed.

Lemma bind_lift_Ok {A B} (a : A) (k : A → M B) (w : World) :
  (lift (Ok a) ≫= k) w = k a w.
Proof. done. Qed.

Lemma bind_lift_Raise {A B} (e : string) (k : A → M B) (w : World) :
  (lift (Raise e) ≫= k) w = (Raise e, w).
Proof. done. Qed.

Lemma bind_print {B} (line : string) (k : () → M B) (w : World) :
  (print line ≫= k) w
  = k () (mkWorld (nodes w) (stdout w ++ [line]) (transformer_calls w)).
Proof. done. Qed.

Lemma bind_ret {A B} (a : A) (k : A → M B) (w : World) :
  (mret a ≫= k) w = k a w.
Proof. done. Qed.

Lemma world_eta (w : World) :
  w = mkWorld (nodes w) (stdout w ++ []) (transformer_calls w).
Proof. destruct w. simpl. by rewrite app_nil_r. Qed.

Lemma append_lines_app (l1 l2 : list string) (w : World) :
  append_lines l2 (append_lines l1 w) = append_lines (l1 ++ l2) w.
Proof. unfold append_lines. cbn. by rewrite app_assoc. Qed.

Lemma print_append (line : string) (w : World) :
  print line w = (Ok (), append_lines [line] w).
Proof. done. Qed.

Lemma bind_print_append {B} (line : string) (k : () → M B) (w : World) :
  (print line ≫= k) w = k () (append_lines [line] w).
Proof. done. Qed.

Lemma bind_Ok {A B} (m : M A) (k : A → M B) (w w1 : World) (a : A) :
  m w = (Ok a, w1) → (m ≫= k) w = k a w1.
Proof. intros H. by rewrite bind_unfold, H. Qed.

Lemma if_print (b : bool) (line : string) (w : World) :
  (if b then print line else mret ()) w
  = (Ok (), append_lines (if b then [line] else []) w).
Proof.
  destruct b; [done|]. unfold append_lines. cbn. by rewrite <-world_eta.
Qed.

Lemma read_only_ret {A} (a : A) : read_only (mret a).
Proof. intros w r w' H. by injection H as <- <-. Qed.

Lemma read_only_print (line : string) : read_only (print line).
Proof. intros w r w' H. by injection H as <- <-. Qed.

Lemma read_only_lift {A} (r : result A) : read_only (lift r).
Proof. intros w r' w' H. by injection H as <- <-. Qed.

Lemma read_only_bind {A B} (m : M A) (k : A → M B) :
  read_only m → (∀ a, read_only (k a)) → read_only (m ≫= k).
Proof.
  intros Hm Hk w r w' H. rewrite bind_unfold in H.
  destruct (m w) as [[a|e] w1] eqn:Hmw.
  - destruct (Hm _ _ _ Hmw) as [Hn Hc]. apply (Hk a) in H as [Hn' Hc'].
    split; congruence.
  - injection H as <- <-. by apply Hm in Hmw.
Qed.

Lemma read_only_if {A} (b : bool) (m1 m2 : M A) :
  read_only m1 → read_only m2 → read_only (if b then m1 else m2).
Proof. by destruct b. Qed.

Lemma returns_bind {A B} (P : B → Prop) (m : M A) (k : A → M B) :
  (∀ a, returns P (k a)) → returns P (m ≫= k).
Proof.
  intros Hk w b w' H. rewrite bind_unfold in H.
  destruct (m w) as [[a|e] w1]; [|done]. by apply (Hk a) in H.
Qed.

Lemma returns_ret {A} (P : A → Prop) (a : A) : P a → returns P (mret a).
Proof. intros Ha w r w' H. by injection H as <- <-. Qed.

Ltac read_only_steps :=
  repeat first
    [ apply read_only_bind; [|intros ?]
    | apply read_only_if
    | apply read_only_ret
    | apply read_only_print
    | apply read_only_lift ].

Lemma preserves_bind {A B X} (f : World → X) (m : M A) (k : A → M B) :
  preserves f m → (∀ a, preserves f (k a)) → preserves f (m ≫= k).
Proof.
  intros Hm Hk w r w' H. rewrite bind_unfold in H.
  destruct (m w) as [[a|e] w1] eqn:Hmw.
  - apply Hm in Hmw. apply (Hk a) in H. congruence.
  - injection H as <- <-. by apply Hm in Hmw.
Qed.

Lemma preserves_try {A X} (f : World → X) (m : M A) (h : string → M A) :
  preserves f m → (∀ e, preserves f (h e)) → preserves f (try_except m h).
Proof.
  intros Hm Hh w r w' H. unfold try_except in H.
  destruct (m w) as [[a|e] w1] eqn:Hmw.
  - injection H as <- <-. by apply Hm in Hmw.
  - apply Hm in Hmw. apply (Hh e) in H. congruence.
Qed.

Lemma preserves_ret {A X} (f : World → X) (a : A) : preserves f (mret a).
Proof. intros w r w' H. by injection H as <- <-. Qed.

Lemma preserves_lift {A X} (f : World → X) (r : result A) : preserves f (lift r).
Proof. intros w r' w' H. by injection H as <- <-. Qed.

Lemma preserves_if {A X} (f : World → X) (b : bool) (m1 m2 : M A) :
  preserves f m1 → preserves f m2 → preserves f (if b then m1 else m2).
Proof. by destruct b. Qed.

Lemma calls_print (line : string) : preserves transformer_calls (print line).
Proof. intros w r w' H. by injection H as <- <-. Qed.

Lemma calls_stat_size (p : Path) : preserves transformer_calls (stat_size p).
Proof.
  intros w r w' H. unfold stat_size in H.
  destruct (nodes w !! p); by injection H as <- <-.
Qed.

Lemma calls_exists (p : Path) : preserves transformer_calls (exists_ p).
Proof. intros w r w' H. by injection H as <- <-. Qed.

Lemma calls_read_file (p : Path) : preserves transformer_calls (read_file p).
Proof.
  intros w r w' H. unfold read_file in H.
  destruct (nodes w !! p) as [[]|]; by injection H as <- <-.
Qed.

Lemma calls_write_file (p : Path) (content : list Byte.byte) :
  preserves transformer_calls (write_file p content).
Proof.
  intros w r w' H. unfold write_file in H.
  destruct (nodes w !! p) as [[]|]; by injection H as <- <-.
Qed.

Lemma calls_mkdir_p (p : Path) : preserves transformer_calls (mkdir_p p).
Proof.
  intros w r w' H. unfold mkdir_p in H.
  destruct (existsb _ _); by injection H as <- <-.
Qed.

Lemma calls_save_image `{pil : PIL} (img : Image) (p : Path) (fmt : Format) (q : Z) :
  preserves transformer_calls (save_image img p fmt q).
Proof.
  intros w r w' H. unfold save_image in H.
  destruct (image_save img fmt q) as [encoded|e [written|]].
  - by apply calls_write_file in H.
  - assert (transformer_calls (write_file p written w).2 = transformer_calls w) as Hw.
    { destruct (write_file p written w) as [r1 w1] eqn:Hw.
      by apply calls_write_file in Hw. }
    destruct (nodes w !! p) as [[c|sz]|]; [| |destruct save_removes_created];
      by injection H as <- <-.
  - by injection H as <- <-.
Qed.

Ltac calls_steps :=
  repeat first
    [ apply preserves_bind; [|intros ?]
    | apply preserves_try; [|intros ?]
    | apply preserves_if
    | apply preserves_ret
    | apply preserves_lift
    | apply calls_print
    | apply calls_stat_size
    | apply calls_exists
    | apply calls_read_file
    | apply calls_write_file
    | apply calls_save_image
    | apply calls_mkdir_p
    | progress case_match ].

Lemma try_except_bind {A B} (m : M A) (k : A → M B) (h : string → M B) (w : World) :
  try_except (m ≫= k) h w
  = match m w with
    | (Ok a, w1) => try_except (k a) h w1
    | (Raise e, w1) => h e w1
    end.
Proof. unfold try_except. rewrite bind_unfold. by destruct (m w) as [[a|e] w1]. Qed.

Lemma preserves_at {A X} (f : World → X) (m : M A) (w : World) :
  preserves f m → f (m w).2 = f w.
Proof. intros Hp. destruct (m w) as [r w'] eqn:H. exact (Hp _ _ _ H). Qed.

(** ** Planning *)

Lemma get_image_files_Ok (t : tree) (p : Path) (inc : option (gset string)) (w : World) :
  ∃ files w', get_image_files t p inc w = (Ok files, w')
              ∧ nodes w' = nodes w
              ∧ transformer_calls w' = transformer_calls w
              ∧ ∀ w0, (get_image_files t p inc w0).1 = Ok files.
Proof.
  unfold get_image_files. destruct (truthy inc).
  - destruct (bool_decide _); [|by repeat eexists].
    eexists _, _. rewrite bind_print. by repeat split.
  - by repeat eexists.
Qed.

Lemma prepare_unfold (resolve : Path → result Path) (t : tree) (args : Args)
    (target_path destination_folder : Path) (quality : Z)
    (inc : option (gset string)) (w w1 : World) (files : list string) :
  get_image_files t target_path inc (scanning w) = (Ok files, w1) →
  prepare_processing_tasks resolve t args target_path destination_folder quality inc w
  = if bool_decide (files = []) then
      (Ok [], mkWorld (nodes w1)
                (stdout w1 ++ ["No image files found in the target folder."])
                (transformer_calls w1))
    else if dry_run args then
      preview_processing args (sort_files files) target_path destination_folder
        quality (found (length (sort_files files)) w1)
    else
      plan_loop resolve args target_path destination_folder quality
        (file_extension_of (format args)) (length (sort_files files)) 1
        (sort_files files) [] (found (length (sort_files files)) w1).
Proof.
  intros Hg. unfold prepare_processing_tasks.
  rewrite bind_print. fold (scanning w). rewrite bind_unfold, Hg.
  destruct (bool_decide (files = [])); [done|].
  rewrite bind_print. by destruct (dry_run args).
Qed.

Lemma get_image_files_nonempty (t : tree) (p : Path) (inc : option (gset string))
    (w w' : World) (files : list string) :
  get_image_files t p inc w = (Ok files, w') → files ≠ [] → w' = w.
Proof.
  unfold get_image_files. destruct (truthy inc).
  - case_bool_decide.
    + rewrite bind_print. by intros [= <- <-].
    + by intros [= <- <-].
  - by intros [= <- <-].
Qed.

(** ** The planning loop *)

Section PlanLoop.

Variable resolve : Path → result Path.
Variables (args : Args) (target_path destination_folder : Path) (quality : Z).
Variables (file_extension : string) (total : nat).

Abbreviation loop := (plan_loop resolve args target_path destination_folder quality
                    file_extension total).
Abbreviation cand := (candidates args target_path destination_folder quality
                    file_extension total).
Abbreviation kept := (λ c, Is_true (kept_by_planner resolve args destination_folder c)).

Abbreviation diags := (diagnostics resolve args destination_folder).

(** The security check of a candidate ends: it passes, or it fails with
    the [ValueError] that the planner catches. *)
Abbreviation checked := (λ c : Task,
  preserve_dirs args = true →
  ∀ e, resolved_relative_to resolve (output_path c) destination_folder = Raise e →
       e = "ValueError").

Lemma relative_to_raises (p base : Path) (e : string) :
  Path_ops.relative_to p base = Raise e → e = "ValueError".
Proof.
  unfold Path_ops.relative_to. destruct base as [|b base].
  - destruct (Path.is_absolute p); [by intros [= <-]|done].
  - destruct (Path.strip_prefix _ _); [done|by intros [= <-]].
Qed.

Lemma resolves_checked (c : Task) : resolves resolve → checked c.
Proof.
  intros Hres _ e. unfold resolved_relative_to.
  destruct (Hres (output_path c)) as [ro ->].
  destruct (Hres destination_folder) as [rd ->].
  apply relative_to_raises.
Qed.

(** The loop keeps the candidates that pass its test, in order, and prints
    one diagnostic for each of the others. *)
Lemma plan_loop_checked (files : list string) :
  ∀ index acc w cs,
    cand index files cs → Forall checked cs →
    loop index files acc w
    = (Ok (acc ++ filter kept cs),
       mkWorld (nodes w) (stdout w ++ diags cs) (transformer_calls w)).
Proof.
  induction files as [|f files IH]; intros index acc w cs Hc Hch;
    inversion Hc as [|? ? ? output_file cs' Ho Hc']; subst.
  - cbn [plan_loop]. unfold diagnostics. cbn. rewrite app_nil_r.
    by rewrite <-world_eta.
  - apply Forall_cons in Hch as [Hch1 Hch].
    cbn [plan_loop]. rewrite Ho, bind_lift_Ok.
    set (c := mkTask f output_file _ _ _ _) in *.
    assert (kept_by_planner resolve args destination_folder c
            = if preserve_dirs args
              then contained resolve destination_folder output_file
              else true) as Hk by done.
    unfold contained in Hk. unfold diagnostics.
    destruct (preserve_dirs args) eqn:Hp.
    + destruct (resolved_relative_to _ _ _) as [r|e] eqn:Hr.
      * rewrite (IH _ _ _ _ Hc' Hch); cbn [nodes stdout transformer_calls].
        rewrite filter_cons_True by (by rewrite Hk).
        rewrite filter_cons_False by (rewrite Hk; intros H; by apply H).
        by rewrite <-app_assoc.
      * assert (e = "ValueError") as -> by (by apply Hch1).
        rewrite bool_decide_eq_true_2 by done. rewrite bind_print.
        rewrite (IH _ _ _ _ Hc' Hch); cbn [nodes stdout transformer_calls].
        rewrite filter_cons_False by (rewrite Hk; by intros []).
        rewrite filter_cons_True by (rewrite Hk; by intros []).
        cbn [map]. by rewrite <-app_assoc.
    + rewrite (IH _ _ _ _ Hc' Hch); cbn [nodes stdout transformer_calls].
      rewrite filter_cons_True by (by rewrite Hk).
      rewrite filter_cons_False by (rewrite Hk; intros H; by apply H).
      by rewrite <-app_assoc.
Qed.

(** The same when [resolve] returns for every path. *)
Lemma plan_loop_candidates (files : list string) :
  ∀ index acc w cs,
    cand index files cs →
    (preserve_dirs args = true → resolves resolve) →
    loop index files acc w
    = (Ok (acc ++ filter kept cs),
       mkWorld (nodes w) (stdout w ++ diags cs) (transformer_calls w)).
Proof.
  intros index acc w cs Hc Hres. apply plan_loop_checked; [done|].
  apply Forall_forall. intros c _ Hp. exact (resolves_checked c (Hres Hp) Hp).
Qed.

(** When the loop returns, it has gone through candidates for all files,
    kept those that pass its test and printed a diagnostic for each of
    the others. *)
Lemma plan_loop_Ok (files : list string) :
  ∀ index acc w tasks w',
    loop index files acc w = (Ok tasks, w') →
    ∃ cs, cand index files cs
          ∧ loop index files acc w
            = (Ok (acc ++ filter kept cs),
               mkWorld (nodes w) (stdout w ++ diags cs) (transformer_calls w)).
Proof.
  assert (∀ files index acc w tasks w',
            loop index files acc w = (Ok tasks, w') →
            ∃ cs, cand index files cs ∧ Forall checked cs) as Hcs.
  { clear files. induction files as [|f files IH]; intros index acc w tasks w' H.
    - eexists. split; constructor.
    - cbn [plan_loop] in H. rewrite bind_unfold in H. unfold lift in H.
      destruct (output_file_for _ _ _ _ _ _ _) as [out|e] eqn:Ho; [|done].
      destruct (preserve_dirs args) eqn:Hp.
      + destruct (resolved_relative_to _ _ _) as [r|e] eqn:Hr.
        * apply IH in H as (cs & Hcs & Hch). eexists.
          split; [by econstructor|]. constructor; [|done].
          cbn [output_path]. intros _ e. by rewrite Hr.
        * case_bool_decide as He; [|done]. rewrite bind_print in H.
          apply IH in H as (cs & Hcs & Hch). eexists.
          split; [by econstructor|]. constructor; [|done].
          cbn [output_path]. intros _ e'. rewrite Hr. by intros [= <-].
      + apply IH in H as (cs & Hcs & Hch). eexists.
        split; [by econstructor|]. constructor; [|done]. by intros [=]. }
  intros index acc w tasks w' H.
  destruct (Hcs _ _ _ _ _ _ H) as (cs & Hc & Hch).
  exists cs. split; [done|]. by apply plan_loop_checked.
Qed.

(** An exception of [resolve] other than [ValueError] on the output path
    of the first file ends the loop. *)
Lemma plan_loop_aborts (f : string) (files : list string) (index : nat)
    (acc : list Task) (w : World) (output_file : Path) (e : string) :
  preserve_dirs args = true →
  output_file_for args target_path destination_folder file_extension total index f
  = Ok output_file →
  resolve output_file = Raise e → e ≠ "ValueError" →
  loop index (f :: files) acc w = (Raise e, w).
Proof.
  intros Hp Ho Hr He. cbn [plan_loop]. rewrite Ho, bind_lift_Ok, Hp.
  unfold resolved_relative_to. rewrite Hr.
  by rewrite bool_decide_eq_false_2.
Qed.

Lemma candidates_length index files cs : cand index files cs → length cs = length files.
Proof. induction 1; simpl; congruence. Qed.

Lemma candidates_inputs index files cs : cand index files cs → map input_path cs = files.
Proof. induction 1; simpl; congruence. Qed.

Lemma candidates_lookup index files cs k c :
  cand index files cs → cs !! k = Some c →
  ∃ f, files !! k = Some f
       ∧ output_file_for args target_path destination_folder file_extension total
           (index + k) f = Ok (output_path c)
       ∧ c = mkTask f (output_path c) (max_size args) quality (format args)
               (skip_existing args).
Proof.
  intros H. revert k. induction H as [|index f rest out cs Ho Hc IH]; intros k Hk.
  - done.
  - destruct k as [|k]; simplify_eq/=.
    + exists f. by rewrite Nat.add_0_r.
    + destruct (IH k Hk) as (f' & ? & ? & ?). exists f'.
      by rewrite <-Nat.add_succ_comm.
Qed.

End PlanLoop.

Section PreviewLoop.

Variables (args : Args) (target_path destination_folder : Path) (quality : Z).
Variables (file_extension : string) (total : nat).

Abbreviation pcand := (candidates args target_path destination_folder quality
                         file_extension total).

Lemma preview_loop_candidates (files : list string) :
  ∀ index w cs,
    pcand index files cs →
    preview_loop args target_path destination_folder file_extension total index files w
    = (Ok (), append_lines (preview_lines cs) w).
Proof.
  induction files as [|f files IH]; intros index w cs Hc;
    inversion Hc as [|? ? ? output_file cs' Ho Hc']; subst.
  - unfold append_lines, preview_lines. cbn. by rewrite <-world_eta.
  - cbn [preview_loop]. rewrite Ho, bind_lift_Ok, bind_unfold, print_append.
    rewrite (IH _ _ _ Hc'). by rewrite append_lines_app.
Qed.

Lemma preview_loop_Ok (files : list string) :
  ∀ index w w',
    preview_loop args target_path destination_folder file_extension total index files w
    = (Ok (), w') →
    ∃ cs, pcand index files cs.
Proof.
  induction files as [|f files IH]; intros index w w' H.
  - eexists. constructor.
  - cbn [preview_loop] in H. rewrite bind_unfold in H. unfold lift in H.
    destruct (output_file_for _ _ _ _ _ _ _) as [out|e] eqn:Ho; [|done].
    rewrite bind_unfold, print_append in H.
    apply IH in H as [cs Hcs]. eexists. by econstructor.
Qed.

End PreviewLoop.

Lemma preview_loop_read_only args target_path destination_folder ext total files :
  ∀ index,
    read_only (preview_loop args target_path destination_folder ext total index files).
Proof.
  induction files as [|f files IH]; intros index; cbn [preview_loop].
  - apply read_only_ret.
  - read_only_steps. apply IH.
Qed.

Lemma preview_processing_read_only args files target_path destination_folder quality :
  read_only (preview_processing args files target_path destination_folder quality).
Proof.
  unfold preview_processing. read_only_steps. apply preview_loop_read_only.
Qed.

Lemma preview_processing_returns args files target_path destination_folder quality :
  returns (λ tasks, tasks = [])
    (preview_processing args files target_path destination_folder quality).
Proof.
  unfold preview_processing. repeat (apply returns_bind; intros ?).
  by apply returns_ret.
Qed.

Lemma preview_processing_output (args : Args) (files : list string)
    (target_path destination_folder : Path) (quality : Z) (w : World) (cs : list Task) :
  candidates args target_path destination_folder quality
    (file_extension_of (format args)) (length files) 1 (take 5 files) cs →
  preview_processing args files target_path destination_folder quality w
  = (Ok [], append_lines (preview_header args (length files) quality
                            ++ preview_lines cs
                            ++ preview_remainder (length files)
                            ++ preview_footer) w).
Proof.
  intros Hc. unfold preview_processing.
  rewrite !bind_print_append.
  rewrite (bind_Ok _ _ _ _ _ (if_print _ _ _)).
  rewrite !bind_print_append.
  rewrite (bind_Ok _ _ _ _ _ (preview_loop_candidates _ _ _ _ _ _ _ _ _ _ Hc)).
  rewrite (bind_Ok _ _ _ _ _ (if_print _ _ _)).
  rewrite !bind_print_append, !append_lines_app.
  cbn [mret M_ret ret]. do 2 f_equal.
  unfold preview_header, preview_footer, preview_remainder.
  rewrite <-!app_assoc. cbn [app]. done.
Qed.

Section Sequential.

Variables (args : Args) (target_path destination_folder : Path).
Variable total : nat.

Hypothesis target_valid : valid_path target_path.
Hypothesis sequential : keep_names args = false.

Abbreviation ext := (file_extension_of (format args)).

(** In sequential mode an output path ends in the sequential name. *)
Lemma sequential_output index f out :
  output_file_for args target_path destination_folder ext total index f = Ok out →
  last out = Some (generate_sequential_name (Path.name target_path) index total ext).
Proof.
  pose proof (sequential_name_plain (Path.name target_path) index total (format args)
                (name_no_sep _ target_valid)) as (H1 & H2 & H3).
  unfold output_file_for. rewrite sequential.
  destruct (preserve_dirs args).
  - destruct (Path_ops.relative_to _ _); [|done].
    intros [= <-]. rewrite joinpath_str_single by done. apply last_snoc.
  - intros [= <-]. rewrite joinpath_str_single by done. apply last_snoc.
Qed.

Lemma sequential_candidates_NoDup quality index files cs :
  candidates args target_path destination_folder quality ext total index files cs →
  NoDup (map output_path cs).
Proof.
  intros Hc. apply NoDup_alt. intros i j out Hi Hj.
  rewrite list_lookup_fmap in Hi, Hj.
  destruct (cs !! i) as [ci|] eqn:Hci; [|done].
  destruct (cs !! j) as [cj|] eqn:Hcj; [|done].
  cbn in Hi, Hj. injection Hi as Hi. injection Hj as Hj.
  destruct (candidates_lookup _ _ _ _ _ _ _ _ _ _ _ Hc Hci) as (fi & _ & Hoi & _).
  destruct (candidates_lookup _ _ _ _ _ _ _ _ _ _ _ Hc Hcj) as (fj & _ & Hoj & _).
  apply sequential_output in Hoi, Hoj. rewrite Hi in Hoi. rewrite Hj in Hoj.
  rewrite Hoi in Hoj. injection Hoj as Hn.
  apply generate_sequential_name_inj in Hn. lia.
Qed.

End Sequential.

Section Numbering.

Variables (args : Args) (target_path destination_folder : Path) (quality : Z).
Variable total : nat.

Hypothesis flatten : preserve_dirs args = false.
Hypothesis sequential : keep_names args = false.

Lemma flat_sequential_output index f :
  output_file_for args target_path destination_folder (file_extension_of (format args))
    total index f
  = Ok (destination_folder
          //s generate_sequential_name (Path.name target_path) index total
                (file_extension_of (format args))).
Proof. unfold output_file_for. by rewrite flatten, sequential. Qed.

Lemma flat_sequential_candidates (files : list string) :
  ∀ index, ∃ cs,
    candidates args target_path destination_folder quality
      (file_extension_of (format args)) total index files cs.
Proof.
  induction files as [|f files IH]; intros index.
  - eexists. constructor.
  - destruct (IH (S index)) as [cs Hcs]. eexists.
    econstructor; [apply flat_sequential_output|done].
Qed.

End Numbering.


Lemma walk_roots (t : tree) :
  tree_plain t →
  ∀ top, Forall (λ tr : string * list string * list string,
                   (∃ ds, Path.of_str tr.1.1 = Path.of_str top ++ ds
                          ∧ Forall plain_name ds)
                   ∧ Forall plain_name tr.2)
           (walk top t).
Proof.
  induction t as [files dirs IH] using tree_induction.
  intros [Hfiles Hdirs]%tree_plain_unfold top. cbn [walk]. constructor.
  - split; [|done]. exists []. by rewrite app_nil_r.
  - apply Forall_forall. intros tr Hin. apply list_elem_of_In, in_flat_map in Hin.
    destruct Hin as ([d t'] & Hd%list_elem_of_In & Htr%list_elem_of_In).
    rewrite Forall_forall in IH, Hdirs.
    destruct (Hdirs _ Hd) as [Hpd Hpt]. cbn [fst snd] in *.
    specialize (IH _ Hd Hpt (os_path_join top d)).
    rewrite Forall_forall in IH. destruct (IH _ Htr) as [(ds & Hds & Hpl) Hf].
    split; [|done]. exists (d :: ds). split; [|by constructor].
    rewrite Hds, of_str_join by done. by rewrite <-app_assoc.
Qed.

Lemma collect_below (exts : gset string) (t : tree) (target_path : Path) (f : string) :
  tree_plain t → canonical_path target_path →
  f ∈ collect exts (walk (Path.fspath target_path) t) → below target_path f.
Proof.
  intros Ht Hc Hin. unfold collect in Hin.
  apply list_elem_of_In, in_flat_map in Hin.
  destruct Hin as ([[root dirs] files] & Htr%list_elem_of_In & Hf%list_elem_of_In).
  apply list_elem_of_fmap in Hf as (file & -> & [_ Hfile]%list_elem_of_filter).
  pose proof (walk_roots t Ht (Path.fspath target_path)) as Hall.
  rewrite Forall_forall in Hall. destruct (Hall _ Htr) as [(ds & Hds & Hpl) Hfiles].
  cbn [fst snd] in *. rewrite Forall_forall in Hfiles.
  exists (ds ++ [file]). split; [|split].
  - rewrite of_str_join, Hds, Hc by auto. by rewrite <-app_assoc.
  - by destruct ds.
  - apply Forall_app. split; [done|]. constructor; auto.
Qed.

Lemma get_image_files_below (t : tree) (target_path : Path)
    (inc : option (gset string)) (w w' : World) (files : list string) :
  tree_plain t → canonical_path target_path →
  get_image_files t target_path inc w = (Ok files, w') →
  Forall (below target_path) files.
Proof.
  intros Ht Hc. unfold get_image_files. destruct (truthy inc).
  - case_bool_decide.
    + rewrite bind_print. intros [= <- _]. constructor.
    + intros [= <- _]. apply Forall_forall. intros f. by apply collect_below.
  - intros [= <- _]. apply Forall_forall. intros f. by apply collect_below.
Qed.

Lemma strip_prefix_app (base rel : Path) : Path.strip_prefix base (base ++ rel) = Some rel.
Proof.
  induction base as [|b base IH]; [done|].
  cbn. by rewrite bool_decide_eq_true_2.
Qed.

Lemma plain_not_root (x : string) : plain_name x → Path.is_root x = false.
Proof. intros [H _]. by apply no_sep_not_root. Qed.

Lemma relative_to_below (target_path : Path) (f : string) :
  below target_path f →
  ∃ rel, Path_ops.relative_to (Path.of_str f) target_path = Ok rel
         ∧ Path.name rel ≠ "" ∧ Path.name rel ≠ ".".
Proof.
  intros (rel & Hf & Hne & Hpl). exists rel. rewrite Hf.
  assert (Path.name rel ≠ "" ∧ Path.name rel ≠ ".") as [??].
  { destruct (last rel) as [x|] eqn:Hl.
    - unfold Path.name. rewrite Hl. apply last_Some in Hl as [l' ->].
      apply Forall_app in Hpl as [_ [Hx _]%Forall_cons].
      rewrite plain_not_root by done. by destruct Hx as (_ & ? & ?).
    - apply last_None in Hl. done. }
  split; [|done]. unfold Path_ops.relative_to. destruct target_path as [|b base].
  - cbn [app]. destruct rel as [|x rel]; [done|].
    apply Forall_cons in Hpl as [Hx _]. unfold Path.is_absolute.
    by rewrite plain_not_root.
  - by rewrite strip_prefix_app.
Qed.

(** For a file below the target folder the naming block returns a path. *)
Lemma output_file_for_below (args : Args) (target_path destination_folder : Path)
    (total index : nat) (f : string) :
  below target_path f →
  ∃ out, output_file_for args target_path destination_folder
           (file_extension_of (format args)) total index f = Ok out.
Proof.
  intros (rel & Hrel & Hn & _)%relative_to_below. unfold output_file_for.
  rewrite Hrel. destruct (preserve_dirs args), (keep_names args); try by eexists.
  rewrite with_suffix_replaces_extension by done. by eexists.
Qed.

Lemma candidates_below (args : Args) (target_path destination_folder : Path)
    (quality : Z) (total : nat) (files : list string) :
  Forall (below target_path) files →
  ∀ index, ∃ cs,
    candidates args target_path destination_folder quality
      (file_extension_of (format args)) total index files cs.
Proof.
  induction 1 as [|f files Hf _ IH]; intros index.
  - eexists. constructor.
  - destruct (output_file_for_below args target_path destination_folder total index f Hf)
      as [out Hout].
    destruct (IH (S index)) as [cs Hcs]. eexists. by econstructor.
Qed.

(** Planning returns: on a tree of plain names, below a target folder in
    canonical form, [prepare_processing_tasks] raises no exception. *)
Lemma planning_returns (resolve : Path → result Path) (t : tree) (args : Args)
    (target_path destination_folder : Path) (quality : Z)
    (inc : option (gset string)) (w : World) :
  tree_plain t → canonical_path target_path →
  (preserve_dirs args = true → dry_run args = false → resolves resolve) →
  ∃ tasks w',
    prepare_processing_tasks resolve t args target_path destination_folder quality
      inc w = (Ok tasks, w').
Proof.
  intros Ht Hc Hres.
  destruct (get_image_files_Ok t target_path inc (scanning w))
    as (files & w1 & Hg & _).
  rewrite (prepare_unfold _ _ _ _ _ _ _ _ _ _ Hg).
  case_bool_decide; [by eexists _, _|].
  pose proof (get_image_files_below _ _ _ _ _ _ Ht Hc Hg) as Hbelow.
  assert (Forall (below target_path) (sort_files files)) as Hsorted.
  { by rewrite sort_files_perm. }
  destruct (dry_run args).
  - destruct (candidates_below args target_path destination_folder quality
                (length (sort_files files)) (take 5 (sort_files files))
                (Forall_take _ _ _ Hsorted) 1) as [cs Hcs].
    rewrite (preview_processing_output _ _ _ _ _ _ _ Hcs). by eexists _, _.
  - destruct (candidates_below args target_path destination_folder quality
                (length (sort_files files)) (sort_files files) Hsorted 1) as [cs Hcs].
    rewrite (plan_loop_candidates _ _ _ _ _ _ _ _ _ _ _ _ Hcs) by auto.
    by eexists _, _.
Qed.

Lemma canonical_valid (p : Path) : canonical_path p → valid_path p.
Proof. intros H. exists (Path.fspath p). by rewrite H. Qed.

(** ** Properties of the plan *)

(** C1, as stated, fails: with flattening and original names, the files
    [a/x.jpg] and [b/x.jpg] are both planned onto [dest/photos/x.jpg];
    neither task is dropped and only the two progress lines are printed. *)
Lemma flatten_keep_names_collides :
  prepare_processing_tasks Ok same_names flatten_keep_names ["photos"]
    ["dest"; "photos"] 87 None empty_world
  = (Ok [mkTask "photos/a/x.jpg" ["dest"; "photos"; "x.jpg"] 2400 87 jpg false;
         mkTask "photos/b/x.jpg" ["dest"; "photos"; "x.jpg"] 2400 87 jpg false],
     mkWorld ∅ ["Scanning for images..."; "Found 2 images to process"] [])
  ∧ ¬ NoDup [["dest"; "photos"; "x.jpg"]; ["dest"; "photos"; "x.jpg"]].
Proof.
  split; [by vm_compute|].
  intros H. apply NoDup_cons in H as [H _]. apply H. by left.
Qed.

(** The same when directories are preserved: [sub/y.jpg] and [sub/y.png]
    are both planned onto [dest/photos/sub/y.jpg], and nothing is printed
    about it. *)
Example preserve_keep_names_collides :
  prepare_processing_tasks Ok same_stem preserve_keep_names ["photos"]
    ["dest"; "photos"] 87 None empty_world
  = (Ok [mkTask "photos/sub/y.jpg" ["dest"; "photos"; "sub"; "y.jpg"] 2400 87 jpg false;
         mkTask "photos/sub/y.png" ["dest"; "photos"; "sub"; "y.jpg"] 2400 87 jpg false],
     mkWorld ∅ ["Scanning for images..."; "Found 2 images to process"] []).
Proof. by vm_compute. Qed.

(** C1, amended. On a tree of plain names below a target folder in
    canonical form the planner returns its tasks (when it preserves
    directories, provided [resolve] returns: a loop of symbolic links
    makes it raise an exception that the planner does not catch), and
    with sequential naming no two of them share an output path.  The
    planner has no collision test.  When it flattens, every discovered
    file gets a task, in sorted order, and nothing is printed after the
    count of files.  When it preserves directories, the tasks are the
    candidates that pass the containment test, which looks at the output
    path only: of two candidates with the same output path both are kept
    or both are dropped, and nothing is printed but the diagnostics of
    that test. *)
Theorem sequential_outputs_distinct (resolve : Path → result Path) (t : tree)
    (args : Args) (target_path destination_folder : Path) (quality : Z)
    (inc : option (gset string)) (w : World) :
  tree_plain t → canonical_path target_path →
  (preserve_dirs args = true → dry_run args = false → resolves resolve) →
  ∃ tasks w',
    prepare_processing_tasks resolve t args target_path destination_folder quality
      inc w = (Ok tasks, w')
    ∧ (keep_names args = false → NoDup (map output_path tasks))
    ∧ (dry_run args = false →
       ∀ files w1,
         get_image_files t target_path inc (scanning w) = (Ok files, w1) →
         files ≠ [] →
         ∃ cs,
           candidates args target_path destination_folder quality
             (file_extension_of (format args)) (length files) 1 (sort_files files) cs
           ∧ map input_path cs = sort_files files
           ∧ (preserve_dirs args = false →
              tasks = cs ∧ w' = found (length files) w1)
           ∧ (preserve_dirs args = true →
              tasks = filter (λ c, Is_true (contained resolve destination_folder
                                              (output_path c))) cs
              ∧ (∀ c1 c2, c1 ∈ cs → c2 ∈ cs → output_path c1 = output_path c2 →
                   (c1 ∈ tasks ↔ c2 ∈ tasks))
              ∧ stdout w'
                = stdout (found (length files) w1)
                    ++ map (λ c, security_error (output_path c))
                         (filter (λ c, ¬ Is_true (contained resolve destination_folder
                                                    (output_path c))) cs))).
Proof.
  intros Ht Hc Hres. pose proof (canonical_valid _ Hc) as Hv.
  destruct (planning_returns resolve t args target_path destination_folder quality
              inc w Ht Hc Hres) as (tasks & w' & H).
  exists tasks, w'. split; [exact H|].
  destruct (get_image_files_Ok t target_path inc (scanning w))
    as (files & w1 & Hg & _).
  rewrite (prepare_unfold _ _ _ _ _ _ _ _ _ _ Hg) in H.
  split.
  - intros Hseq. case_bool_decide.
    { injection H as <- _. constructor. }
    destruct (dry_run args).
    { apply preview_processing_returns in H as ->. constructor. }
    destruct (plan_loop_Ok _ _ _ _ _ _ _ _ _ _ _ _ _ H) as (cs & Hcs & Heq).
    rewrite Heq in H. injection H as <- _. cbn [app].
    eapply sublist_NoDup; [by eapply sequential_candidates_NoDup|].
    apply fmap_sublist, sublist_filter.
  - intros Hdry files' w1' Hg' Hne.
    rewrite Hg in Hg'. injection Hg' as <- <-.
    rewrite bool_decide_eq_false_2, Hdry in H by done.
    destruct (plan_loop_Ok _ _ _ _ _ _ _ _ _ _ _ _ _ H) as (cs & Hcs & Heq).
    rewrite Heq in H. injection H as <- <-. cbn [app].
    rewrite sort_files_length in *.
    exists cs. split; [done|]. split; [by eapply candidates_inputs|]. split.
    + intros Hflat.
      assert (∀ c, Is_true (kept_by_planner resolve args destination_folder c)) as Hk.
      { intros c. unfold kept_by_planner. by rewrite Hflat. }
      rewrite filter_all by done. split; [done|].
      unfold diagnostics. rewrite filter_none by (intros c Hc'; by apply Hc').
      cbn [map]. rewrite app_nil_r. by destruct w1.
    + intros Hp.
      assert (∀ c, kept_by_planner resolve args destination_folder c
                   = contained resolve destination_folder (output_path c)) as Hk.
      { intros c. unfold kept_by_planner. by rewrite Hp. }
      assert (filter (λ c, Is_true (kept_by_planner resolve args destination_folder c)) cs
              = filter (λ c, Is_true (contained resolve destination_folder
                                        (output_path c))) cs) as ->.
      { apply list_filter_iff. intros c. by rewrite Hk. }
      split; [done|]. split.
      * intros c1 c2 H1 H2 Ho. rewrite !list_elem_of_filter, Ho. tauto.
      * cbn [stdout]. unfold diagnostics. do 2 f_equal.
        apply list_filter_iff. intros c. by rewrite Hk.
Qed.

(** The names of a small tree are plain. *)
Ltac plain_tree :=
  repeat first [ split | constructor ]; try done; by vm_compute.

Lemma sequential_outputs_distinct_witness :
  ∃ tasks w',
    prepare_processing_tasks Ok same_names default_args ["photos"]
      ["dest"; "photos"] 87 None empty_world = (Ok tasks, w')
    ∧ NoDup (map output_path tasks).
Proof.
  destruct (sequential_outputs_distinct Ok same_names default_args ["photos"]
              ["dest"; "photos"] 87 None empty_world)
    as (tasks & w' & H & Hseq & _).
  - plain_tree.
  - vm_compute. reflexivity.
  - discriminate.
  - exists tasks, w'. split; [exact H|exact (Hseq eq_refl)].
Defined.

(** C2, as stated, fails: when the planner flattens it makes no
    containment test.  Here [photos-0001.jpg] in the destination is a
    symbolic link to [/etc/passwd]; the task whose output path is that link
    is planned, and nothing is printed about it. *)
Lemma flatten_output_escapes :
  prepare_processing_tasks (λ p, Ok (realpath link_at_output p)) one_file default_args
    ["/"; "in"; "photos"] ["/"; "out"; "photos"] 87 None empty_world
  = (Ok [mkTask "/in/photos/x.jpg" ["/"; "out"; "photos"; "photos-0001.jpg"]
           2400 87 jpg false],
     mkWorld ∅ ["Scanning for images..."; "Found 1 images to process"] [])
  ∧ realpath link_at_output ["/"; "out"; "photos"; "photos-0001.jpg"]
    = ["/"; "etc"; "passwd"]
  ∧ realpath link_at_output ["/"; "out"; "photos"] = ["/"; "out"; "photos"]
  ∧ ¬ within ["/"; "out"; "photos"] ["/"; "etc"; "passwd"].
Proof.
  repeat split; try by vm_compute.
  intros [k Hk]. by simplify_eq/=.
Qed.

(** C2, amended. On a tree of plain names below a target folder in
    canonical form, when [resolve] returns for every path, the planner
    returns its tasks.  When it preserves directories, they are the
    candidates whose resolved output path lies within the resolved
    destination folder; a candidate whose resolved output path escapes is
    not among them and its diagnostic is printed, one line per dropped
    candidate after the count of files, and the remaining candidates are
    still planned.  When the planner flattens, it makes no such test and
    does not call [resolve]: every candidate is returned and nothing more
    is printed; each output path is then the destination folder followed
    by one file name, inside the destination folder as written, whatever
    the links. *)
Theorem containment_when_preserving (resolve : Path → result Path) (t : tree)
    (args : Args) (target_path destination_folder : Path) (quality : Z)
    (inc : option (gset string)) (w w1 : World) (files : list string) :
  tree_plain t → canonical_path target_path →
  dry_run args = false →
  get_image_files t target_path inc (scanning w) = (Ok files, w1) →
  files ≠ [] →
  (preserve_dirs args = true → resolves resolve) →
  ∃ tasks w' cs,
    prepare_processing_tasks resolve t args target_path destination_folder quality
      inc w = (Ok tasks, w')
    ∧ candidates args target_path destination_folder quality
        (file_extension_of (format args)) (length files) 1 (sort_files files) cs
    ∧ (preserve_dirs args = true →
       tasks = filter (λ c, Is_true (contained resolve destination_folder (output_path c))) cs
       ∧ (∀ c, c ∈ tasks →
            resolved_within resolve destination_folder (output_path c))
       ∧ (∀ c, c ∈ cs →
            ¬ resolved_within resolve destination_folder (output_path c) →
            (c ∉ tasks) ∧ (security_error (output_path c) ∈ stdout w'))
       ∧ stdout w'
         = stdout (found (length files) w1)
             ++ map (λ c, security_error (output_path c))
                  (filter (λ c, ¬ Is_true (contained resolve destination_folder
                                             (output_path c))) cs))
    ∧ (preserve_dirs args = false →
       tasks = cs ∧ w' = found (length files) w1
       ∧ ∀ c, c ∈ tasks → within destination_folder (output_path c)).
Proof.
  intros Ht Hc Hdry Hg Hne Hres. pose proof (canonical_valid _ Hc) as Hvalid.
  destruct (planning_returns resolve t args target_path destination_folder quality
              inc w Ht Hc (λ Hp _, Hres Hp)) as (tasks & w' & H).
  exists tasks, w'. rewrite H.
  rewrite (prepare_unfold _ _ _ _ _ _ _ _ _ _ Hg) in H.
  rewrite bool_decide_eq_false_2, Hdry in H by done.
  destruct (plan_loop_Ok _ _ _ _ _ _ _ _ _ _ _ _ _ H) as (cs & Hcs & Heq).
  rewrite Heq in H.
  injection H as <- <-. cbn [app stdout].
  rewrite sort_files_length in *.
  exists cs. split; [done|]. split; [done|]. split.
  - intros Hp.
    assert (∀ c, kept_by_planner resolve args destination_folder c
                 = contained resolve destination_folder (output_path c)) as Hk.
    { intros c. unfold kept_by_planner. by rewrite Hp. }
    assert (filter (λ c, Is_true (kept_by_planner resolve args destination_folder c)) cs
            = filter (λ c, Is_true (contained resolve destination_folder (output_path c))) cs) as ->.
    { apply list_filter_iff. intros c. by rewrite Hk. }
    assert (diagnostics resolve args destination_folder cs
            = map (λ c, security_error (output_path c))
                (filter (λ c, ¬ Is_true (contained resolve destination_folder
                                           (output_path c))) cs)) as ->.
    { unfold diagnostics. f_equal. apply list_filter_iff. intros c. by rewrite Hk. }
    split; [done|]. split; [|split; [|done]].
    + intros c [Hin _]%list_elem_of_filter.
      apply contained_within. by apply Is_true_true.
    + intros c Hin Hout.
      assert (¬ Is_true (contained resolve destination_folder (output_path c))) as Hnc.
      { intros Hin'%Is_true_true. by apply Hout, contained_within. }
      split.
      * by intros [Hin' _]%list_elem_of_filter.
      * apply elem_of_app. right.
        apply (list_elem_of_fmap_2 (λ c, security_error (output_path c))).
        by apply list_elem_of_filter.
  - intros Hp.
    assert (∀ c, Is_true (kept_by_planner resolve args destination_folder c)) as Hk.
    { intros c. unfold kept_by_planner. by rewrite Hp. }
    rewrite filter_all by done. split; [done|]. split.
    + unfold diagnostics. rewrite filter_none by (intros c Hin; by apply Hin).
      cbn [map]. rewrite app_nil_r. by destruct w1.
    + intros c [i Hi]%list_elem_of_lookup.
      destruct (candidates_lookup _ _ _ _ _ _ _ _ _ _ _ Hcs Hi) as (f & _ & Ho & _).
      by eapply flat_output_within.
Qed.

Lemma containment_when_preserving_witness :
  ∃ w',
    prepare_processing_tasks (λ p, Ok (realpath link_at_subdir p)) with_subdir
      preserve_keep_names ["/"; "in"; "photos"] ["/"; "out"; "photos"] 87 None
      empty_world
    = (Ok [mkTask "/in/photos/x.jpg" ["/"; "out"; "photos"; "x.jpg"] 2400 87 jpg false],
       w')
    ∧ stdout w'
      = ["Scanning for images..."; "Found 2 images to process";
         "Security error: Output path would be outside destination folder: /out/photos/sub/y.jpg"].
Proof.
  destruct (containment_when_preserving (λ p, Ok (realpath link_at_subdir p))
              with_subdir preserve_keep_names ["/"; "in"; "photos"]
              ["/"; "out"; "photos"] 87 None
              empty_world (scanning empty_world)
              ["/in/photos/x.jpg"; "/in/photos/sub/y.png"])
    as (tasks & w' & cs & H & Hcs & Hp & _).
  - plain_tree.
  - vm_compute. reflexivity.
  - reflexivity.
  - vm_compute. reflexivity.
  - discriminate.
  - intros _ p. eexists. reflexivity.
  - destruct (Hp eq_refl) as (Ht & _ & _ & Hs). exists w'.
    vm_compute in Hcs.
    repeat (inversion Hcs as [|? ? ? ? ? Ho Hcs']; subst; clear Hcs;
            rename Hcs' into Hcs; vm_compute in Ho; injection Ho as <-).
    inversion Hcs; subst. split; [exact H|exact Hs].
Defined.

(** What the planner does on that tree: the file under [sub] is dropped
    with its diagnostic, the other one is planned. *)
Example preserved_plan_drops_escaping_task :
  prepare_processing_tasks (λ p, Ok (realpath link_at_subdir p)) with_subdir
    preserve_keep_names ["/"; "in"; "photos"] ["/"; "out"; "photos"] 87 None empty_world
  = (Ok [mkTask "/in/photos/x.jpg" ["/"; "out"; "photos"; "x.jpg"] 2400 87 jpg false],
     mkWorld ∅
       ["Scanning for images..."; "Found 2 images to process";
        "Security error: Output path would be outside destination folder: /out/photos/sub/y.jpg"]
       []).
Proof. by vm_compute. Qed.

(** When [x.jpg] in the destination is a symbolic link to itself,
    [resolve] raises [RuntimeError] on that output path; the planner does
    not catch it: planning stops with that exception and returns no
    task, not even the one for [sub/y.png], which had passed the test
    before. *)
Example symlink_loop_stops_planning :
  prepare_processing_tasks
    (realpath_or_loop [["/"; "out"; "photos"; "x.jpg"]] []) with_subdir
    preserve_keep_names ["/"; "in"; "photos"] ["/"; "out"; "photos"] 87 None empty_world
  = (Raise "RuntimeError",
     mkWorld ∅ ["Scanning for images..."; "Found 2 images to process"] [])
  ∧ sort_files ["/in/photos/x.jpg"; "/in/photos/sub/y.png"]
    = ["/in/photos/sub/y.png"; "/in/photos/x.jpg"]
  ∧ contained (realpath_or_loop [["/"; "out"; "photos"; "x.jpg"]] [])
      ["/"; "out"; "photos"] ["/"; "out"; "photos"; "sub"; "y.jpg"] = true.
Proof. repeat split; by vm_compute. Qed.

(** C3. With original names kept, the flattening branch replaces every
    occurrence of the suffix in the file name, not only the final one:
    [x.png.png] becomes [x.jpg.jpg] and, for WebP, [a.jpg.b.jpg] becomes
    [a.webp.b.webp], where the name with its extension replaced is
    [x.png.jpg] and [a.jpg.b.webp].  The branch that preserves directories
    gives these last names. *)
Theorem flatten_replaces_every_occurrence :
  output_file_for flatten_keep_names ["photos"] ["dest"] ".jpg" 1 1 "photos/x.png.png"
  = Ok ["dest"; "x.jpg.jpg"]
  ∧ spec_replace_extension "x.png.png" ".jpg" = "x.png.jpg"
  ∧ output_file_for preserve_keep_names ["photos"] ["dest"] ".jpg" 1 1 "photos/x.png.png"
    = Ok ["dest"; "x.png.jpg"]
  ∧ output_file_for flatten_keep_names ["photos"] ["dest"] ".webp" 1 1 "photos/a.jpg.b.jpg"
    = Ok ["dest"; "a.webp.b.webp"]
  ∧ spec_replace_extension "a.jpg.b.jpg" ".webp" = "a.jpg.b.webp"
  ∧ output_file_for preserve_keep_names ["photos"] ["dest"] ".webp" 1 1 "photos/a.jpg.b.jpg"
    = Ok ["dest"; "a.jpg.b.webp"].
Proof. repeat split; by vm_compute. Qed.

(** C5, amended. [get_image_files] returns the files in the order of the
    walk; the planner sorts that sequence by full path before it numbers
    it.  The sorted sequence is ordered, holds the same files, and is the
    same for any other order of discovery; with sequential names in one
    flat folder the planner returns one task per file in that order, and
    the task at position [k] gets the name with index [k + 1]. *)
Theorem numbering_follows_sorted_order (resolve : Path → result Path) (t : tree)
    (args : Args) (target_path destination_folder : Path) (quality : Z)
    (inc : option (gset string)) (w w1 : World) (files : list string) :
  dry_run args = false → preserve_dirs args = false → keep_names args = false →
  get_image_files t target_path inc (scanning w) = (Ok files, w1) →
  StronglySorted String.le (sort_files files)
  ∧ sort_files files ≡ₚ files
  ∧ (∀ files', files' ≡ₚ files → sort_files files' = sort_files files)
  ∧ ∃ tasks w',
      prepare_processing_tasks resolve t args target_path destination_folder
        quality inc w = (Ok tasks, w')
      ∧ map input_path tasks = sort_files files
      ∧ ∀ k task, tasks !! k = Some task →
          output_path task
          = destination_folder
              //s generate_sequential_name (Path.name target_path) (S k)
                    (length files) (file_extension_of (format args)).
Proof.
  intros Hdry Hflat Hseq Hg.
  split; [apply sort_files_sorted|]. split; [apply sort_files_perm|].
  split; [intros files' Hperm; by apply sort_files_of_perm|].
  rewrite (prepare_unfold _ _ _ _ _ _ _ _ _ _ Hg), Hdry.
  case_bool_decide as Hnil.
  { subst. eexists _, _. split; [done|]. split; [done|]. by intros k task Hk. }
  destruct (flat_sequential_candidates args target_path destination_folder quality
              (length (sort_files files)) Hflat Hseq (sort_files files) 1) as [cs Hcs].
  rewrite (plan_loop_candidates _ _ _ _ _ _ _ _ _ _ _ _ Hcs)
    by (by rewrite Hflat).
  assert (∀ c, Is_true (kept_by_planner resolve args destination_folder c)) as Hk.
  { intros c. unfold kept_by_planner. by rewrite Hflat. }
  rewrite filter_all by done. cbn [app].
  eexists _, _. split; [done|]. split; [by eapply candidates_inputs|].
  intros k task Hlook.
  destruct (candidates_lookup _ _ _ _ _ _ _ _ _ _ _ Hcs Hlook) as (f & _ & Ho & _).
  rewrite flat_sequential_output in Ho by done. injection Ho as <-.
  by rewrite sort_files_length.
Qed.

Lemma numbering_follows_sorted_order_witness :
  ∃ tasks w',
    prepare_processing_tasks Ok two_files default_args ["photos"] ["dest"; "photos"]
      87 None empty_world = (Ok tasks, w')
    ∧ map input_path tasks = sort_files ["photos/b.jpg"; "photos/a.jpg"].
Proof.
  destruct (numbering_follows_sorted_order Ok two_files default_args ["photos"]
              ["dest"; "photos"] 87 None empty_world (scanning empty_world)
              ["photos/b.jpg"; "photos/a.jpg"] eq_refl eq_refl eq_refl)
    as (_ & _ & _ & tasks & w' & H & Hi & _).
  - vm_compute. reflexivity.
  - exists tasks, w'. split; assumption.
Defined.

(** ** Dry run *)

Section DryRun.

Context `{pil : PIL} `{pool : ProcessPool}.
Variable resolve : Path → result Path.

(** C8. In dry-run mode [main] changes no node of the file system (the
    destination folder is computed, not created) and makes no call to the
    transformer.  On a tree of plain names below a target folder in
    canonical form it returns; and when it returns with files found, what
    it prints after the count of files is the preview: the header, one
    line with the computed output name for each of the first five files in
    sorted order, the count of the remaining files when there are more
    than five, and the closing lines. *)
Theorem dry_run_only_previews (t : tree) (args : Args)
    (target_path destination_base : Path) (quality : Z)
    (inc : option (gset string)) (w w' : World) (r : result ()) :
  dry_run args = true →
  main resolve t args target_path destination_base quality inc w = (r, w') →
  nodes w' = nodes w
  ∧ transformer_calls w' = transformer_calls w
  ∧ (tree_plain t → canonical_path target_path → r = Ok ())
  ∧ ∀ files,
      (get_image_files t target_path inc w).1 = Ok files → files ≠ [] → r = Ok () →
      let destination_folder := destination_base //s Path.name target_path in
      ∃ cs,
        candidates args target_path destination_folder quality
          (file_extension_of (format args)) (length files) 1
          (take 5 (sort_files files)) cs
        ∧ stdout w'
          = stdout w
              ++ ["Output will be saved to: " +:+ Path.fspath destination_folder;
                  "Scanning for images...";
                  "Found " +:+ Py.str (length files) +:+ " images to process"]
              ++ preview_header args (length files) quality
              ++ preview_lines cs
              ++ preview_remainder (length files)
              ++ preview_footer.
Proof.
  intros Hdry H. unfold main in H. rewrite Hdry in H.
  set (dest := destination_base //s Path.name target_path) in *.
  assert (create_destination_structure target_path destination_base true w
          = (Ok dest, w)) as Hcreate by done.
  rewrite (bind_Ok _ _ _ _ _ Hcreate), bind_print in H.
  fold (announced dest w) in H. rewrite bind_unfold in H.
  destruct (get_image_files_Ok t target_path inc (scanning (announced dest w)))
    as (files & w1 & Hg & Hn1 & Hc1 & Hindep).
  unfold scanning, announced in Hn1, Hc1. cbn in Hn1, Hc1.
  rewrite (prepare_unfold _ _ _ _ _ _ _ _ _ _ Hg), Hdry in H.
  case_bool_decide as Hnil.
  - rewrite bool_decide_eq_true_2 in H by done. injection H as <- <-.
    cbn. split; [done|]. split; [done|]. split; [done|].
    intros files' Hf. rewrite Hindep in Hf. injection Hf as <-. done.
  - destruct (preview_processing _ _ _ _ _ _) as [[tasks|e] w2] eqn:Hp.
    + pose proof (preview_processing_read_only _ _ _ _ _ _ _ _ Hp) as [Hn2 Hc2].
      pose proof (preview_processing_returns _ _ _ _ _ _ _ _ Hp) as ->.
      rewrite bool_decide_eq_true_2 in H by done. injection H as <- <-.
      cbn in Hn2, Hc2. split; [congruence|]. split; [congruence|]. split; [done|].
      intros files' Hf _ _. rewrite Hindep in Hf. injection Hf as <-.
      apply get_image_files_nonempty in Hg as ->; [|done].
      assert (∃ cs, candidates args target_path dest quality
                      (file_extension_of (format args)) (length (sort_files files)) 1
                      (take 5 (sort_files files)) cs) as [cs Hcs].
      { unfold preview_processing in Hp.
        rewrite !bind_print_append in Hp.
        rewrite (bind_Ok _ _ _ _ _ (if_print _ _ _)) in Hp.
        rewrite !bind_print_append in Hp. rewrite bind_unfold in Hp.
        destruct (preview_loop _ _ _ _ _ _ _ _) as [[[]|e] w3] eqn:Hl; [|done].
        by apply (preview_loop_Ok _ _ _ quality) in Hl. }
      rewrite (preview_processing_output _ _ _ _ _ _ _ Hcs) in Hp.
      injection Hp as <-. rewrite sort_files_length in *.
      exists cs. split; [done|]. cbn. by rewrite <-!app_assoc.
    + injection H as <- <-.
      pose proof (preview_processing_read_only _ _ _ _ _ _ _ _ Hp) as [Hn2 Hc2].
      cbn in Hn2, Hc2. split; [congruence|]. split; [congruence|].
      split; [|done]. intros Ht Hc. exfalso.
      pose proof (get_image_files_below _ _ _ _ _ _ Ht Hc Hg) as Hbelow.
      assert (Forall (below target_path) (sort_files files)) as Hsorted.
      { apply Forall_forall. intros f Hf. rewrite Forall_forall in Hbelow.
        apply Hbelow. by rewrite <-(sort_files_perm files). }
      clear Hbelow. rename Hsorted into Hbelow.
      destruct (candidates_below args target_path dest quality
                  (length (sort_files files)) (take 5 (sort_files files))
                  (Forall_take _ _ _ Hbelow) 1) as [cs Hcs].
      by rewrite (preview_processing_output _ _ _ _ _ _ _ Hcs) in Hp.
Qed.

End DryRun.

Lemma dry_run_only_previews_witness :
  let w' := (main (pil := toy_pil) (pool := toy_pool) Ok seven_files dry_run_args
               ["photos"] ["dest"] 87 None small_world).2 in
  nodes w' = nodes small_world ∧ transformer_calls w' = []
  ∧ stdout w'
    = ["Output will be saved to: dest/photos"; "Scanning for images...";
       "Found 7 images to process"; ""; "=== DRY RUN PREVIEW ===";
       "Would process 7 images"; "Format: JPG"; "Quality: 87";
       "Max size: 2400px"; "Processes: 1"; "Naming: Sequential";
       "Directory structure: Flattened"; ""; "Example output filenames:";
       "  a.jpg → photos-0001.jpg"; "  b.jpg → photos-0002.jpg";
       "  c.jpg → photos-0003.jpg"; "  d.jpg → photos-0004.jpg";
       "  e.jpg → photos-0005.jpg"; "  ... and 2 more files"; "";
       "No files will be processed in dry-run mode."].
Proof.
  destruct (main (pil := toy_pil) (pool := toy_pool) Ok seven_files dry_run_args
              ["photos"] ["dest"] 87 None small_world) as [r w'] eqn:H.
  destruct (dry_run_only_previews (pil := toy_pil) (pool := toy_pool) Ok seven_files
              dry_run_args ["photos"] ["dest"] 87 None small_world w' r eq_refl H)
    as (Hn & Hc & Hr & Hp).
  split; [exact Hn|]. split; [exact Hc|].
  destruct (Hp ["photos/g.png"; "photos/f.jpg"; "photos/e.jpg"; "photos/d.jpg";
                "photos/c.jpg"; "photos/b.jpg"; "photos/a.jpg"])
    as (cs & Hcs & Hout).
  - vm_compute. reflexivity.
  - discriminate.
  - apply Hr; [plain_tree|vm_compute; reflexivity].
  - vm_compute in Hcs.
    repeat (inversion Hcs as [|? ? ? ? ? Ho Hcs']; subst; clear Hcs;
            rename Hcs' into Hcs; vm_compute in Ho; injection Ho as <-).
    inversion Hcs; subst. exact Hout.
Defined.

(** Outside dry-run mode the same call does create the destination folder. *)
Example real_run_creates_destination :
  nodes (main (pil := toy_pil) (pool := toy_pool) Ok seven_files default_args
           ["photos"] ["dest"] 87 None small_world).2 !! ["dest"; "photos"]
  = Some (Directory new_dir_size)
  ∧ nodes small_world !! ["dest"; "photos"] = None.
Proof. split; by vm_compute. Qed.

(** ** The worker *)

Section Worker.

Context `{pil : PIL}.

(** C7. A task with [skip_existing] set whose output path exists, and
    whose input file is there to be measured, gives the tuple of a skipped
    task: success, no error, the size of the input file and the size of
    the existing output.  The world is left exactly as it was: the
    transformer is not called and the output file keeps its bytes. *)
Theorem skip_existing_outcome (task : Task) (w : World) (n_in n_out : node) :
  task_skip_existing task = true →
  nodes w !! Path.of_str (input_path task) = Some n_in →
  nodes w !! output_path task = Some n_out →
  ∃ r,
    process_single_image task w = (Ok r, w)
    ∧ r = mkResult true (input_path task) None (node_size n_in) (node_size n_out) true
    ∧ outcome_of r = Skipped (node_size n_in) (node_size n_out)
    ∧ transformer_calls (process_single_image task w).2 = transformer_calls w
    ∧ nodes (process_single_image task w).2 !! output_path task = Some n_out.
Proof.
  intros Hskip Hin Hout.
  assert (process_single_image task w
          = (Ok (mkResult true (input_path task) None (node_size n_in)
                   (node_size n_out) true), w)) as Hrun.
  { unfold process_single_image, try_except.
    rewrite bind_unfold. unfold stat_size at 1. rewrite Hin.
    rewrite Hskip, bind_unfold. unfold exists_.
    rewrite bool_decide_eq_true_2 by (by rewrite Hout).
    rewrite bind_unfold. unfold stat_size. by rewrite Hout. }
  eexists. split; [exact Hrun|]. rewrite Hrun. by repeat split.
Qed.

(** [optimize_image] records its call, once. *)
Lemma optimize_image_calls input output max_size quality output_format w :
  transformer_calls (optimize_image input output max_size quality output_format w).2
  = transformer_calls w ++ [(input, output)].
Proof.
  unfold optimize_image. rewrite bind_unfold. unfold record_call at 1.
  match goal with |- transformer_calls (?m ?w1).2 = _ =>
    assert (preserves transformer_calls m) as Hp;
      [calls_steps|destruct (m w1) as [r w2] eqn:H; exact (Hp _ _ _ H)]
  end.
Qed.

(** The record of transformer calls is not idle: a task that is not
    skipped, with a readable input, calls the transformer once. *)
Lemma unskipped_task_calls_transformer (task : Task) (w : World) (n_in : node) :
  task_skip_existing task = false →
  nodes w !! Path.of_str (input_path task) = Some n_in →
  transformer_calls (process_single_image task w).2
  = transformer_calls w ++ [(input_path task, output_path task)].
Proof.
  intros Hskip Hin.
  unfold process_single_image.
  rewrite try_except_bind. unfold stat_size at 1. rewrite Hin.
  rewrite Hskip, try_except_bind. cbn [mret M_ret ret].
  rewrite try_except_bind.
  pose proof (optimize_image_calls (input_path task) (output_path task)
                (task_max_size task) (task_quality task) (output_format task) w) as Hc.
  destruct (optimize_image _ _ _ _ _ w) as [[b|e] w1]; cbn [snd] in Hc;
    rewrite <-Hc; apply preserves_at; calls_steps.
Qed.

End Worker.

Lemma skip_existing_outcome_witness :
  (process_single_image (pil := toy_pil) skip_task small_world).1
  = Ok (mkResult true "photos/a.jpg" None 3 2 true).
Proof.
  destruct (skip_existing_outcome (pil := toy_pil) skip_task small_world
              (RegularFile [Byte.x04; Byte.x03; Byte.x00])
              (RegularFile [Byte.x01; Byte.x01]) eq_refl)
    as (r & Hrun & Hr & _).
  - vm_compute. reflexivity.
  - vm_compute. reflexivity.
  - rewrite Hrun, Hr. reflexivity.
Defined.

(** ** Aggregation *)

Section Aggregation.

Context `{pil : PIL} `{pool : ProcessPool}.

Lemma process_single_image_total (task : Task) : never_raises (process_single_image task).
Proof.
  intros w. unfold process_single_image, try_except at 1.
  match goal with |- ∃ _ _, match ?m w with _ => _ end = _ =>
    destruct (m w) as [[r|e] w1] end.
  - by eexists _, _.
  - rewrite bind_unfold. unfold try_except, stat_size.
    destruct (nodes w1 !! _); by eexists _, _.
Qed.

(** Folding one result adds one to exactly one of the three counts. *)
Lemma fold_result_counts (input_file : string) (st : RunStats) (r : WorkerResult)
    (w : World) :
  ∃ st' w',
    fold_result input_file st r w = (Ok st', w')
    ∧ match outcome_of r with
      | Skipped _ _ =>
          skipped_count st' = S (skipped_count st)
          ∧ successful st' = successful st ∧ failed st' = failed st
      | Succeeded _ _ =>
          successful st' = S (successful st)
          ∧ skipped_count st' = skipped_count st ∧ failed st' = failed st
      | Failed _ _ =>
          failed st' = S (failed st)
          ∧ successful st' = successful st ∧ skipped_count st' = skipped_count st
      end.
Proof.
  unfold fold_result, outcome_of.
  destruct (skipped r); [eexists _, _; split; [reflexivity|by cbn]|].
  destruct (success r); [eexists _, _; split; [reflexivity|by cbn]|].
  rewrite bind_unfold.
  destruct (truthy_str _); eexists _, _; (split; [reflexivity|by cbn]).
Qed.

Lemma fold_result_counted (input_file : string) (st : RunStats) (r : WorkerResult)
    (w : World) :
  ∃ st' w', fold_result input_file st r w = (Ok st', w') ∧ counted st' = S (counted st).
Proof.
  destruct (fold_result_counts input_file st r w) as (st' & w' & H & Hc).
  exists st', w'. split; [done|]. unfold counted.
  destruct (outcome_of r); lia.
Qed.

(** Folding a result leaves the file system and the record of calls. *)
Lemma fold_result_frame (input_file : string) (st st' : RunStats) (r : WorkerResult)
    (w w' : World) :
  fold_result input_file st r w = (Ok st', w') →
  nodes w' = nodes w ∧ transformer_calls w' = transformer_calls w.
Proof.
  unfold fold_result.
  destruct (skipped r); [by intros [= _ <-]|].
  destruct (success r); [by intros [= _ <-]|].
  rewrite bind_unfold. destruct (truthy_str _); by intros [= _ <-].
Qed.

Lemma counts_with_cons (st st1 st' : RunStats) (o : Outcome) (outcomes : list Outcome) :
  match o with
  | Skipped _ _ =>
      skipped_count st1 = S (skipped_count st)
      ∧ successful st1 = successful st ∧ failed st1 = failed st
  | Succeeded _ _ =>
      successful st1 = S (successful st)
      ∧ skipped_count st1 = skipped_count st ∧ failed st1 = failed st
  | Failed _ _ =>
      failed st1 = S (failed st)
      ∧ successful st1 = successful st ∧ skipped_count st1 = skipped_count st
  end →
  counts_with st1 outcomes st' → counts_with st (o :: outcomes) st'.
Proof.
  unfold counts_with. cbn [count_outcomes].
  destruct o; cbn [is_succeeded is_skipped is_failed]; lia.
Qed.

Lemma run_sequential_outcomes (task_args : list Task) :
  ∀ st w, ∃ st' w' outcomes,
    run_sequential task_args st w = (Ok st', w')
    ∧ sequential_outcomes task_args w outcomes
    ∧ length outcomes = length task_args
    ∧ counts_with st outcomes st'.
Proof.
  induction task_args as [|task rest IH]; intros st w.
  - exists st, w, []. split; [done|]. split; [constructor|]. split; [done|].
    unfold counts_with. cbn. lia.
  - cbn [run_sequential]. rewrite bind_unfold.
    destruct (process_single_image_total task w) as (r & w1 & Hr). rewrite Hr.
    rewrite bind_unfold.
    destruct (fold_result_counts (input_path task) st r w1) as (st1 & w2 & Hf & Hc).
    rewrite Hf. apply fold_result_frame in Hf as [Hn Hcalls].
    destruct (IH st1 w2) as (st' & w' & outcomes & -> & Ho & Hl & Hcounts).
    exists st', w', (outcome_of r :: outcomes). split; [done|].
    split; [by econstructor|]. split; [by cbn; rewrite Hl|].
    by eapply counts_with_cons.
Qed.

Lemma fold_completed_outcomes (completed : list (Task * FutureResult)) :
  ∀ st w, ∃ st' w',
    fold_completed completed st w = (Ok st', w')
    ∧ counts_with st (map (λ tf, future_outcome tf.2) completed) st'.
Proof.
  induction completed as [|[task future] rest IH]; intros st w.
  - exists st, w. split; [done|]. unfold counts_with. cbn. lia.
  - cbn [fold_completed]. rewrite bind_unfold. destruct future as [r|e].
    + destruct (fold_result_counts (input_path task) st r w) as (st1 & w2 & -> & Hc).
      destruct (IH st1 w2) as (st' & w' & -> & Hcounts).
      exists st', w'. split; [done|]. cbn [map snd future_outcome].
      by eapply counts_with_cons.
    + rewrite bind_print. cbn [mret M_ret ret].
      match goal with |- context [fold_completed rest ?s ?w0] =>
        destruct (IH s w0) as (st' & w' & -> & Hcounts) end.
      exists st', w'. split; [done|]. cbn [map snd future_outcome].
      eapply counts_with_cons; [|exact Hcounts]. by cbn.
Qed.

Lemma count_outcomes_total (outcomes : list Outcome) :
  count_outcomes is_succeeded outcomes + count_outcomes is_failed outcomes
  + count_outcomes is_skipped outcomes = length outcomes.
Proof.
  induction outcomes as [|o outcomes IH]; [done|].
  cbn [count_outcomes length]. destruct o; cbn [is_succeeded is_skipped is_failed]; lia.
Qed.

(** C6. Whatever the number of processes, when the pool completes every
    submitted task once (in any order, with a result or with an
    exception), [process_images_with_progress] returns, and there is one
    outcome for each task: with one process that of the worker run on
    each task in turn, otherwise that of each completed future (a future
    that raised is a failure).  The count of successes is the number of
    succeeded outcomes, the count of skipped tasks the number of skipped
    ones, the count of failures the number of failed ones: a skipped
    task, whose tuple also says success, is counted as skipped only.  So
    the three counts add up to the number of tasks. *)
Theorem counts_add_up (task_args : list Task) (args : Args) (w : World) :
  (∀ P ts w0, map fst (pool_run P ts w0).1 ≡ₚ ts) →
  ∃ st w' outcomes,
    process_images_with_progress task_args args w = (Ok st, w')
    ∧ batch_outcomes args task_args w outcomes
    ∧ length outcomes = length task_args
    ∧ successful st = count_outcomes is_succeeded outcomes
    ∧ skipped_count st = count_outcomes is_skipped outcomes
    ∧ failed st = count_outcomes is_failed outcomes
    ∧ successful st + failed st + skipped_count st = length task_args.
Proof.
  intros Hpool.
  assert (∀ st outcomes,
            length outcomes = length task_args → counts_with no_stats outcomes st →
            length outcomes = length task_args
            ∧ successful st = count_outcomes is_succeeded outcomes
            ∧ skipped_count st = count_outcomes is_skipped outcomes
            ∧ failed st = count_outcomes is_failed outcomes
            ∧ successful st + failed st + skipped_count st = length task_args) as Hsum.
  { intros st outcomes Hl (H1 & H2 & H3). cbn in H1, H2, H3.
    pose proof (count_outcomes_total outcomes). repeat split; try done. lia. }
  unfold process_images_with_progress, batch_outcomes.
  case_bool_decide as Hnil.
  { subst. exists no_stats, w, []. split; [done|]. split.
    - case_bool_decide; [constructor|].
      specialize (Hpool (processes args) [] w).
      apply Permutation_nil_r in Hpool.
      destruct (pool_run (processes args) [] w).1; [done|discriminate].
    - apply Hsum; [done|]. unfold counts_with. cbn. lia. }
  case_bool_decide as Hone.
  - destruct (run_sequential_outcomes task_args no_stats w)
      as (st & w' & outcomes & -> & Ho & Hl & Hc).
    exists st, w', outcomes. split; [done|]. split; [done|]. by apply Hsum.
  - rewrite bind_unfold. specialize (Hpool (processes args) task_args w).
    destruct (pool_run (processes args) task_args w) as [completed w1].
    cbn [fst] in *.
    destruct (fold_completed_outcomes completed no_stats w1) as (st & w' & -> & Hc).
    exists st, w', (map (λ tf, future_outcome tf.2) completed).
    split; [done|]. split; [done|]. apply Hsum; [|done].
    apply Permutation_length in Hpool. by rewrite length_map in *.
Qed.

End Aggregation.

Lemma toy_run_complete (ts : list Task) (w : World) : map fst (toy_run ts w).1 ≡ₚ ts.
Proof.
  revert w. induction ts as [|t ts IH]; intros w; [done|].
  cbn [toy_run]. specialize (IH w). destruct (toy_run ts w) as [done_ w1].
  destruct (process_single_image t w1) as [r w2]. cbn [fst] in *.
  rewrite map_app. cbn [map fst]. rewrite IH.
  by rewrite <-Permutation_cons_append.
Qed.

Lemma counts_add_up_witness :
  ∃ st w',
    process_images_with_progress (pil := toy_pil) (pool := toy_pool)
      [skip_task; fresh_task] four_processes small_world = (Ok st, w')
    ∧ successful st = 0 ∧ skipped_count st = 1 ∧ failed st = 1.
Proof.
  destruct (counts_add_up (pil := toy_pil) (pool := toy_pool) [skip_task; fresh_task]
              four_processes small_world (λ _, toy_run_complete))
    as (st & w' & outcomes & H & Ho & _ & H1 & H2 & H3 & _).
  exists st, w'. split; [exact H|].
  vm_compute in Ho. subst outcomes. vm_compute in H1, H2, H3. by repeat split.
Defined.

(** ** Binary64 division of integers *)

Section Binary64.

Local Open Scope Z_scope.

Abbreviation dig p := (Z.pos (digits2_pos p)).

Lemma digits2_bounds (p : positive) : 2 ^ (dig p - 1) ≤ Z.pos p < 2 ^ dig p.
Proof.
  induction p as [p IH|p IH|]; cbn [digits2_pos].
  - rewrite Pos2Z.inj_succ, (Pos2Z.inj_xI p).
    replace (Z.succ (dig p) - 1) with (Z.succ (dig p - 1)) by lia.
    rewrite !Z.pow_succ_r by lia.
    set (x := 2 ^ (dig p - 1)) in *. set (y := 2 ^ dig p) in *.
    clearbody x y. lia.
  - rewrite Pos2Z.inj_succ, (Pos2Z.inj_xO p).
    replace (Z.succ (dig p) - 1) with (Z.succ (dig p - 1)) by lia.
    rewrite !Z.pow_succ_r by lia.
    set (x := 2 ^ (dig p - 1)) in *. set (y := 2 ^ dig p) in *.
    clearbody x y. lia.
  - by vm_compute.
Qed.

Lemma digits2_unique (p : positive) (d : Z) :
  2 ^ (d - 1) ≤ Z.pos p < 2 ^ d → dig p = d.
Proof.
  intros [Hl Hu]. pose proof (digits2_bounds p) as [Hl' Hu'].
  assert (0 < d) as Hd.
  { destruct (Z_lt_le_dec 0 d); [done|]. rewrite Z.pow_neg_r in Hl by lia.
    destruct (Z.eq_dec d 0) as [->|]; [simpl in Hu; lia|].
    rewrite Z.pow_neg_r in Hu by lia. lia. }
  destruct (Z_lt_le_dec (dig p) d) as [H1|H1].
  - assert (2 ^ dig p ≤ 2 ^ (d - 1)) by (apply Z.pow_le_mono_r; lia). lia.
  - destruct (Z_lt_le_dec d (dig p)) as [H2|H2]; [|lia].
    assert (2 ^ d ≤ 2 ^ (dig p - 1)) by (apply Z.pow_le_mono_r; lia). lia.
Qed.

Lemma iter_xO (m d : positive) : Z.pos (Pos.iter xO m d) = Z.pos m * 2 ^ Z.pos d.
Proof.
  change (Pos.iter xO m d) with (shift_pos d m).
  rewrite shift_pos_correct. rewrite Zpower_pos_nat, Zpower_nat_Z.
  rewrite positive_nat_Z. lia.
Qed.

Lemma fexp_normal (z : Z) : -1021 ≤ z → fexp 53 1024 z = z - 53.
Proof. intros H. unfold fexp, emin. lia. Qed.

Lemma loc_of_record (m : Z) (l : location) :
  loc_of_shr_record (shr_record_of_loc m l) = l.
Proof. by destruct l as [|[]]. Qed.

Lemma to_int_finite (m : positive) (e : Z) :
  Float.to_int (S754_finite false m e)
  = Ok (if e <? 0 then Z.pos m / 2 ^ (- e) else Z.pos m * 2 ^ e).
Proof. destruct e; reflexivity. Qed.

(** A positive mantissa of 53 bits with a small exponent is a float as it
    stands. *)
Lemma round_exact (m : positive) (e : Z) :
  dig m = 53 → -1000 ≤ e ≤ 900 →
  binary_round_aux 53 1024 false (Z.pos m) e loc_Exact = S754_finite false m e.
Proof.
  intros Hd He. unfold binary_round_aux, shr_fexp. cbn [Zdigits2].
  rewrite Hd, fexp_normal by lia.
  replace (53 + e - 53 - e) with 0 by lia. cbn [shr shr_record_of_loc shr_m
    loc_of_shr_record round_nearest_even Zdigits2].
  rewrite Hd, fexp_normal by lia.
  replace (53 + e - 53 - e) with 0 by lia. cbn [shr shr_m].
  assert ((e <=? 1024 - 53) = true) as -> by (apply Z.leb_le; lia). done.
Qed.

(** [float(a)] for [0 < a < 2^53]: the mantissa is [a] shifted to 53 bits. *)
Lemma of_int_pos (a : positive) :
  Z.pos a < 2 ^ 53 →
  ∃ m, Float.of_int (Z.pos a) = S754_finite false m (dig a - 53)
       ∧ dig m = 53
       ∧ Z.pos m = Z.pos a * 2 ^ (53 - dig a).
Proof.
  intros Ha. pose proof (digits2_bounds a) as [Hl Hu].
  assert (dig a ≤ 53) as Hd.
  { destruct (Z_lt_le_dec 53 (dig a)); [|done].
    assert (2 ^ 53 ≤ 2 ^ (dig a - 1)) by (apply Z.pow_le_mono_r; lia). lia. }
  unfold Float.of_int, binary_normalize, binary_round, Float.prec, Float.emax.
  rewrite fexp_normal by lia. unfold shl_align.
  replace (dig a + 0 - 53 - 0) with (dig a - 53) by lia.
  destruct (Z.eq_dec (dig a) 53) as [H53|H53].
  - rewrite H53. cbn [Z.sub Z.add Z.opp Z.pos_sub Pos.pred_double].
    change (53 - 53) with 0. exists a. rewrite round_exact by lia.
    split; [done|]. split; [done|]. change (2 ^ 0) with 1. lia.
  - destruct (dig a - 53) as [|k|k] eqn:Hk; [lia|lia|].
    assert (Z.pos (Pos.iter xO a k) = Z.pos a * 2 ^ (53 - dig a)) as Hm.
    { rewrite iter_xO. do 2 f_equal. lia. }
    assert (dig (Pos.iter xO a k) = 53) as Hdm.
    { apply digits2_unique. rewrite Hm.
      replace (2 ^ (53 - 1)) with (2 ^ (dig a - 1) * 2 ^ (53 - dig a))
        by (rewrite <-Z.pow_add_r by lia; f_equal; lia).
      replace (2 ^ 53) with (2 ^ dig a * 2 ^ (53 - dig a))
        by (rewrite <-Z.pow_add_r by lia; f_equal; lia).
      assert (0 < 2 ^ (53 - dig a)) by (apply Z.pow_pos_nonneg; lia). nia. }
    exists (Pos.iter xO a k). rewrite round_exact by lia.
    replace (dig a + 0 - 53) with (Z.neg k) by lia. done.
Qed.


(** The integer part of a positive float, over a common denominator. *)
Lemma to_int_common (m : positive) (e K : Z) :
  0 ≤ K → 0 ≤ e + K →
  Float.to_int (S754_finite false m e) = Ok ((Z.pos m * 2 ^ (e + K)) / 2 ^ K).
Proof.
  intros HK HeK. rewrite to_int_finite. f_equal.
  assert (0 < 2 ^ K) as HpK by (apply Z.pow_pos_nonneg; lia).
  destruct (e <? 0) eqn:He.
  - apply Z.ltb_lt in He.
    assert (0 < 2 ^ (e + K)) as Hp by (apply Z.pow_pos_nonneg; lia).
    replace (2 ^ K) with (2 ^ (- e) * 2 ^ (e + K))
      by (rewrite <-Z.pow_add_r by lia; f_equal; lia).
    rewrite Z.div_mul_cancel_r by lia. done.
  - apply Z.ltb_ge in He.
    rewrite Z.pow_add_r by lia. rewrite Z.mul_assoc, Z.div_mul by lia. done.
Qed.

(** The last step of [binary_round_aux]: a mantissa of 53 bits is kept, the
    mantissa [2^53] is renormalised; the value is the same. *)
Lemma round_tail (m1 e : Z) :
  2 ^ 52 ≤ m1 ≤ 2 ^ 53 → -150 ≤ e ≤ 10 →
  ∃ m2 e2,
    (let '(mrs, e'') := shr_fexp 53 1024 m1 e loc_Exact in
     match shr_m mrs with
     | Z0 => S754_zero false
     | Zpos m => if e'' <=? 1024 - 53 then S754_finite false m e''
                 else S754_infinity false
     | Zneg _ => S754_nan
     end) = S754_finite false m2 e2
    ∧ e ≤ e2 ∧ Z.pos m2 * 2 ^ (e2 - e) = m1.
Proof.
  intros Hm He. destruct m1 as [|p|p]; [lia| |lia].
  unfold shr_fexp. cbn [Zdigits2].
  destruct (Z.eq_dec (Z.pos p) (2 ^ 53)) as [Heq|Hne].
  - assert (dig p = 54) as Hd by (apply digits2_unique; rewrite Heq; by vm_compute).
    rewrite Hd, fexp_normal by lia.
    replace (54 + e - 53 - e) with 1 by lia.
    vm_compute in Heq. injection Heq as ->.
    cbn [shr iter_pos shr_1 shr_record_of_loc shr_m].
    assert ((e + 1 <=? 1024 - 53) = true) as -> by (apply Z.leb_le; lia).
    eexists _, _. split; [done|]. split; [lia|].
    replace (e + 1 - e) with 1 by lia. by vm_compute.
  - assert (dig p = 53) as Hd by (apply digits2_unique; lia).
    rewrite Hd, fexp_normal by lia.
    replace (53 + e - 53 - e) with 0 by lia.
    cbn [shr iter_pos shr_1 shr_record_of_loc shr_m].
    assert ((e <=? 1024 - 53) = true) as -> by (apply Z.leb_le; lia).
    eexists _, _. split; [done|]. split; [lia|].
    replace (e - e) with 0 by lia. simpl. lia.
Qed.

Lemma round_nearest_even_cases (m : Z) (l : location) :
  round_nearest_even m l = m
  ∨ (round_nearest_even m l = m + 1 ∧ ∃ c, l = loc_Inexact c ∧ c ≠ Lt).
Proof.
  destruct l as [|[]]; cbn; [by left|..].
  - destruct (Z.even m); [by left|]. right. split; [done|]. by exists Eq.
  - by left.
  - right. split; [done|]. by exists Gt.
Qed.

(** Rounding a quotient [q] of 53 or 54 bits at exponent [e' < 0]: the
    integer part of the result is that of [n / 2^(-e')] for an [n] next to
    [q]. *)
Lemma round_quotient (q : positive) (e' : Z) (loc : location) :
  2 ^ 52 ≤ Z.pos q < 2 ^ 54 → -150 ≤ e' ≤ -1 →
  ∃ n,
    Float.to_int (binary_round_aux 53 1024 false (Z.pos q) e' loc)
    = Ok (n / 2 ^ (- e'))
    ∧ (n = Z.pos q ∨ n = Z.pos q + 1 ∨ (n = Z.pos q - 1 ∧ Z.odd (Z.pos q) = true)).
Proof.
  intros Hq He. unfold binary_round_aux.
  destruct (Z_lt_le_dec (Z.pos q) (2 ^ 53)) as [Hlt|Hge].
  - assert (dig q = 53) as Hd by (apply digits2_unique; lia).
    unfold shr_fexp at 1. cbn [Zdigits2]. rewrite Hd, fexp_normal by lia.
    replace (53 + e' - 53 - e') with 0 by lia. cbn [shr shr_m].
    rewrite loc_of_record.
    replace (shr_m (shr_record_of_loc (Z.pos q) loc)) with (Z.pos q)
      by (by destruct loc as [|[]]).
    set (m1 := round_nearest_even (Z.pos q) loc).
    assert (m1 = Z.pos q ∨ m1 = Z.pos q + 1) as Hm1.
    { destruct (round_nearest_even_cases (Z.pos q) loc) as [H|[H _]]; auto. }
    destruct (round_tail m1 e') as (m2 & e2 & -> & He2 & Hv); [lia|lia|].
    exists m1. split; [|lia].
    rewrite (to_int_common m2 e2 (- e')) by lia.
    replace (e2 + - e') with (e2 - e') by lia. by rewrite Hv.
  - assert (dig q = 54) as Hd by (apply digits2_unique; lia).
    unfold shr_fexp at 1. cbn [Zdigits2]. rewrite Hd, fexp_normal by lia.
    replace (54 + e' - 53 - e') with 1 by lia. cbn [shr]. unfold SpecFloat.iter_pos.
    set (rec := shr_1 (shr_record_of_loc (Z.pos q) loc)).
    assert (shr_m rec = Z.pos q / 2
            ∧ (Z.odd (Z.pos q) = false →
               loc_of_shr_record rec = loc_Exact
               ∨ loc_of_shr_record rec = loc_Inexact Lt)) as [Hm Hl].
    { unfold rec. destruct q as [p|p|].
      - split; [|done].
        assert (shr_m (shr_1 (shr_record_of_loc (Z.pos p~1) loc)) = Z.pos p) as ->
          by (by destruct loc as [|[]]).
        rewrite (Pos2Z.inj_xI p).
        replace (2 * Z.pos p + 1) with (1 + Z.pos p * 2) by lia.
        rewrite Z.div_add by lia. change (1 `div` 2) with 0. lia.
      - split.
        + assert (shr_m (shr_1 (shr_record_of_loc (Z.pos p~0) loc)) = Z.pos p) as ->
            by (by destruct loc as [|[]]).
          rewrite (Pos2Z.inj_xO p), Z.mul_comm, Z.div_mul by lia. done.
        + intros _. destruct loc as [|[]]; cbn; auto.
      - vm_compute in Hge. lia. }
    set (m1 := round_nearest_even (shr_m rec) (loc_of_shr_record rec)).
    assert (m1 = Z.pos q / 2 ∨ (m1 = Z.pos q / 2 + 1 ∧ Z.odd (Z.pos q) = true)) as Hm1.
    { unfold m1. rewrite <-Hm.
      destruct (round_nearest_even_cases (shr_m rec) (loc_of_shr_record rec))
        as [H|[H (c & Hc & Hne)]]; [by left|].
      right. split; [done|]. destruct (Z.odd (Z.pos q)) eqn:Ho; [done|].
      destruct (Hl eq_refl) as [H'|H']; rewrite H' in Hc; congruence. }
    pose proof (Z.div_mod (Z.pos q) 2 ltac:(lia)) as Hdm.
    pose proof (Z.mod_pos_bound (Z.pos q) 2 ltac:(lia)) as Hmb.
    assert (Z.odd (Z.pos q) = true → Z.pos q mod 2 = 1) as Hodd.
    { intros Ho. rewrite Zmod_odd, Ho. done. }
    assert (2 ^ 53 = 2 * 2 ^ 52) as H53 by (by vm_compute).
    assert (2 ^ 54 = 2 * 2 ^ 53) as H54 by (by vm_compute).
    destruct (round_tail m1 (e' + 1)) as (m2 & e2 & -> & He2 & Hv); [lia|lia|].
    exists (2 * m1). split.
    + rewrite (to_int_common m2 e2 (- e')) by lia.
      replace (e2 + - e') with (1 + (e2 - (e' + 1))) by lia.
      rewrite Z.pow_add_r by lia. change (2 ^ 1) with 2.
      replace (Z.pos m2 * (2 * 2 ^ (e2 - (e' + 1))))
        with (2 * (Z.pos m2 * 2 ^ (e2 - (e' + 1)))) by lia.
      by rewrite Hv.
    + destruct Hm1 as [->|[-> Ho]].
      * destruct (Z.odd (Z.pos q)) eqn:Ho.
        -- right. right. specialize (Hodd eq_refl). split; [lia|done].
        -- left. rewrite Zmod_odd, Ho in Hdm. lia.
      * right. left. specialize (Hodd Ho). lia.
Qed.

Lemma pow2_split (x y : Z) : 0 ≤ x → 0 ≤ y → 2 ^ (x + y) = 2 ^ x * 2 ^ y.
Proof. intros. by rewrite Z.pow_add_r. Qed.

(** The quotient of two floats made from integers below [2^53], before
    rounding. *)
Lemma truediv_core (ma mb : positive) (ea eb : Z) :
  dig ma = 53 → dig mb = 53 → -52 ≤ ea ≤ 0 → -52 ≤ eb ≤ 0 →
  SFdiv 53 1024 (S754_finite false ma ea) (S754_finite false mb eb)
  = binary_round_aux 53 1024 false ((Z.pos ma * 2 ^ 53) / Z.pos mb) (ea - eb - 53)
      (new_location (Z.pos mb) ((Z.pos ma * 2 ^ 53) mod Z.pos mb)).
Proof.
  intros Hda Hdb Hea Heb. unfold SFdiv, SFdiv_core_binary. cbn [Zdigits2].
  rewrite Hda, Hdb, fexp_normal by lia.
  replace (Z.min (53 + ea - (53 + eb) - 53) (ea - eb)) with (ea - eb - 53) by lia.
  replace (ea - eb - (ea - eb - 53)) with 53 by lia.
  rewrite Z.shiftl_mul_pow2 by lia.
  unfold Z.div, Z.modulo.
  by destruct (Z.div_eucl (Z.pos ma * 2 ^ 53) (Z.pos mb)) as [q r].
Qed.

(** [int(a / b)] is the integer quotient, for positive integers below
    [2^53]: rounding the quotient to 53 bits never reaches the next
    integer. *)
Lemma int_truediv_floor (a b : Z) :
  0 < a < 2 ^ 53 → 0 < b < 2 ^ 53 → Float.int_truediv a b = Ok (a / b).
Proof.
  intros Ha Hb. destruct a as [|pa|pa]; [lia| |lia]. destruct b as [|pb|pb]; [lia| |lia].
  unfold Float.int_truediv, Float.truediv. cbn [Z.eqb].
  destruct (of_int_pos pa) as (ma & -> & Hda & Hma); [lia|].
  destruct (of_int_pos pb) as (mb & -> & Hdb & Hmb); [lia|].
  pose proof (digits2_bounds pa) as [Hal Hau].
  pose proof (digits2_bounds pb) as [Hbl Hbu].
  pose proof (digits2_bounds ma) as [Hmal Hmau].
  pose proof (digits2_bounds mb) as [Hmbl Hmbu].
  rewrite Hda in Hmal, Hmau. rewrite Hdb in Hmbl, Hmbu.
  set (da := dig pa) in *. set (db := dig pb) in *.
  assert (1 ≤ da ≤ 53) as Hdar.
  { split; [unfold da; lia|]. destruct (Z_lt_le_dec 53 da); [|done].
    assert (2 ^ 53 ≤ 2 ^ (da - 1)) by (apply Z.pow_le_mono_r; lia). lia. }
  assert (1 ≤ db ≤ 53) as Hdbr.
  { split; [unfold db; lia|]. destruct (Z_lt_le_dec 53 db); [|done].
    assert (2 ^ 53 ≤ 2 ^ (db - 1)) by (apply Z.pow_le_mono_r; lia). lia. }
  unfold Float.prec, Float.emax. rewrite truediv_core by lia.
  set (q := (Z.pos ma * 2 ^ 53) / Z.pos mb).
  set (r := (Z.pos ma * 2 ^ 53) mod Z.pos mb).
  pose proof (Z.div_mod (Z.pos ma * 2 ^ 53) (Z.pos mb) ltac:(lia)) as Hqr.
  pose proof (Z.mod_pos_bound (Z.pos ma * 2 ^ 53) (Z.pos mb) ltac:(lia)) as Hr.
  fold q r in Hqr, Hr.
  change (2 ^ (53 - 1)) with (2 ^ 52) in *.
  assert (2 ^ 52 ≤ q < 2 ^ 54) as Hq.
  { assert (2 ^ 53 = 2 * 2 ^ 52) as H53 by (by vm_compute).
    assert (2 ^ 54 = 4 * 2 ^ 52) as H54 by (by vm_compute).
    assert (0 < 2 ^ 52) as Hpos by (by vm_compute).
    set (T := 2 ^ 52) in *. clearbody T. rewrite H53 in *. rewrite H54. nia. }
  destruct q as [|pq|pq] eqn:Hqe; [assert (0 < 2 ^ 52) by (by vm_compute); lia| |lia].
  set (e' := da - 53 - (db - 53) - 53).
  destruct (round_quotient pq e' (new_location (Z.pos mb) r)) as (n & -> & Hn);
    [done|unfold e'; lia|].
  f_equal.
  (* the quotient is that of [a * E] by [b] *)
  set (E := 2 ^ (- e')). set (sb := 2 ^ (53 - db)).
  assert (0 < sb) as Hsb by (apply Z.pow_pos_nonneg; lia).
  assert (2 ^ (53 - da) * 2 ^ 53 = E * sb) as Hsplit.
  { unfold E, sb, e'. rewrite <-!pow2_split by lia. f_equal. lia. }
  assert (E = 2 * 2 ^ (- e' - 1)) as Heven.
  { unfold E, e'. rewrite <-(Z.pow_succ_r 2) by lia. f_equal. lia. }
  assert (0 < 2 ^ (- e' - 1)) as Hhalf by (apply Z.pow_pos_nonneg; unfold e'; lia).
  assert (Z.pos pb < E) as HbE.
  { unfold E, e'. assert (2 ^ db ≤ 2 ^ (- (da - 53 - (db - 53) - 53)))
      by (apply Z.pow_le_mono_r; lia). lia. }
  assert (Z.pos pa * E = Z.pos pb * Z.pos pq + r / sb ∧ 0 ≤ r / sb < Z.pos pb)
    as [Hdiv Hrb].
  { assert (r = sb * (Z.pos pa * E - Z.pos pb * Z.pos pq)) as Hre.
    { rewrite Hma, Hmb in Hqr. fold sb in Hqr.
      replace (Z.pos pa * 2 ^ (53 - da) * 2 ^ 53)
        with (Z.pos pa * (2 ^ (53 - da) * 2 ^ 53)) in Hqr by lia.
      rewrite Hsplit in Hqr. lia. }
    assert (r / sb = Z.pos pa * E - Z.pos pb * Z.pos pq) as ->.
    { symmetry. apply Z.div_unique_exact; [lia|exact Hre]. }
    split; [lia|]. rewrite Hmb in Hr. fold sb in Hr. rewrite Hre in Hr. nia. }
  set (r' := r / sb) in *. clearbody r'.
  set (k := Z.pos pa / Z.pos pb).
  pose proof (Z.div_mod (Z.pos pa) (Z.pos pb) ltac:(lia)) as Hk.
  pose proof (Z.mod_pos_bound (Z.pos pa) (Z.pos pb) ltac:(lia)) as Hkb.
  fold k in Hk. set (rho := Z.pos pa mod Z.pos pb) in *. clearbody rho.
  assert (0 < E) as HE by lia.
  clearbody E k.
  assert (Z.pos pa * E = Z.pos pb * (k * E) + rho * E) as Hmul
    by (rewrite Hk at 1; ring).
  assert (0 ≤ rho * E) as Hlo by (apply Z.mul_nonneg_nonneg; lia).
  assert (rho * E < Z.pos pb * E) as Hhi by (apply Z.mul_lt_mono_pos_r; lia).
  assert (k * E ≤ Z.pos pq < (k + 1) * E) as Hqk.
  { split.
    - assert (k * E - 1 < Z.pos pq); [|lia].
      apply (Z.mul_lt_mono_pos_l (Z.pos pb)); lia.
    - apply (Z.mul_lt_mono_pos_l (Z.pos pb)); lia. }
  symmetry. apply (Z.div_unique_pos n E k (n - k * E)); [|lia].
  destruct Hn as [->|[->|[-> Hodd]]].
  - lia.
  - assert (Z.pos pq + 1 ≠ (k + 1) * E); [|lia].
    intros Heq.
    assert (Z.pos pb * Z.pos pq = Z.pos pb * ((k + 1) * E - 1)) as Hbq
      by (f_equal; lia).
    assert (E * (Z.pos pb - rho) = Z.pos pb - r') as Hc by lia.
    assert (E * 1 ≤ E * (Z.pos pb - rho)) by (apply Z.mul_le_mono_nonneg_l; lia).
    lia.
  - assert (Z.pos pq ≠ k * E); [|lia].
    intros Heq. rewrite Heven in Heq.
    assert (Z.odd (Z.pos pq) = false); [|congruence].
    rewrite Heq. replace (k * (2 * 2 ^ (- e' - 1))) with (2 * (k * 2 ^ (- e' - 1))) by lia.
    apply Z.odd_even.
Qed.

End Binary64.

(** ** Resizing *)

(** C4, as stated, fails: the shorter dimension is not rounded.  A 5 x 4
    image with a limit of 2 is resized to 2 x 1, where the scaled height
    is 8/5 and standard rounding gives 2; 1 is not a nearest integer to
    8/5 under any rule for halves. *)
Lemma resize_does_not_round :
  resize_decision 5 4 2 = Ok (Some (2, 1)%Z)
  ∧ spec_new_size 5 4 2 = (2, 2)%Z
  ∧ ¬ is_nearest_integer 1 (4 * 2) 5.
Proof.
  split; [by vm_compute|]. split; [by vm_compute|].
  unfold is_nearest_integer. by vm_compute.
Qed.

(** C4, amended. For an image of positive size and a positive limit (with
    the products below [2^53], where the floating-point quotient is exact
    enough), [optimize_image] resizes if and only if the larger of width
    and height exceeds the limit.  When it resizes, the larger dimension
    becomes exactly the limit and the shorter one is scaled by the same
    ratio and truncated toward zero: it is the integer quotient, within
    one pixel below the exact scaled value.  When both dimensions are at
    most the limit, the size is left as it is. *)
Theorem resize_truncates (width height max_size : Z) :
  (0 < width)%Z → (0 < height)%Z → (0 < max_size)%Z →
  (max_size * Z.max width height < 2 ^ 53)%Z →
  ((Z.max width height ≤ max_size)%Z ↔ resize_decision width height max_size = Ok None)
  ∧ ((max_size < Z.max width height)%Z →
     ∃ new_width new_height,
       resize_decision width height max_size = Ok (Some (new_width, new_height))
       ∧ Z.max new_width new_height = max_size
       ∧ ((height < width)%Z →
          new_width = max_size ∧ new_height = (height * max_size / width)%Z
          ∧ (new_height * width ≤ height * max_size < (new_height + 1) * width)%Z)
       ∧ ((width ≤ height)%Z →
          new_height = max_size ∧ new_width = (width * max_size / height)%Z
          ∧ (new_width * height ≤ width * max_size < (new_width + 1) * height)%Z)).
Proof.
  intros Hw Hh Hm Hbound.
  assert (width * max_size < 2 ^ 53 ∧ height * max_size < 2 ^ 53)%Z as [Hbw Hbh] by nia.
  assert (width < 2 ^ 53 ∧ height < 2 ^ 53)%Z as [Hw53 Hh53] by nia.
  assert (max_size < Z.max width height →
          ∃ new_width new_height,
            resize_decision width height max_size = Ok (Some (new_width, new_height))
            ∧ Z.max new_width new_height = max_size
            ∧ (height < width →
               new_width = max_size ∧ new_height = height * max_size / width
               ∧ new_height * width ≤ height * max_size < (new_height + 1) * width)
            ∧ (width ≤ height →
               new_height = max_size ∧ new_width = width * max_size / height
               ∧ new_width * height ≤ width * max_size < (new_width + 1) * height))%Z
    as Hresize.
  { intros Hgt. unfold resize_decision, new_size.
    assert ((Z.max width height >? max_size)%Z = true) as -> by lia.
    destruct (Z.gtb_spec width height) as [Hwh|Hwh].
    - rewrite int_truediv_floor by nia.
      pose proof (Z.div_mod (height * max_size) width ltac:(lia)) as Hdm.
      pose proof (Z.mod_pos_bound (height * max_size) width ltac:(lia)) as Hmb.
      assert (height * max_size / width ≤ max_size)%Z as Hle.
      { apply Z.div_le_upper_bound; nia. }
      eexists _, _. split; [done|]. split; [lia|]. split; [|lia].
      intros _. split; [done|]. split; [done|]. nia.
    - rewrite int_truediv_floor by nia.
      pose proof (Z.div_mod (width * max_size) height ltac:(lia)) as Hdm.
      pose proof (Z.mod_pos_bound (width * max_size) height ltac:(lia)) as Hmb.
      assert (width * max_size / height ≤ max_size)%Z as Hle.
      { apply Z.div_le_upper_bound; nia. }
      eexists _, _. split; [done|]. split; [lia|]. split; [lia|].
      intros _. split; [done|]. split; [done|]. nia. }
  split; [|done]. split.
  - intros Hle. unfold resize_decision.
    by assert ((Z.max width height >? max_size)%Z = false) as -> by lia.
  - intros Hnone. destruct (Z_lt_le_dec max_size (Z.max width height)) as [Hgt|]; [|done].
    destruct (Hresize Hgt) as (nw & nh & Hr & _). congruence.
Qed.

Lemma resize_truncates_witness :
  resize_decision 4000 3000 2400 = Ok (Some (2400, 1800)%Z).
Proof.
  destruct (resize_truncates 4000 3000 2400) as [_ H]; [lia|lia|lia|by vm_compute|].
  destruct H as (nw & nh & Hr & _ & Hwide & _); [lia|].
  destruct Hwide as (-> & -> & _); [lia|]. exact Hr.
Defined.

(** ** The display name *)

Lemma app_nil_l_s (s : string) : "" +:+ s = s.
Proof. reflexivity. Qed.



Lemma contains_char_app (x : ascii) (a b : string) :
  Path_ops.contains_char x (a +:+ b)
  = Path_ops.contains_char x a || Path_ops.contains_char x b.
Proof.
  induction a as [|c a IH]; [done|].
  rewrite app_cons_s. cbn [Path_ops.contains_char]. by rewrite IH, orb_assoc.
Qed.

Lemma contains_char_take (x : ascii) (k : nat) (s : string) :
  Path_ops.contains_char x s = false → Path_ops.contains_char x (Py.take k s) = false.
Proof.
  revert k. induction s as [|c s IH]; intros [|k]; try done.
  cbn [Py.take Path_ops.contains_char]. intros [-> H]%orb_false_elim.
  by rewrite IH.
Qed.

(** Replacing one character by another. *)
Lemma replace_char_len (c d : ascii) (s : string) :
  Py.len (Py.replace s (String c "") (String d "")) = Py.len s.
Proof.
  unfold Py.replace. induction s as [|a s IH]; [done|].
  cbn [Py.replace_scan Py.startswith].
  assert (Py.startswith s "" = true) as -> by (by destruct s).
  change (Py.len (String c "") - 1) with 0.
  destruct (bool_decide (c = a)); cbn [andb]; rewrite ?app_cons_s, ?app_nil_l_s;
    unfold Py.len in *; cbn; by rewrite IH.
Qed.

Lemma replace_char_absent (x c d : ascii) (s : string) :
  x ≠ d → (x = c ∨ Path_ops.contains_char x s = false) →
  Path_ops.contains_char x (Py.replace s (String c "") (String d "")) = false.
Proof.
  intros Hd. unfold Py.replace. induction s as [|a s IH]; intros Hx; [done|].
  cbn [Py.replace_scan Py.startswith].
  assert (x = c ∨ Path_ops.contains_char x s = false) as Hs.
  { destruct Hx as [->|Hx]; [by left|]. right.
    cbn [Path_ops.contains_char] in Hx. by apply orb_false_elim in Hx as [_ ?]. }
  destruct (decide (c = a)) as [->|Hca].
  - rewrite bool_decide_eq_true_2 by done.
    assert (Py.startswith s "" = true) as -> by (by destruct s).
    change (Py.len (String a "") - 1) with 0. cbn [andb].
    rewrite app_cons_s, app_nil_l_s. cbn [Path_ops.contains_char].
    rewrite bool_decide_eq_false_2 by done. by apply IH.
  - rewrite bool_decide_eq_false_2 by done. cbn [andb Path_ops.contains_char].
    rewrite IH by done. rewrite orb_false_r. apply bool_decide_eq_false_2.
    destruct Hx as [->|Hx]; [done|].
    cbn [Path_ops.contains_char] in Hx. apply orb_false_elim in Hx as [Hx _].
    by apply bool_decide_eq_false_1 in Hx.
Qed.



(** X2. The display name of a file name of ASCII characters is a body
    followed by spaces only, and the body holds no space, no tab and no
    path separator: the white space of the name itself is replaced, and
    only the filling at the end is left. *)
Theorem display_name_is_clean (filename : string) (fixed_length : Z) :
  ascii_only filename = true →
  ∃ body k,
    clean_filename_for_display filename fixed_length = body +:+ spaces k
    ∧ Path_ops.contains_char " " body = false
    ∧ Path_ops.contains_char tab body = false
    ∧ no_sep body.
Proof.
  intros _. unfold clean_filename_for_display, py_ljust.
  set (nm0 := Path.name (Path.of_str filename)).
  assert (no_sep nm0) as Hsep by (apply name_no_sep; by exists filename).
  set (nm := Py.replace (Py.replace nm0 " " "_") (String tab "") "_").
  assert (Path_ops.contains_char " " nm = false) as Hspace.
  { apply replace_char_absent; [done|]. right.
    apply replace_char_absent; [done|by left]. }
  assert (Path_ops.contains_char tab nm = false) as Htab.
  { apply replace_char_absent; [done|by left]. }
  assert (no_sep nm) as Hnm by (by repeat apply replace_no_sep).
  destruct (Z.of_nat (Py.len nm) >? fixed_length)%Z; eexists _, _;
    (split; [reflexivity|]); [|done].
  unfold no_sep in *. rewrite !contains_char_app.
  unfold py_slice_to. destruct (_ <? 0)%Z; by rewrite !contains_char_take.
Qed.

Lemma display_name_is_clean_witness :
  ∃ body k,
    clean_filename_for_display "albums/my holiday photo.jpeg" 30 = body +:+ spaces k
    ∧ Path_ops.contains_char " " body = false.
Proof.
  destruct (display_name_is_clean "albums/my holiday photo.jpeg" 30 eq_refl)
    as (body & k & H & Hs & _).
  by exists body, k.
Defined.

(** ** Validation of the command line *)

(** The conditions [validate_arguments] tests, in its order. *)
Lemma validate_arguments_cases (args : Namespace) (w : World) :
  let opts := options args in
  let target_path := Path.of_str (target_folder args) in
  let destination_base := Path.of_str (destination args) in
  validate_arguments args w
  = if bool_decide (processes opts < 1)%Z || bool_decide (processes opts > 16)%Z then
      (Raise "SystemExit",
       append_lines ["Error: Number of processes must be between 1 and 16 (got "
                       +:+ pretty (processes opts) +:+ ")"] w)
    else if negb (bool_decide (1 ≤ quality_arg opts)%Z
                  && bool_decide (quality_arg opts ≤ 100)%Z) then
      (Raise "SystemExit",
       append_lines ["Error: Quality must be between 1 and 100 (got "
                       +:+ pretty (quality_arg opts) +:+ ")"] w)
    else if bool_decide (max_size opts < 1)%Z then
      (Raise "SystemExit",
       append_lines ["Error: Max size must be positive (got "
                       +:+ pretty (max_size opts) +:+ ")"] w)
    else if skip_existing opts && negb (keep_names opts) then
      (Raise "SystemExit",
       append_lines
         ["Warning: --skip-existing only works with --keep-names flag";
          "Sequential naming can't reliably map existing files to source files"] w)
    else if match nodes w !! target_path with
            | Some (Directory _) => false
            | _ => true
            end then
      (Raise "SystemExit",
       append_lines ["Error: Target folder '" +:+ target_folder args
                       +:+ "' does not exist or is not a directory"] w)
    else if negb (bool_decide (is_Some (nodes w !! destination_base))) then
      (Raise "SystemExit",
       append_lines ["Error: Destination '" +:+ destination args
                       +:+ "' does not exist"] w)
    else
      (Ok (target_path, destination_base,
           (if bool_decide (format opts = webp) && bool_decide (quality_arg opts = 87)%Z
            then 82%Z else quality_arg opts),
           (if truthy_str (include args)
            then Some (list_to_set (map include_extension
                                      (py_split ","%char (default "" (include args)))))
            else None)), w).
Proof.
  cbn zeta. unfold validate_arguments.
  destruct (_ || _); [reflexivity|]. rewrite bind_ret.
  destruct (negb (_ && _)); [reflexivity|]. rewrite bind_ret.
  destruct (bool_decide (max_size _ < 1)%Z); [reflexivity|]. rewrite bind_ret.
  destruct (skip_existing _ && negb _).
  { rewrite bind_unfold, bind_print, bind_print.
    unfold sys_exit, raise, append_lines. cbn. by rewrite <-app_assoc. }
  rewrite bind_ret, bind_unfold. unfold exists_ at 1.
  destruct (nodes w !! Path.of_str (target_folder args)) as [[c|sz]|] eqn:Ht.
  - rewrite (bool_decide_eq_true_2 (is_Some _)) by (by eexists).
    rewrite bind_unfold. unfold is_dir.
    by rewrite Ht.
  - rewrite (bool_decide_eq_true_2 (is_Some _)) by (by eexists).
    rewrite bind_unfold. unfold is_dir.
    rewrite Ht. cbn [negb orb]. rewrite bind_ret, bind_unfold. unfold exists_.
    destruct (bool_decide (is_Some _)); [|reflexivity]. cbn [negb]. by rewrite bind_ret.
  - rewrite (bool_decide_eq_false_2 (is_Some _)) by (by intros [? ?]).
    by rewrite bind_ret.
Qed.

(** X3. [validate_arguments] accepts a command line exactly when the
    number of processes is between 1 and 16, the quality between 1 and
    100, the maximal size at least 1, [--skip-existing] comes with
    [--keep-names], the target folder is a directory and the destination
    exists.  It then returns the two paths parsed from the command line
    and leaves the world as it was, with nothing printed. *)
Theorem validation_accepts_valid_arguments (args : Namespace) (w : World) :
  (∃ quality include_extensions w',
     validate_arguments args w
     = (Ok (Path.of_str (target_folder args), Path.of_str (destination args),
            quality, include_extensions), w')
     ∧ w' = w)
  ↔ ((1 ≤ processes (options args) ≤ 16)%Z
     ∧ (1 ≤ quality_arg (options args) ≤ 100)%Z
     ∧ (1 ≤ max_size (options args))%Z
     ∧ (skip_existing (options args) = true → keep_names (options args) = true)
     ∧ (∃ st_size, nodes w !! Path.of_str (target_folder args) = Some (Directory st_size))
     ∧ is_Some (nodes w !! Path.of_str (destination args))).
Proof.
  cbn zeta. rewrite validate_arguments_cases. cbn zeta. split.
  - destruct (_ || _) eqn:H1; [by intros (q & inc & w' & H & _)|].
    apply orb_false_elim in H1 as [H1a H1b].
    apply bool_decide_eq_false_1 in H1a, H1b.
    destruct (negb (_ && _)) eqn:H2; [by intros (q & inc & w' & H & _)|].
    apply negb_false_iff, andb_prop in H2 as [H2a H2b].
    apply bool_decide_eq_true_1 in H2a, H2b.
    destruct (bool_decide (max_size _ < 1)%Z) eqn:H3; [by intros (q & inc & w' & H & _)|].
    apply bool_decide_eq_false_1 in H3.
    destruct (skip_existing _ && negb _) eqn:H4; [by intros (q & inc & w' & H & _)|].
    destruct (nodes w !! Path.of_str (target_folder args)) as [[c|sz]|];
      [by intros (q & inc & w' & H & _)| |by intros (q & inc & w' & H & _)].
    destruct (negb (bool_decide _)) eqn:H6; [by intros (q & inc & w' & H & _)|].
    apply negb_false_iff, bool_decide_eq_true_1 in H6. intros _.
    repeat split; try lia; try done.
    + intros Hs. rewrite Hs in H4. by destruct (keep_names _).
    + by exists sz.
  - intros (H1 & H2 & H3 & H4 & [sz H5] & H6).
    rewrite (bool_decide_eq_false_2 (processes _ < 1)%Z),
      (bool_decide_eq_false_2 (processes _ > 16)%Z),
      (bool_decide_eq_true_2 (1 ≤ quality_arg _)%Z),
      (bool_decide_eq_true_2 (quality_arg _ ≤ 100)%Z),
      (bool_decide_eq_false_2 (max_size _ < 1)%Z) by lia.
    cbn [orb andb negb].
    assert (skip_existing (options args) && negb (keep_names (options args)) = false)
      as ->.
    { destruct (skip_existing _); [|done]. by rewrite H4. }
    rewrite H5, (bool_decide_eq_true_2 (is_Some _)) by done. cbn [negb].
    by eexists _, _, _.
Qed.

Lemma validation_accepts_valid_arguments_witness :
  ∃ quality include_extensions w',
    validate_arguments webp_command_line folders_world
    = (Ok (["photos"], ["out"], quality, include_extensions), w')
    ∧ w' = folders_world.
Proof.
  apply (validation_accepts_valid_arguments webp_command_line folders_world).
  repeat split; try (vm_compute; congruence).
  - by exists 4096.
  - by eexists.
Defined.

(** X4. When [validate_arguments] exits ([SystemExit]) it has not changed
    the file system and has printed one message that begins with
    [Error: ] — except that, exactly when the three numbers are in range
    and [--skip-existing] comes without [--keep-names], it has printed
    the two lines of that warning instead. *)
Theorem validation_rejects_with_a_message (args : Namespace) (w w' : World) :
  validate_arguments args w = (Raise "SystemExit", w') →
  nodes w' = nodes w
  ∧ transformer_calls w' = transformer_calls w
  ∧ let warned :=
      ((1 ≤ processes (options args) ≤ 16)%Z
       ∧ (1 ≤ quality_arg (options args) ≤ 100)%Z
       ∧ (1 ≤ max_size (options args))%Z)
      ∧ skip_existing (options args) = true
      ∧ keep_names (options args) = false in
    (warned →
     stdout w'
     = stdout w
         ++ ["Warning: --skip-existing only works with --keep-names flag";
             "Sequential naming can't reliably map existing files to source files"])
    ∧ (¬ warned → ∃ message, stdout w' = stdout w ++ ["Error: " +:+ message]).
Proof.
  rewrite validate_arguments_cases. cbn zeta.
  assert (∀ (P : Prop) (message : string),
            ¬ P →
            (Raise "SystemExit", append_lines ["Error: " +:+ message] w)
            = (@Raise (Path * Path * Z * option (gset string)) "SystemExit", w') →
            nodes w' = nodes w ∧ transformer_calls w' = transformer_calls w
            ∧ (P → stdout w'
                   = stdout w
                       ++ ["Warning: --skip-existing only works with --keep-names flag";
                           "Sequential naming can't reliably map existing files to source files"])
            ∧ (¬ P → ∃ message, stdout w' = stdout w ++ ["Error: " +:+ message]))
    as Hexit.
  { intros P message HP [= <-]. repeat split; try done. intros _. by exists message. }
  destruct (_ || _) eqn:H1.
  { eapply Hexit. apply orb_true_iff in H1 as [H1%bool_decide_eq_true_1|H1%bool_decide_eq_true_1];
      intros [(? & ? & ?) _]; lia. }
  apply orb_false_elim in H1 as [H1a%bool_decide_eq_false_1 H1b%bool_decide_eq_false_1].
  destruct (negb (_ && _)) eqn:H2.
  { eapply Hexit. apply negb_true_iff, andb_false_iff in H2
      as [H2%bool_decide_eq_false_1|H2%bool_decide_eq_false_1];
      intros [(? & ? & ?) _]; lia. }
  apply negb_false_iff, andb_prop in H2 as [H2a%bool_decide_eq_true_1 H2b%bool_decide_eq_true_1].
  destruct (bool_decide (max_size _ < 1)%Z) eqn:H3.
  { eapply Hexit. apply bool_decide_eq_true_1 in H3. intros [(? & ? & ?) _]. lia. }
  apply bool_decide_eq_false_1 in H3.
  destruct (skip_existing _ && negb _) eqn:H4.
  { apply andb_prop in H4 as [H4a H4b%negb_true_iff].
    intros [= <-]. split; [done|]. split; [done|]. split; [done|].
    intros HP. exfalso. apply HP. repeat split; try done; lia. }
  assert (¬ (skip_existing (options args) = true ∧ keep_names (options args) = false))
    as Hnot.
  { intros [Ha Hb]. by rewrite Ha, Hb in H4. }
  destruct (nodes w !! Path.of_str (target_folder args)) as [[c|sz]|].
  - eapply Hexit. intros [_ ?]. by apply Hnot.
  - destruct (negb (bool_decide _)); [|done].
    eapply Hexit. intros [_ ?]. by apply Hnot.
  - eapply Hexit. intros [_ ?]. by apply Hnot.
Qed.

Lemma validation_rejects_with_a_message_witness :
  ∃ message,
    stdout (validate_arguments
              (mkNamespace four_processes "photos" "out" None) empty_world).2
    = ["Error: " +:+ message].
Proof.
  destruct (validation_rejects_with_a_message
              (mkNamespace four_processes "photos" "out" None) empty_world
              (validate_arguments
                 (mkNamespace four_processes "photos" "out" None) empty_world).2)
    as (_ & _ & _ & Herror).
  - vm_compute. reflexivity.
  - apply Herror. intros (_ & _ & Hkeep). discriminate Hkeep.
Defined.

(** X5. The quality [validate_arguments] returns is the one given, except
    that for WebP a quality of 87 becomes 82, whether 87 was given on the
    command line or is the default: for WebP the returned quality is
    never 87.  It is always between 1 and 100. *)
Theorem webp_quality_87_becomes_82 (args : Namespace) (w w' : World)
    (target_path destination_base : Path) (quality : Z)
    (include_extensions : option (gset string)) :
  validate_arguments args w
  = (Ok (target_path, destination_base, quality, include_extensions), w') →
  (1 ≤ quality ≤ 100)%Z
  ∧ (format (options args) = jpg → quality = quality_arg (options args))
  ∧ (format (options args) = webp →
     quality ≠ 87%Z
     ∧ (quality_arg (options args) = 87%Z → quality = 82%Z)
     ∧ (quality_arg (options args) ≠ 87%Z → quality = quality_arg (options args))).
Proof.
  rewrite validate_arguments_cases. cbn zeta.
  destruct (_ || _); [done|].
  destruct (negb (_ && _)) eqn:H2; [done|].
  apply negb_false_iff, andb_prop in H2 as [H2a H2b].
  apply bool_decide_eq_true_1 in H2a, H2b.
  destruct (bool_decide (max_size _ < 1)%Z); [done|].
  destruct (skip_existing _ && negb _); [done|].
  destruct (nodes w !! Path.of_str (target_folder args)) as [[c|sz]|]; [done| |done].
  destruct (negb (bool_decide _)); [done|].
  intros [= _ _ <- _ _].
  destruct (format (options args)); cbn [bool_decide andb];
    [rewrite bool_decide_eq_false_2 by done|rewrite bool_decide_eq_true_2 by done];
    cbn [andb]; (split; [|split]); try done; try lia.
  - case_bool_decide; lia.
  - intros _. case_bool_decide; [|done]. split; [lia|]. split; [done|]. lia.
Qed.

Lemma webp_quality_87_becomes_82_witness :
  (1 ≤ 82 ≤ 100)%Z ∧ (82 ≠ 87)%Z.
Proof.
  destruct (webp_quality_87_becomes_82 webp_command_line folders_world folders_world
              ["photos"] ["out"] 82 (Some (list_to_set [".jpg"; ".png"])))
    as (Hr & _ & Hw).
  - vm_compute. reflexivity.
  - split; [exact Hr|]. exact (proj1 (Hw eq_refl)).
Defined.

(** The include filter *)

Lemma py_split_nonempty (sep : ascii) (s : string) : py_split sep s ≠ [].
Proof.
  destruct s as [|c s]; [done|]. cbn [py_split].
  destruct (bool_decide _); [done|]. by destruct (py_split sep s).
Qed.

Lemma lstrip_start (drop : ascii → bool) (s : string) :
  match py_lstrip drop s with
  | String c _ => drop c = false
  | "" => True
  end.
Proof.
  induction s as [|c s IH]; [done|]. cbn [py_lstrip].
  by destruct (drop c) eqn:Hc.
Qed.

Lemma lower_char_idem (c : ascii) : Py.lower_char (Py.lower_char c) = Py.lower_char c.
Proof. by destruct c as [[] [] [] [] [] [] [] []]. Qed.

Lemma lower_idem (s : string) : Py.lower (Py.lower s) = Py.lower s.
Proof.
  induction s as [|c s IH]; [done|]. cbn [Py.lower]. by rewrite lower_char_idem, IH.
Qed.

Lemma lower_lstrip (drop : ascii → bool) (s : string) :
  Py.lower s = s → Py.lower (py_lstrip drop s) = py_lstrip drop s.
Proof.
  induction s as [|c s IH]; [done|]. cbn [py_lstrip]. intros Hs.
  destruct (drop c); [|done]. apply IH. cbn [Py.lower] in Hs. congruence.
Qed.

(** X22. The include filter [validate_arguments] returns: none when
    [--include] is absent or empty; otherwise a set that is never empty,
    each of whose members is a dot followed by a lower-case string that
    does not begin with a dot, whatever dots, capitals and surrounding
    spaces the command line had. *)
Theorem include_filter_is_normalised (args : Namespace) (w w' : World)
    (target_path destination_base : Path) (quality : Z)
    (include_extensions : option (gset string)) :
  validate_arguments args w
  = (Ok (target_path, destination_base, quality, include_extensions), w') →
  (∀ s, include args = Some s → ascii_only s = true) →
  (include_extensions = None ↔ include args = None ∨ include args = Some "")
  ∧ ∀ exts, include_extensions = Some exts →
      truthy (Some exts) = true
      ∧ ∀ x, x ∈ exts →
          ∃ r, x = "." +:+ r ∧ Py.startswith r "." = false ∧ Py.lower r = r.
Proof.
  rewrite validate_arguments_cases. cbn zeta.
  destruct (_ || _); [done|].
  destruct (negb (_ && _)); [done|].
  destruct (bool_decide (max_size _ < 1)%Z); [done|].
  destruct (skip_existing _ && negb _); [done|].
  destruct (nodes w !! Path.of_str (target_folder args)) as [[c|sz]|]; [done| |done].
  destruct (negb (bool_decide _)); [done|].
  intros [= _ _ _ <- _] _. split.
  - destruct (include args) as [[|c s]|]; cbn; split; try done; auto.
    intros [|]; done.
  - intros exts Hexts.
    destruct (truthy_str (include args)); [|done]. injection Hexts as <-.
    set (l := py_split "," (default "" (include args))).
    split.
    + cbn [truthy]. rewrite bool_decide_eq_false_2; [done|].
      pose proof (py_split_nonempty "," (default "" (include args))) as Hne.
      fold l in Hne. destruct l as [|y l']; [done|]. intros Hempty.
      assert (include_extension y ∈ (∅ : gset string)) as Hin.
      { rewrite <-Hempty. apply elem_of_list_to_set. by left. }
      by apply not_elem_of_empty in Hin.
    + intros x Hx. apply elem_of_list_to_set, list_elem_of_fmap in Hx as (ext & -> & _).
      unfold include_extension. eexists. split; [reflexivity|]. split.
      * pose proof (lstrip_start (λ c, bool_decide (c = "."%char))
                      (Py.lower (py_strip ext))) as Hs.
        destruct (py_lstrip _ _) as [|c r]; [done|]. cbn [Py.startswith].
        apply bool_decide_eq_false_1 in Hs.
        rewrite bool_decide_eq_false_2 by (intros Heq; by apply Hs). done.
      * apply lower_lstrip, lower_idem.
Qed.

Lemma include_filter_is_normalised_witness :
  ∃ r, ".jpg" = "." +:+ r ∧ Py.startswith r "." = false ∧ Py.lower r = r.
Proof.
  destruct (include_filter_is_normalised webp_command_line folders_world folders_world
              ["photos"] ["out"] 82 (Some (list_to_set [".jpg"; ".png"])))
    as [_ Hexts].
  - vm_compute. reflexivity.
  - intros s [= <-]. reflexivity.
  - apply (proj2 (Hexts _ eq_refl) ".jpg"). apply elem_of_list_to_set. by left.
Defined.

(** ** The transformer and the worker, step by step *)

Lemma adds_directories_refl (w : World) : adds_directories w w.
Proof. intros p. destruct (nodes w !! p); auto. Qed.

Lemma adds_directories_trans (w1 w2 w3 : World) :
  adds_directories w1 w2 → adds_directories w2 w3 → adds_directories w1 w3.
Proof.
  intros H1 H2 p. specialize (H1 p). specialize (H2 p).
  destruct (nodes w1 !! p) as [n|].
  - by rewrite H1 in H2.
  - destruct H1 as [H1|[sz H1]]; rewrite H1 in H2; [done|]. right. by exists sz.
Qed.

Lemma mkdir_one_adds (l : list Path) :
  ∀ m p,
    match m !! p with
    | Some n => foldl mkdir_one m l !! p = Some n
    | None => foldl mkdir_one m l !! p = None
              ∨ ∃ sz, foldl mkdir_one m l !! p = Some (Directory sz)
    end.
Proof.
  induction l as [|a l IH]; intros m p; cbn [foldl].
  - destruct (m !! p); auto.
  - specialize (IH (mkdir_one m a) p). unfold mkdir_one in *.
    destruct (m !! a) as [na|] eqn:Ha; [done|].
    destruct (decide (a = p)) as [->|Hne].
    + rewrite Ha. rewrite lookup_insert_eq in IH. right. by eexists.
    + by rewrite lookup_insert_ne in IH.
Qed.

Lemma mkdir_p_adds (p : Path) (w w' : World) (r : result ()) :
  mkdir_p p w = (r, w') →
  adds_directories w w' ∧ stdout w' = stdout w
  ∧ transformer_calls w' = transformer_calls w.
Proof.
  unfold mkdir_p. destruct (existsb _ _); intros [= <- <-].
  - split; [apply adds_directories_refl|done].
  - split; [|done]. intros q. cbn [nodes]. apply mkdir_one_adds.
Qed.

Lemma startswith_app (a b : string) : Py.startswith (a +:+ b) a = true.
Proof.
  induction a as [|c a IH]; [by destruct b|].
  rewrite app_cons_s. cbn [Py.startswith]. by rewrite bool_decide_eq_true_2, IH.
Qed.

Lemma stat_size_Some (p : Path) (w : World) (n : node) :
  nodes w !! p = Some n → stat_size p w = (Ok (node_size n), w).
Proof. intros H. unfold stat_size. by rewrite H. Qed.

Lemma stat_size_None (p : Path) (w : World) :
  nodes w !! p = None → stat_size p w = (Raise "FileNotFoundError", w).
Proof. intros H. unfold stat_size. by rewrite H. Qed.

Section Steps.

Context `{pil : PIL}.

(** What a call of [optimize_image] does: it records the call, and then
    either reports an error in one line and returns [False], or leaves
    the encoded image in a regular file at the output path and returns
    [True]. *)
Lemma optimize_image_run (input : string) (out : Path) (max_size quality : Z)
    (fmt : Format) (w : World) :
  ∃ w1,
    stdout w1 = stdout w
    ∧ transformer_calls w1 = transformer_calls w ++ [(input, out)]
    ∧ ((∃ e, optimize_image input out max_size quality fmt w
             = (Ok false,
                append_lines ["Error processing " +:+ input +:+ ": " +:+ e] w1))
       ∨ (∃ img encoded,
            image_save img fmt quality = Saved encoded
            ∧ nodes w1 !! out = Some (RegularFile encoded)
            ∧ optimize_image input out max_size quality fmt w = (Ok true, w1))).
Proof.
  set (G := λ res : result bool * World,
         ∃ w1, stdout w1 = stdout w
               ∧ transformer_calls w1 = transformer_calls w ++ [(input, out)]
               ∧ ((∃ e, res = (Ok false,
                               append_lines ["Error processing " +:+ input +:+ ": " +:+ e]
                                 w1))
                  ∨ (∃ img encoded,
                       image_save img fmt quality = Saved encoded
                       ∧ nodes w1 !! out = Some (RegularFile encoded)
                       ∧ res = (Ok true, w1)))).
  change (G (optimize_image input out max_size quality fmt w)).
  unfold optimize_image. rewrite bind_unfold. unfold record_call at 1.
  set (w0 := mkWorld (nodes w) (stdout w) (transformer_calls w ++ [(input, out)])).
  set (h := λ e : string,
         print ("Error processing " +:+ input +:+ ": " +:+ e);; mret false).
  assert (∀ (e : string) (w1 : World),
            stdout w1 = stdout w →
            transformer_calls w1 = transformer_calls w ++ [(input, out)] →
            G (h e w1)) as Hfail.
  { intros e w1 Hs Hc. exists w1. repeat split; try done. left. exists e.
    unfold h. by rewrite bind_print. }
  assert (∀ (content : list Byte.byte) (w1 : World),
            stdout (write_file out content w1).2 = stdout w1
            ∧ transformer_calls (write_file out content w1).2 = transformer_calls w1)
    as Hwrite.
  { intros content w1. unfold write_file. by destruct (nodes w1 !! out) as [[c|sz]|]. }
  assert (∀ img3 : Image,
            G (try_except
                 (mkdir_p (Path.parent out);;
                  save_image img3 out fmt quality;; mret true) h w0)) as Htail.
  { intros img3. rewrite try_except_bind.
    destruct (mkdir_p (Path.parent out) w0) as [[[]|e] w1] eqn:Hmk;
      apply mkdir_p_adds in Hmk as (_ & Hs & Hc).
    all: change (stdout w0) with (stdout w) in Hs.
    all: change (transformer_calls w0)
           with (transformer_calls w ++ [(input, out)]) in Hc.
    2: by apply Hfail.
    rewrite try_except_bind. unfold save_image at 1.
    destruct (image_save img3 fmt quality) as [encoded|e [written|]] eqn:Hsave.
    - unfold write_file at 1.
      destruct (nodes w1 !! out) as [[c|sz]|]; [|by apply Hfail|];
        (eexists; split; [|split; [|right; exists img3, encoded;
                                    split; [done|split; [|reflexivity]]]];
         [done|done|cbn [nodes]; apply lookup_insert_eq]).
    - destruct (Hwrite written w1) as [Hs' Hc'].
      destruct (nodes w1 !! out) as [[c|sz]|]; [| |destruct save_removes_created];
        apply Hfail; congruence.
    - by apply Hfail. }
  assert (∀ img2 : Image,
            G (try_except
                 (let '(width, height) := image_size img2 in
                  decision ← lift (resize_decision width height max_size);
                  img ← match decision with
                        | Some sz => lift (image_resize img2 sz)
                        | None => mret img2
                        end;
                  mkdir_p (Path.parent out);;
                  save_image img out fmt quality;; mret true) h w0)) as Hsize.
  { intros img2. destruct (image_size img2) as [width height].
    rewrite try_except_bind. unfold lift at 1.
    destruct (resize_decision width height max_size) as [decision|e];
      [|by apply Hfail].
    rewrite try_except_bind. destruct decision as [sz|]; [|by apply Htail].
    unfold lift at 1. destruct (image_resize img2 sz) as [img3|e];
      [by apply Htail|by apply Hfail]. }
  fold h. rewrite try_except_bind. unfold read_file at 1.
  destruct (nodes w0 !! Path.of_str input) as [[content|sz]|]; [|by apply Hfail..].
  rewrite try_except_bind. unfold lift at 1.
  destruct (image_decode content) as [img0|e]; [|by apply Hfail].
  rewrite try_except_bind.
  assert (∃ img1, try_except (lift (exif_transpose img0)) (λ _, mret img0) w0
                  = (Ok img1, w0)) as [img1 ->].
  { unfold try_except, lift. destruct (exif_transpose img0); by eexists. }
  rewrite try_except_bind.
  destruct (mode_is_RGB img1); [by apply Hsize|].
  unfold lift at 1. destruct (convert_RGB img1) as [img2|e];
    [by apply Hsize|by apply Hfail].
Qed.

(** What a worker does, by the state of its input and output files. *)
Lemma process_single_image_run (task : Task) (w : World) :
  match nodes w !! Path.of_str (input_path task) with
  | None =>
      ∃ e, e ≠ ""
           ∧ process_single_image task w
             = (Ok (mkResult false (input_path task) (Some e) 0 0 false), w)
  | Some n_in =>
      if task_skip_existing task
         && bool_decide (is_Some (nodes w !! output_path task)) then
        ∃ n_out,
          nodes w !! output_path task = Some n_out
          ∧ process_single_image task w
            = (Ok (mkResult true (input_path task) None (node_size n_in)
                     (node_size n_out) true), w)
      else
        ∃ w1,
          stdout w1 = stdout w
          ∧ transformer_calls w1 = transformer_calls w ++ [call_of task]
          ∧ ((∃ e, process_single_image task w
                   = (Ok (mkResult false (input_path task) (Some "Processing failed")
                            (node_size n_in) 0 false),
                      append_lines
                        ["Error processing " +:+ input_path task +:+ ": " +:+ e] w1))
             ∨ (∃ encoded,
                  nodes w1 !! output_path task = Some (RegularFile encoded)
                  ∧ process_single_image task w
                    = (Ok (mkResult true (input_path task) None (node_size n_in)
                             (length encoded) false), w1)))
  end.
Proof.
  unfold process_single_image. rewrite try_except_bind.
  destruct (nodes w !! Path.of_str (input_path task)) as [n_in|] eqn:Hin.
  2: { exists "FileNotFoundError". split; [done|].
       rewrite (stat_size_None _ _ Hin). cbv beta iota.
       rewrite bind_unfold. unfold try_except. by rewrite (stat_size_None _ _ Hin). }
  rewrite (stat_size_Some _ _ _ Hin). rewrite try_except_bind.
  assert ((if task_skip_existing task then exists_ (output_path task) else mret false) w
          = (Ok (task_skip_existing task
                 && bool_decide (is_Some (nodes w !! output_path task))), w)) as ->.
  { by destruct (task_skip_existing task). }
  destruct (task_skip_existing task && _) eqn:Hskip.
  - apply andb_prop in Hskip as [_ [n_out Hout]%bool_decide_eq_true_1].
    exists n_out. split; [done|].
    rewrite try_except_bind. by rewrite (stat_size_Some _ _ _ Hout).
  - rewrite try_except_bind.
    destruct (optimize_image_run (input_path task) (output_path task)
                (task_max_size task) (task_quality task) (output_format task) w)
      as (w1 & Hs & Hc & [[e ->]|(img & encoded & _ & Hout & ->)]);
      exists w1; (split; [done|]); (split; [done|]).
    + left. by exists e.
    + right. exists encoded. split; [done|]. rewrite try_except_bind.
      unfold exists_ at 1. rewrite Hout.
      rewrite bool_decide_eq_true_2 by (by eexists).
      rewrite try_except_bind.
      by rewrite (stat_size_Some _ _ _ Hout).
Qed.

End Steps.

(** ** The transformer and the worker *)

Section WorkerProperties.

Context `{pil : PIL}.

(** X6. [optimize_image] never raises.  It records one call, and either
    returns [True], having printed nothing, with the encoded image in a
    regular file at the output path, or returns [False], having printed
    exactly one line, [Error processing <input>: ...]. *)
Theorem transformer_writes_or_reports (input : string) (out : Path)
    (max_size quality : Z) (fmt : Format) (w : World) :
  ∃ b w',
    optimize_image input out max_size quality fmt w = (Ok b, w')
    ∧ transformer_calls w' = transformer_calls w ++ [(input, out)]
    ∧ if b
      then stdout w' = stdout w
           ∧ ∃ img encoded,
               image_save img fmt quality = Saved encoded
               ∧ nodes w' !! out = Some (RegularFile encoded)
      else ∃ e, stdout w' = stdout w ++ ["Error processing " +:+ input +:+ ": " +:+ e].
Proof.
  destruct (optimize_image_run input out max_size quality fmt w)
    as (w1 & Hs & Hc & [[e ->]|(img & encoded & Hsave & Hout & ->)]); eexists _, _;
    (split; [reflexivity|]); cbn [transformer_calls append_lines nodes stdout].
  - split; [done|]. exists e. by rewrite Hs.
  - split; [done|]. split; [done|]. by exists img, encoded.
Qed.

End WorkerProperties.

(** A save that fails after the output file has been opened leaves a file
    that was there before empty; the input is not the cause: the same
    call with the working encoder writes the image. *)
Example failed_save_empties_output :
  optimize_image (pil := failing_encoder) "photos/a.jpg" ["dest"; "photos"; "a.jpg"]
    2 87 jpg small_world
  = (Ok false,
     mkWorld
       (<[ ["dest"; "photos"; "a.jpg"] := RegularFile [] ]>
          (<[ ["dest"; "photos"] := Directory new_dir_size ]>
             (<[ ["dest"] := Directory new_dir_size ]> (nodes small_world))))
       ["Error processing photos/a.jpg: encoder error"]
       [("photos/a.jpg", ["dest"; "photos"; "a.jpg"])]).
Proof. by vm_compute. Qed.

Section WorkerOutcomes.

Context `{pil : PIL}.

(** X8. The sizes a worker reports for a task that succeeded or was
    skipped are sizes of files: the input size is that of the input file
    before the call, the output size is that of the node found at the
    output path after it, and no error message is given. *)
Theorem success_reports_file_sizes (task : Task) (w w' : World) (r : WorkerResult) :
  process_single_image task w = (Ok r, w') →
  success r = true →
  ∃ n_in n_out,
    nodes w !! Path.of_str (input_path task) = Some n_in
    ∧ input_size r = node_size n_in
    ∧ nodes w' !! output_path task = Some n_out
    ∧ output_size r = node_size n_out
    ∧ error_message r = None
    ∧ result_input_path r = input_path task.
Proof.
  intros H Hok. pose proof (process_single_image_run task w) as Hrun.
  destruct (nodes w !! Path.of_str (input_path task)) as [n_in|] eqn:Hin.
  - destruct (task_skip_existing task && _).
    + destruct Hrun as (n_out & Hout & Hrun). rewrite Hrun in H.
      injection H as <- <-. by exists n_in, n_out.
    + destruct Hrun as (w1 & _ & _ & [[e Hrun]|(encoded & Hout & Hrun)]);
        rewrite Hrun in H; injection H as <- <-; [done|].
      by exists n_in, (RegularFile encoded).
  - destruct Hrun as (e & _ & Hrun). rewrite Hrun in H. by injection H as <- <-.
Qed.

(** X9. A task whose input file does not exist fails without effect: the
    worker returns a failure with an error message and both sizes 0, it
    does not call the transformer, prints nothing and leaves the file
    system as it was. *)
Theorem missing_input_fails_without_effect (task : Task) (w : World) :
  nodes w !! Path.of_str (input_path task) = None →
  ∃ e, e ≠ ""
       ∧ process_single_image task w
         = (Ok (mkResult false (input_path task) (Some e) 0 0 false), w).
Proof.
  intros Hin. pose proof (process_single_image_run task w) as Hrun.
  by rewrite Hin in Hrun.
Qed.

(** X10. A worker calls the transformer at most once, and exactly when
    the input file exists and the task is not skipped; the task is
    skipped exactly when the input file exists, [skip_existing] is set
    and there is a node at the output path. *)
Theorem transformer_called_unless_skipped (task : Task) (w : World) :
  let readable := bool_decide (is_Some (nodes w !! Path.of_str (input_path task))) in
  let skip := task_skip_existing task
              && bool_decide (is_Some (nodes w !! output_path task)) in
  ∃ r w',
    process_single_image task w = (Ok r, w')
    ∧ skipped r = readable && skip
    ∧ transformer_calls w'
      = transformer_calls w ++ (if readable && negb skip then [call_of task] else []).
Proof.
  cbn zeta. pose proof (process_single_image_run task w) as Hrun.
  destruct (nodes w !! Path.of_str (input_path task)) as [n_in|] eqn:Hin.
  - rewrite bool_decide_eq_true_2 by done. cbn [andb].
    destruct (task_skip_existing task && _).
    + destruct Hrun as (n_out & _ & ->). eexists _, _. split; [done|].
      cbn [negb]. by rewrite app_nil_r.
    + destruct Hrun as (w1 & _ & Hc & [[e ->]|(encoded & _ & ->)]);
        eexists _, _; (split; [done|]); by cbn.
  - rewrite bool_decide_eq_false_2 by (by intros [? ?]). cbn [andb].
    destruct Hrun as (e & _ & ->). eexists _, _. split; [done|].
    by rewrite app_nil_r.
Qed.

End WorkerOutcomes.

Lemma success_reports_file_sizes_witness :
  ∃ n_in n_out,
    nodes small_world !! ["photos"; "a.jpg"] = Some n_in
    ∧ node_size n_in = 3
    ∧ nodes small_world !! ["dest"; "photos"; "a.jpg"] = Some n_out
    ∧ node_size n_out = 2.
Proof.
  destruct (success_reports_file_sizes (pil := toy_pil) skip_task small_world small_world
              (mkResult true "photos/a.jpg" None 3 2 true))
    as (n_in & n_out & Hin & Hsz & Hout & Hosz & _).
  - vm_compute. reflexivity.
  - reflexivity.
  - exists n_in, n_out. repeat split; [exact Hin|by rewrite <-Hsz|exact Hout|by rewrite <-Hosz].
Defined.

Lemma missing_input_fails_without_effect_witness :
  ∃ e, e ≠ ""
       ∧ process_single_image (pil := toy_pil) skip_task empty_world
         = (Ok (mkResult false "photos/a.jpg" (Some e) 0 0 false), empty_world).
Proof.
  apply (missing_input_fails_without_effect (pil := toy_pil) skip_task empty_world).
  vm_compute. reflexivity.
Defined.

(** ** The single-process run *)

Section SequentialRun.

Context `{pil : PIL} `{pool : ProcessPool}.

(** One turn of the loop: the worker, then the totals. *)
Lemma sequential_step (task : Task) (st : RunStats) (w : World) :
  ∃ r w1 st' w2 lines calls,
    process_single_image task w = (Ok r, w1)
    ∧ fold_result (input_path task) st r w1 = (Ok st', w2)
    ∧ stdout w2 = stdout w ++ lines
    ∧ Forall error_line lines
    ∧ failed st ≤ failed st'
    ∧ failed st' - failed st ≤ length lines ≤ 2 * (failed st' - failed st)
    ∧ transformer_calls w2 = transformer_calls w ++ calls
    ∧ calls `sublist_of` [call_of task].
Proof.
  pose proof (process_single_image_run task w) as Hrun.
  destruct (nodes w !! Path.of_str (input_path task)) as [n_in|] eqn:Hin.
  - destruct (task_skip_existing task && _).
    + destruct Hrun as (n_out & _ & Hrun).
      eexists _, w, _, w, [], []. split; [exact Hrun|].
      split; [reflexivity|]. cbn. rewrite !app_nil_r.
      repeat split; try done; try lia.
      apply sublist_nil_l.
    + destruct Hrun as (w1 & Hs & Hc & [[e Hrun]|(encoded & _ & Hrun)]).
      * eexists _, _, _, _,
          ["Error processing " +:+ input_path task +:+ ": " +:+ e;
           "Error processing " +:+ input_path task +:+ ": " +:+ "Processing failed"],
          [call_of task].
        split; [exact Hrun|]. split; [reflexivity|].
        cbn [stdout nodes transformer_calls append_lines failed].
        rewrite Hs, Hc, <-app_assoc.
        repeat split; try done; try (cbn; lia).
        repeat constructor; apply startswith_app.
      * eexists _, _, _, _, [], [call_of task].
        split; [exact Hrun|]. split; [reflexivity|].
        cbn [stdout nodes transformer_calls failed]. rewrite Hs, Hc, app_nil_r.
        repeat split; try done; try (cbn; lia).
  - destruct Hrun as (e & He & Hrun).
    eexists _, w, _, _, ["Error processing " +:+ input_path task +:+ ": " +:+ e], [].
    split; [exact Hrun|]. split.
    { unfold fold_result. cbn [skipped success error_message truthy_str].
      rewrite bool_decide_eq_false_2 by done. cbn [negb].
      rewrite bind_print. reflexivity. }
    cbn [stdout nodes transformer_calls failed]. rewrite app_nil_r.
    repeat split; try done; try (cbn; lia).
    + repeat constructor. apply startswith_app.
    + apply sublist_nil_l.
Qed.

(** The whole loop. *)
Lemma run_sequential_trace (task_args : list Task) :
  ∀ st w, ∃ st' w' lines calls,
    run_sequential task_args st w = (Ok st', w')
    ∧ stdout w' = stdout w ++ lines
    ∧ Forall error_line lines
    ∧ failed st ≤ failed st'
    ∧ failed st' - failed st ≤ length lines ≤ 2 * (failed st' - failed st)
    ∧ transformer_calls w' = transformer_calls w ++ calls
    ∧ calls `sublist_of` map call_of task_args.
Proof.
  induction task_args as [|task rest IH]; intros st w.
  - exists st, w, [], []. cbn. rewrite !app_nil_r.
    repeat split; try done; lia.
  - destruct (sequential_step task st w)
      as (r & w1 & st1 & w2 & l1 & c1 & Hp & Hf & Hs1 & He1 & Hm1 & Hb1 & Hc1 & Hsub1).
    destruct (IH st1 w2)
      as (st' & w' & l2 & c2 & Hr & Hs2 & He2 & Hm2 & Hb2 & Hc2 & Hsub2).
    exists st', w', (l1 ++ l2), (c1 ++ c2).
    split.
    { cbn [run_sequential]. rewrite bind_unfold, Hp, bind_unfold, Hf. exact Hr. }
    split; [by rewrite Hs2, Hs1, app_assoc|].
    split; [by apply Forall_app|].
    split; [lia|]. rewrite length_app. split; [lia|].
    split; [by rewrite Hc2, Hc1, app_assoc|].
    change (map call_of (task :: rest)) with ([call_of task] ++ map call_of rest).
    by apply sublist_app.
Qed.

(** X11. With one process, the only lines printed while the images are
    processed are error lines, each beginning with [Error processing]; a
    failed task gives one such line, or two when it is the transformer
    that failed, and a task that succeeded or was skipped gives none. *)
Theorem sequential_run_prints_only_errors (task_args : list Task) (args : Args)
    (w : World) :
  processes args = 1%Z →
  ∃ st w' lines,
    process_images_with_progress task_args args w = (Ok st, w')
    ∧ stdout w' = stdout w ++ lines
    ∧ Forall error_line lines
    ∧ failed st ≤ length lines ≤ 2 * failed st.
Proof.
  intros Hone. unfold process_images_with_progress.
  case_bool_decide as Hnil.
  - exists no_stats, w, []. rewrite app_nil_r. cbn. repeat split; try done; lia.
  - rewrite bool_decide_eq_true_2 by done.
    destruct (run_sequential_trace task_args no_stats w)
      as (st & w' & lines & calls & Hr & Hs & He & _ & Hb & _).
    exists st, w', lines. cbn [failed no_stats] in Hb.
    repeat split; try done; lia.
Qed.

(** X12. With one process, the transformer is called at most once for
    each task, in the order of the task list: the calls made are a
    sub-sequence of the tasks' input and output paths. *)
Theorem sequential_run_calls_in_task_order (task_args : list Task) (args : Args)
    (w : World) :
  processes args = 1%Z →
  ∃ st w' calls,
    process_images_with_progress task_args args w = (Ok st, w')
    ∧ transformer_calls w' = transformer_calls w ++ calls
    ∧ calls `sublist_of` map call_of task_args.
Proof.
  intros Hone. unfold process_images_with_progress.
  case_bool_decide as Hnil.
  - exists no_stats, w, []. rewrite app_nil_r. repeat split; try done.
    apply sublist_nil_l.
  - rewrite bool_decide_eq_true_2 by done.
    destruct (run_sequential_trace task_args no_stats w)
      as (st & w' & lines & calls & Hr & _ & _ & _ & _ & Hc & Hsub).
    by exists st, w', calls.
Qed.

End SequentialRun.

Lemma sequential_run_prints_only_errors_witness :
  ∃ st w' lines,
    process_images_with_progress (pil := toy_pil) (pool := toy_pool)
      [skip_task; fresh_task] default_args small_world = (Ok st, w')
    ∧ stdout w' = stdout small_world ++ lines
    ∧ failed st ≤ length lines ≤ 2 * failed st.
Proof.
  destruct (sequential_run_prints_only_errors (pil := toy_pil) (pool := toy_pool)
              [skip_task; fresh_task] default_args small_world eq_refl)
    as (st & w' & lines & H & Hs & _ & Hb).
  by exists st, w', lines.
Defined.

Lemma sequential_run_calls_in_task_order_witness :
  ∃ st w' calls,
    process_images_with_progress (pil := toy_pil) (pool := toy_pool)
      [skip_task; fresh_task] default_args small_world = (Ok st, w')
    ∧ transformer_calls w' = transformer_calls small_world ++ calls
    ∧ calls `sublist_of` [call_of skip_task; call_of fresh_task].
Proof.
  exact (sequential_run_calls_in_task_order (pil := toy_pil) (pool := toy_pool)
           [skip_task; fresh_task] default_args small_world eq_refl).
Defined.

(** ** The destination folder *)

Lemma mkdir_one_present (l : list Path) :
  ∀ m a, a ∈ l → is_Some (foldl mkdir_one m l !! a).
Proof.
  induction l as [|x l IH]; intros m a Hin; [by apply elem_of_nil in Hin|].
  cbn [foldl]. apply elem_of_cons in Hin as [->|Hin]; [|by apply IH].
  assert (is_Some (mkdir_one m x !! x)) as [n Hn].
  { unfold mkdir_one. destruct (m !! x) as [n|] eqn:Hx.
    - by rewrite Hx.
    - by rewrite lookup_insert_eq. }
  pose proof (mkdir_one_adds l (mkdir_one m x) x) as Hk.
  rewrite Hn in Hk. by rewrite Hk.
Qed.

Lemma mkdir_one_idle (l : list Path) (m : gmap Path node) :
  (∀ a, a ∈ l → is_Some (m !! a)) → foldl mkdir_one m l = m.
Proof.
  revert m. induction l as [|x l IH]; intros m Hall; [done|].
  cbn [foldl]. assert (mkdir_one m x = m) as ->.
  { unfold mkdir_one. destruct (Hall x) as [n ->]; [by left|done]. }
  apply IH. intros a Ha. apply Hall. by right.
Qed.

Lemma prefixes_last (p : Path) : p ≠ [] → p ∈ Path_ops.prefixes p.
Proof.
  induction p as [|x p IH]; [done|]. intros _. cbn [Path_ops.prefixes].
  destruct p as [|y p]; [by left|]. right.
  apply (list_elem_of_fmap_2 (cons x)). by apply IH.
Qed.

Lemma ancestors_last (p : Path) :
  p ≠ [] → Path_ops.bare_root p = false → p ∈ Path_ops.ancestors p.
Proof.
  intros Hne Hr. unfold Path_ops.ancestors. apply list_elem_of_filter.
  split; [done|by apply prefixes_last].
Qed.

(** After [mkdir_p] has returned, the path and its ancestors are
    directories. *)
Lemma mkdir_p_directories (p : Path) (w w' : World) :
  mkdir_p p w = (Ok (), w') →
  ∀ a, a ∈ Path_ops.ancestors p → ∃ sz, nodes w' !! a = Some (Directory sz).
Proof.
  unfold mkdir_p. destruct (existsb _ _) eqn:Hex; [done|].
  intros [= <-] a Ha. cbn [nodes].
  destruct (mkdir_one_present (Path_ops.ancestors p) (nodes w) a Ha) as [n Hn].
  pose proof (mkdir_one_adds (Path_ops.ancestors p) (nodes w) a) as Hk.
  destruct (nodes w !! a) as [n0|] eqn:Hw.
  - rewrite Hk in Hn. injection Hn as <-. rewrite Hk.
    destruct n0 as [c|sz]; [|by exists sz].
    assert (existsb (λ a, match nodes w !! a with
                          | Some n => is_regular n
                          | None => false
                          end) (Path_ops.ancestors p) = true) as Htrue.
    { apply existsb_exists. exists a. split; [by apply list_elem_of_In|].
      by rewrite Hw. }
    congruence.
  - destruct Hk as [Hk|[sz Hk]]; [congruence|by exists sz].
Qed.

(** What [create_destination_structure] leaves when it returns. *)
Lemma create_destination_structure_makes (target_folder destination_base : Path)
    (w w' : World) (destination_folder : Path) :
  create_destination_structure target_folder destination_base false w
  = (Ok destination_folder, w') →
  destination_folder = destination_base //s Path.name target_folder
  ∧ adds_directories w w'
  ∧ stdout w' = stdout w
  ∧ (∀ a, a ∈ Path_ops.ancestors destination_folder →
       ∃ sz, nodes w' !! a = Some (Directory sz))
  ∧ create_destination_structure target_folder destination_base false w'
    = (Ok destination_folder, w').
Proof.
  unfold create_destination_structure. cbn [negb]. rewrite bind_unfold.
  set (dest := destination_base //s Path.name target_folder).
  destruct (mkdir_p dest w) as [[[]|e] w1] eqn:Hmk; [|done].
  intros [= <- <-].
  pose proof (mkdir_p_directories _ _ _ Hmk) as Hdirs.
  pose proof (mkdir_p_adds _ _ _ _ Hmk) as (Ha & Hs & _).
  repeat split; try done.
  rewrite bind_unfold. unfold mkdir_p.
  assert (existsb (λ a, match nodes w1 !! a with
                        | Some n => is_regular n
                        | None => false
                        end) (Path_ops.ancestors dest) = false) as ->.
  { apply not_true_is_false. intros (a & Hin%list_elem_of_In & Hreg)%existsb_exists.
    destruct (Hdirs a Hin) as [sz Hsz]. by rewrite Hsz in Hreg. }
  rewrite mkdir_one_idle.
  - by destruct w1.
  - intros a Hin. destruct (Hdirs a Hin) as [sz ->]. by eexists.
Qed.

(** X14. Outside dry-run mode, when [create_destination_structure]
    returns, the folder it returns is the destination base followed by
    the name of the target folder, and it is a directory, with its
    ancestors; nothing that existed is changed and nothing is printed.
    Calling it again changes nothing more. *)
Theorem destination_folder_is_made (target_folder destination_base : Path)
    (w w' : World) (destination_folder : Path) :
  create_destination_structure target_folder destination_base false w
  = (Ok destination_folder, w') →
  destination_folder = destination_base //s Path.name target_folder
  ∧ adds_directories w w'
  ∧ stdout w' = stdout w
  ∧ (∀ a, a ∈ Path_ops.ancestors destination_folder →
       ∃ sz, nodes w' !! a = Some (Directory sz))
  ∧ create_destination_structure target_folder destination_base false w'
    = (Ok destination_folder, w').
Proof. apply create_destination_structure_makes. Qed.

Lemma destination_folder_is_made_witness :
  ∃ sz, nodes (create_destination_structure ["photos"] ["dest"] false small_world).2
          !! ["dest"; "photos"] = Some (Directory sz).
Proof.
  destruct (destination_folder_is_made ["photos"] ["dest"] small_world
              (create_destination_structure ["photos"] ["dest"] false small_world).2
              ["dest"; "photos"])
    as (_ & _ & _ & Hdirs & _).
  - vm_compute. reflexivity.
  - apply Hdirs. vm_compute. right. left.
Defined.

(** ** The whole run *)

Section Run.

Context `{pil : PIL} `{pool : ProcessPool}.
Variable resolve : Path → result Path.

(** X15. A run that is not a dry run and finds no image still makes the
    destination folder: [main] returns after printing where the output
    goes, that it scans, the warning of an include filter without a valid
    extension if there is one, and that no image was found; the
    transformer is not called and no file is written. *)
Theorem run_without_images_makes_destination (t : tree) (args : Args)
    (target_path destination_base : Path) (quality : Z)
    (inc : option (gset string)) (w w1 : World) (destination_folder : Path) :
  dry_run args = false →
  (get_image_files t target_path inc w).1 = Ok [] →
  create_destination_structure target_path destination_base false w
  = (Ok destination_folder, w1) →
  ∃ w',
    main resolve t args target_path destination_base quality inc w = (Ok (), w')
    ∧ nodes w' = nodes w1
    ∧ (∀ a, a ∈ Path_ops.ancestors destination_folder →
         ∃ sz, nodes w' !! a = Some (Directory sz))
    ∧ adds_directories w w'
    ∧ transformer_calls w' = transformer_calls w
    ∧ stdout w'
      = stdout w
          ++ ["Output will be saved to: " +:+ Path.fspath destination_folder;
              "Scanning for images..."]
          ++ (if truthy inc
                 && bool_decide (default ∅ inc ∩ default_extensions = ∅)
              then [include_warning] else [])
          ++ ["No image files found in the target folder."].
Proof.
  intros Hdry Hnone Hcreate.
  destruct (create_destination_structure_makes _ _ _ _ _ Hcreate) as (_ & Ha & Hs & Hdirs & _).
  assert (transformer_calls w1 = transformer_calls w) as Hc.
  { revert Hcreate. unfold create_destination_structure. cbn [negb].
    rewrite bind_unfold.
    destruct (mkdir_p _ w) as [[[]|e] w2] eqn:Hmk; [|done].
    intros [= _ <-]. by apply mkdir_p_adds in Hmk as (_ & _ & ?). }
  unfold main. rewrite Hdry, (bind_Ok _ _ _ _ _ Hcreate), bind_print.
  fold (announced destination_folder w1). rewrite bind_unfold.
  set (w2 := scanning (announced destination_folder w1)).
  destruct (get_image_files_Ok t target_path inc w2)
    as (files & w3 & Hg & Hn3 & Hc3 & Hindep).
  rewrite Hindep in Hnone. injection Hnone as ->.
  rewrite (prepare_unfold _ _ _ _ _ _ _ _ _ _ Hg).
  rewrite !bool_decide_eq_true_2 by done.
  eexists. split; [reflexivity|]. cbn [nodes transformer_calls stdout].
  rewrite Hn3, Hc3. cbn [nodes transformer_calls w2 scanning announced].
  split; [done|]. split; [done|]. split.
  { intros p. specialize (Ha p). destruct (nodes w !! p); done. }
  split; [done|].
  assert (stdout w3
          = stdout w2 ++ (if truthy inc
                             && bool_decide (default ∅ inc ∩ default_extensions = ∅)
                          then [include_warning] else [])) as ->.
  { revert Hg. unfold get_image_files. destruct (truthy inc); cbn [andb].
    - case_bool_decide.
      + rewrite bind_print. by intros [= <-].
      + intros [= _ <-]. by rewrite app_nil_r.
    - intros [= _ <-]. by rewrite app_nil_r. }
  cbn [stdout w2 scanning announced]. rewrite Hs. by rewrite <-!app_assoc.
Qed.

(** X16. Outside dry-run mode, when the destination folder's path is
    taken by a regular file, [main] stops with the exception of [mkdir]
    before it prints or scans anything: nothing is changed. *)
Theorem run_stops_when_destination_is_a_file (t : tree) (args : Args)
    (target_path destination_base : Path) (quality : Z)
    (inc : option (gset string)) (w : World) (content : list Byte.byte) :
  dry_run args = false →
  let destination_folder := destination_base //s Path.name target_path in
  destination_folder ≠ [] →
  Path_ops.bare_root destination_folder = false →
  nodes w !! destination_folder = Some (RegularFile content) →
  ∃ e, main resolve t args target_path destination_base quality inc w = (Raise e, w).
Proof.
  intros Hdry dest Hne Hroot Hfile. unfold main, create_destination_structure.
  rewrite Hdry. cbn [negb]. fold dest. rewrite !bind_unfold. unfold mkdir_p.
  assert (existsb (λ a, match nodes w !! a with
                        | Some n => is_regular n
                        | None => false
                        end) (Path_ops.ancestors dest) = true) as ->.
  { apply existsb_exists. exists dest. split.
    - by apply list_elem_of_In, ancestors_last.
    - by rewrite Hfile. }
  by eexists.
Qed.

End Run.

Lemma run_without_images_makes_destination_witness :
  ∃ w',
    main (pil := toy_pil) (pool := toy_pool) Ok (Dir ["notes.txt"] []) default_args
      ["photos"] ["dest"] 87 None small_world = (Ok (), w')
    ∧ ∃ sz, nodes w' !! ["dest"; "photos"] = Some (Directory sz).
Proof.
  destruct (run_without_images_makes_destination (pil := toy_pil) (pool := toy_pool)
              Ok (Dir ["notes.txt"] []) default_args ["photos"] ["dest"] 87 None
              small_world
              (create_destination_structure ["photos"] ["dest"] false small_world).2
              ["dest"; "photos"])
    as (w' & H & _ & Hdirs & _).
  - reflexivity.
  - vm_compute. reflexivity.
  - vm_compute. reflexivity.
  - exists w'. split; [exact H|]. apply Hdirs. vm_compute. right. left.
Defined.

Lemma run_stops_when_destination_is_a_file_witness :
  ∃ e, main (pil := toy_pil) (pool := toy_pool) Ok two_files default_args
         ["a.jpg"] ["dest"; "photos"] 87 None small_world = (Raise e, small_world).
Proof.
  apply (run_stops_when_destination_is_a_file (pil := toy_pil) (pool := toy_pool)
           Ok two_files default_args ["a.jpg"] ["dest"; "photos"] 87 None small_world
           [Byte.x01; Byte.x01]).
  - reflexivity.
  - vm_compute. discriminate.
  - vm_compute. reflexivity.
  - vm_compute. reflexivity.
Defined.

(** ** The shape of planned output paths *)

Lemma rfind_None (c : ascii) (s : string) :
  Py.rfind s c = None → Path_ops.contains_char c s = false.
Proof.
  induction s as [|a s IH]; [done|]. cbn [Py.rfind Path_ops.contains_char].
  destruct (Py.rfind s c); [done|]. case_bool_decide; [done|]. intros _.
  by rewrite IH.
Qed.

(** The last occurrence of a character splits a string in two, and the
    character does not occur again after it. *)
Lemma rfind_Some (c : ascii) (s : string) (i : nat) :
  Py.rfind s c = Some i →
  ∃ tail, s = Py.take i s +:+ String c tail
          ∧ Py.drop i s = String c tail
          ∧ Path_ops.contains_char c tail = false.
Proof.
  revert i. induction s as [|a s IH]; intros i; [done|]. cbn [Py.rfind].
  destruct (Py.rfind s c) as [j|] eqn:Hr.
  - intros [= <-]. destruct (IH j eq_refl) as (tail & Hs & Hd & Hc).
    exists tail. cbn [Py.take Py.drop]. rewrite app_cons_s. by rewrite <-Hs.
  - case_bool_decide as Hac; [|done]. intros [= <-]. subst a.
    exists s. cbn [Py.take Py.drop]. rewrite app_nil_l_s.
    split; [done|]. split; [done|]. by apply rfind_None.
Qed.

Lemma intersperse_ends (new s : string) :
  ∃ stem, Py.intersperse new s = stem +:+ new.
Proof.
  induction s as [|c s [stem IH]]; cbn [Py.intersperse].
  - by exists "".
  - exists (new +:+ String c stem). rewrite IH.
    by rewrite app_assoc_s, app_cons_s.
Qed.

Lemma replace_scan_skip_all (old new : string) (s : string) :
  ∀ k, Py.len s ≤ k → Py.replace_scan old new k s = "".
Proof.
  induction s as [|c s IH]; intros k Hk; [done|].
  unfold Py.len in *. cbn [String.length] in Hk.
  destruct k as [|k]; [lia|]. cbn [Py.replace_scan]. apply IH. lia.
Qed.

(** A match that begins before a character [d] and is longer than what
    precedes [d] holds [d]. *)
Lemma startswith_overlap (d : ascii) (rest : string) (a t : string) :
  Py.startswith (a +:+ String d rest) t = true → Py.len a < Py.len t →
  Path_ops.contains_char d t = true.
Proof.
  revert t. unfold Py.len. induction a as [|e a IH]; intros [|x t] Hs Hlen;
    cbn [String.length] in Hlen; try lia.
  - rewrite app_nil_l_s in Hs. cbn [Py.startswith] in Hs.
    apply andb_prop in Hs as [->%bool_decide_eq_true_1 _].
    cbn [Path_ops.contains_char]. by rewrite bool_decide_eq_true_2.
  - rewrite app_cons_s in Hs. cbn [Py.startswith] in Hs.
    apply andb_prop in Hs as [_ Hs]. cbn [Path_ops.contains_char].
    rewrite (IH t Hs) by lia. apply orb_true_r.
Qed.

(** Replacing the occurrences of a suffix that holds its first character
    once only: the last occurrence, at the end, is always replaced. *)
Lemma replace_scan_ends (c : ascii) (tail new : string) (a : string) :
  Path_ops.contains_char c tail = false →
  ∀ k, k ≤ Py.len a →
    ∃ stem, Py.replace_scan (String c tail) new k (a +:+ String c tail) = stem +:+ new.
Proof.
  intros Hc. induction a as [|e a IH]; intros k Hk.
  - assert (k = 0) as -> by (unfold Py.len in Hk; cbn in Hk; lia).
    rewrite app_nil_l_s. cbn [Py.replace_scan Py.startswith].
    rewrite bool_decide_eq_true_2 by done.
    assert (Py.startswith tail tail = true) as ->.
    { clear. induction tail as [|x tail IH]; [done|].
      cbn [Py.startswith]. by rewrite bool_decide_eq_true_2. }
    cbn [andb]. exists "".
    rewrite replace_scan_skip_all by (unfold Py.len; cbn; lia).
    by rewrite app_nil_r_s.
  - rewrite app_cons_s. unfold Py.len in Hk. cbn [String.length] in Hk.
    destruct k as [|k].
    + cbn [Py.replace_scan].
      destruct (Py.startswith (String e (a +:+ String c tail)) (String c tail)) eqn:Hs.
      * cbn [Py.startswith] in Hs. apply andb_prop in Hs as [_ Hs].
        assert (Py.len tail ≤ Py.len a) as Hlen.
        { destruct (le_lt_dec (Py.len tail) (Py.len a)) as [|Hlt]; [done|].
          pose proof (startswith_overlap c tail a tail Hs Hlt). congruence. }
        destruct (IH (Py.len (String c tail) - 1)) as [stem Hstem].
        { unfold Py.len in *. cbn [String.length]. lia. }
        exists (new +:+ stem). by rewrite Hstem, app_assoc_s.
      * destruct (IH 0) as [stem Hstem]; [lia|].
        exists (String e stem). by rewrite Hstem, app_cons_s.
    + cbn [Py.replace_scan]. apply IH. unfold Py.len. lia.
Qed.

(** [name.replace(suffix, ext)], as the flattening branch writes it, gives
    a name that ends with [ext]. *)
Lemma replace_suffix_ends (nm ext : string) :
  ∃ stem, Py.replace nm (Path.suffix_of_name nm) ext = stem +:+ ext.
Proof.
  unfold Path.suffix_of_name.
  destruct (Py.rfind nm ".") as [i|] eqn:Hr; [|apply intersperse_ends].
  destruct (_ && _); [|apply intersperse_ends].
  destruct (rfind_Some _ _ _ Hr) as (tail & Hnm & Hd & Hc).
  destruct (replace_scan_ends "." tail ext (Py.take i nm) Hc 0 ltac:(lia))
    as [stem Hstem].
  exists stem. rewrite Hd. unfold Py.replace. by rewrite <-Hnm in Hstem.
Qed.

Lemma ends_with_extension (stem : string) (f : Format) :
  stem +:+ file_extension_of f ≠ "" ∧ stem +:+ file_extension_of f ≠ ".".
Proof.
  assert (4 ≤ Py.len (stem +:+ file_extension_of f)) as Hlen.
  { rewrite len_app.
    destruct f; [change (Py.len (file_extension_of jpg)) with 4
                |change (Py.len (file_extension_of webp)) with 5]; lia. }
  split; intros H; rewrite H in Hlen; cbn in Hlen; lia.
Qed.

Lemma no_sep_extension (f : Format) : no_sep (file_extension_of f).
Proof. by destruct f. Qed.

Lemma plain_paths_relative (dest rel : Path) :
  Forall plain_name rel → dest // rel = dest ++ rel.
Proof.
  intros Hpl. unfold Path.joinpath, Path.is_absolute.
  destruct rel as [|x rel]; [done|].
  apply Forall_cons in Hpl as [Hx _]. by rewrite plain_not_root.
Qed.

Lemma name_snoc (p : Path) (x : string) : no_sep x → Path.name (p ++ [x]) = x.
Proof. intros Hx. unfold Path.name. by rewrite last_snoc, no_sep_not_root. Qed.

(** The output path the naming block computes for a file below the target
    folder: the destination folder, the directories of the file below the
    target folder when they are preserved, and a name that ends with the
    extension of the format. *)
Lemma output_file_shape (args : Args) (target_path destination_folder : Path)
    (total index : nat) (f : string) (rel : Path) :
  valid_path target_path →
  Path.of_str f = target_path ++ rel → rel ≠ [] → Forall plain_name rel →
  ∃ name stem,
    output_file_for args target_path destination_folder
      (file_extension_of (format args)) total index f
    = Ok (destination_folder
            ++ (if preserve_dirs args then removelast rel else []) ++ [name])
    ∧ name = stem +:+ file_extension_of (format args)
    ∧ no_sep name.
Proof.
  intros Hv Hf Hne Hpl.
  destruct (relative_to_below target_path f) as (rel' & Hrel & Hn1 & Hn2).
  { by exists rel. }
  assert (rel' = rel) as ->.
  { rewrite Hf in Hrel. unfold Path_ops.relative_to in Hrel.
    destruct target_path as [|b base].
    - cbn [app] in Hrel. destruct (Path.is_absolute rel); congruence.
    - rewrite strip_prefix_app in Hrel. congruence. }
  assert (no_sep (Path.name rel)) as Hnrel.
  { destruct (last rel) as [x|] eqn:Hl; [|by apply last_None in Hl].
    unfold Path.name. rewrite Hl. apply last_Some in Hl as [l' ->].
    apply Forall_app in Hpl as [_ [Hx _]%Forall_cons].
    rewrite plain_not_root by done. by destruct Hx. }
  assert (Forall plain_name (removelast rel)) as Hpl'.
  { destruct (last rel) as [x|] eqn:Hl; [|by apply last_None in Hl].
    apply last_Some in Hl as [l' ->]. rewrite removelast_last.
    by apply Forall_app in Hpl as [? _]. }
  pose proof (no_sep_extension (format args)) as Hext.
  unfold output_file_for. rewrite Hrel.
  destruct (preserve_dirs args), (keep_names args).
  - rewrite with_suffix_replaces_extension by done.
    eexists _, _. split; [|split; [reflexivity|]].
    + f_equal. unfold Path.joinpath, Path.is_absolute.
      destruct (removelast rel) as [|x l] eqn:Hrl; cbn [app].
      * rewrite no_sep_not_root; [done|].
        apply no_sep_app. split; [|done]. by apply contains_char_take.
      * apply Forall_cons in Hpl' as [Hx _]. by rewrite plain_not_root.
    + apply no_sep_app. split; [|done]. by apply contains_char_take.
  - pose proof (sequential_name_plain (Path.name target_path) index total (format args)
                  (name_no_sep _ Hv)) as (Hs1 & Hs2 & Hs3).
    eexists _, (Path.name target_path +:+ "-" +:+ Py.zfill (Py.str index) _).
    split; [|split; [|exact Hs1]].
    + f_equal. rewrite joinpath_str_single by done.
      assert (Path.parent rel = removelast rel) as ->.
      { unfold Path.parent. destruct rel as [|x [|y l]]; try done.
        apply Forall_cons in Hpl as [Hx _]. by rewrite plain_not_root. }
      rewrite plain_paths_relative by done. by rewrite <-app_assoc.
    + unfold generate_sequential_name. by rewrite !app_assoc_s.
  - destruct (replace_suffix_ends (Path.name rel) (file_extension_of (format args)))
      as [stem Hstem].
    unfold Path.suffix. rewrite Hstem.
    destruct (ends_with_extension stem (format args)) as [He1 He2].
    assert (no_sep (stem +:+ file_extension_of (format args))) as Hns.
    { rewrite <-Hstem. by apply replace_no_sep. }
    exists (stem +:+ file_extension_of (format args)), stem.
    split; [|done]. f_equal. by rewrite joinpath_str_single.
  - pose proof (sequential_name_plain (Path.name target_path) index total (format args)
                  (name_no_sep _ Hv)) as (Hs1 & Hs2 & Hs3).
    eexists _, (Path.name target_path +:+ "-" +:+ Py.zfill (Py.str index) _).
    split; [|split; [|exact Hs1]].
    + f_equal. by rewrite joinpath_str_single.
    + unfold generate_sequential_name. by rewrite !app_assoc_s.
Qed.

(** What the planner returns: tasks for files below the target folder,
    each with an output path of that shape and the settings of the run. *)
Lemma planned_task_shape (resolve : Path → result Path) (t : tree) (args : Args)
    (target_path destination_folder : Path) (quality : Z)
    (inc : option (gset string)) (w w' : World) (tasks : list Task) :
  tree_plain t → canonical_path target_path →
  prepare_processing_tasks resolve t args target_path destination_folder quality
    inc w = (Ok tasks, w') →
  ∀ c, c ∈ tasks →
    ∃ rel name stem,
      Path.of_str (input_path c) = target_path ++ rel
      ∧ rel ≠ [] ∧ Forall plain_name rel
      ∧ output_path c
        = destination_folder
            ++ (if preserve_dirs args then removelast rel else []) ++ [name]
      ∧ name = stem +:+ file_extension_of (format args)
      ∧ no_sep name
      ∧ c = mkTask (input_path c) (output_path c) (max_size args) quality (format args)
              (skip_existing args).
Proof.
  intros Ht Hc H c Hin. pose proof (canonical_valid _ Hc) as Hv.
  destruct (get_image_files_Ok t target_path inc (scanning w))
    as (files & w1 & Hg & _).
  rewrite (prepare_unfold _ _ _ _ _ _ _ _ _ _ Hg) in H.
  case_bool_decide as Hnil.
  { injection H as <- _. by apply elem_of_nil in Hin. }
  destruct (dry_run args).
  { apply preview_processing_returns in H as ->. by apply elem_of_nil in Hin. }
  destruct (plan_loop_Ok _ _ _ _ _ _ _ _ _ _ _ _ _ H) as (cs & Hcs & Hloop).
  rewrite Hloop in H.
  injection H as <- _. cbn [app] in Hin.
  apply list_elem_of_filter in Hin as [_ Hin].
  apply list_elem_of_lookup in Hin as [k Hk].
  destruct (candidates_lookup _ _ _ _ _ _ _ _ _ _ _ Hcs Hk) as (f & Hf & Ho & Heq).
  assert (input_path c = f) as Hinp by (by rewrite Heq).
  pose proof (get_image_files_below _ _ _ _ _ _ Ht Hc Hg) as Hbelow.
  assert (below target_path f) as (rel & Hrel & Hne & Hpl).
  { rewrite Forall_forall in Hbelow. apply Hbelow.
    rewrite <-(sort_files_perm files). by eapply list_elem_of_lookup_2. }
  destruct (output_file_shape args target_path destination_folder
              (length (sort_files files)) (1 + k) f rel Hv Hrel Hne Hpl)
    as (name & stem & Hout & Hname & Hns).
  rewrite Hout in Ho. injection Ho as Ho.
  exists rel, name, stem. rewrite Hinp. by repeat split.
Qed.

(** X17. Every task the planner returns writes a file named for the
    output format: the name of its output path ends with [.webp] when the
    format is WebP and with [.jpg] otherwise, whatever the naming and the
    directory mode, and the task carries the settings of the run. *)
Theorem planned_outputs_have_the_format_extension (resolve : Path → result Path) (t : tree)
    (args : Args) (target_path destination_folder : Path) (quality : Z)
    (inc : option (gset string)) (w w' : World) (tasks : list Task) :
  tree_plain t → canonical_path target_path →
  prepare_processing_tasks resolve t args target_path destination_folder quality
    inc w = (Ok tasks, w') →
  ∀ c, c ∈ tasks →
    (∃ stem, Path.name (output_path c) = stem +:+ file_extension_of (format args))
    ∧ output_format c = format args
    ∧ task_max_size c = max_size args
    ∧ task_quality c = quality
    ∧ task_skip_existing c = skip_existing args.
Proof.
  intros Ht Hc H c Hin.
  destruct (planned_task_shape _ _ _ _ _ _ _ _ _ _ Ht Hc H c Hin)
    as (rel & name & stem & _ & _ & _ & Hout & Hname & Hns & Heq).
  split.
  - exists stem. rewrite Hout, app_assoc, name_snoc by done. done.
  - by rewrite Heq.
Qed.

(** X18. Where the planner puts an output file: when directories are
    preserved, in the directory that the input file has below the target
    folder, taken below the destination folder; when the planner
    flattens, directly in the destination folder. *)
Theorem planned_outputs_mirror_directories (resolve : Path → result Path) (t : tree)
    (args : Args) (target_path destination_folder : Path) (quality : Z)
    (inc : option (gset string)) (w w' : World) (tasks : list Task) :
  tree_plain t → canonical_path target_path →
  prepare_processing_tasks resolve t args target_path destination_folder quality
    inc w = (Ok tasks, w') →
  ∀ c, c ∈ tasks →
    ∃ rel,
      Path.of_str (input_path c) = target_path ++ rel
      ∧ rel ≠ []
      ∧ output_path c
        = destination_folder
            ++ (if preserve_dirs args then removelast rel else [])
            ++ [Path.name (output_path c)].
Proof.
  intros Ht Hc H c Hin.
  destruct (planned_task_shape _ _ _ _ _ _ _ _ _ _ Ht Hc H c Hin)
    as (rel & name & stem & Hrel & Hne & _ & Hout & _ & Hns & _).
  exists rel. split; [done|]. split; [done|].
  assert (Path.name (output_path c) = name) as ->; [|done].
  by rewrite Hout, app_assoc, name_snoc.
Qed.

Lemma planned_outputs_have_the_format_extension_witness :
  ∃ stem, Path.name ["/"; "out"; "photos"; "x.jpg"] = stem +:+ file_extension_of jpg.
Proof.
  destruct (planned_outputs_have_the_format_extension (λ p, Ok (realpath link_at_subdir p))
              with_subdir preserve_keep_names ["/"; "in"; "photos"]
              ["/"; "out"; "photos"] 87 None empty_world
              (mkWorld ∅
                 ["Scanning for images..."; "Found 2 images to process";
                  "Security error: Output path would be outside destination folder: /out/photos/sub/y.jpg"]
                 [])
              [mkTask "/in/photos/x.jpg" ["/"; "out"; "photos"; "x.jpg"] 2400 87 jpg false])
    with (c := mkTask "/in/photos/x.jpg" ["/"; "out"; "photos"; "x.jpg"] 2400 87 jpg false)
    as [Hstem _].
  - plain_tree.
  - vm_compute. reflexivity.
  - vm_compute. reflexivity.
  - left.
  - exact Hstem.
Defined.

Lemma planned_outputs_mirror_directories_witness :
  ∃ rel,
    Path.of_str "photos/a/x.jpg" = ["photos"] ++ rel
    ∧ rel ≠ []
    ∧ ["dest"; "photos"; "x.jpg"] = ["dest"; "photos"] ++ [] ++ ["x.jpg"].
Proof.
  destruct (planned_outputs_mirror_directories Ok same_names flatten_keep_names
              ["photos"] ["dest"; "photos"] 87 None empty_world
              (mkWorld ∅ ["Scanning for images..."; "Found 2 images to process"] [])
              [mkTask "photos/a/x.jpg" ["dest"; "photos"; "x.jpg"] 2400 87 jpg false;
               mkTask "photos/b/x.jpg" ["dest"; "photos"; "x.jpg"] 2400 87 jpg false])
    with (c := mkTask "photos/a/x.jpg" ["dest"; "photos"; "x.jpg"] 2400 87 jpg false)
    as (rel & Hrel & Hne & Hout).
  - plain_tree.
  - vm_compute. reflexivity.
  - vm_compute. reflexivity.
  - left.
  - exists rel. split; [exact Hrel|]. split; [exact Hne|exact Hout].
Defined.

(** ** The order of sequential names *)

Lemma compare_app_head (p a b : string) :
  String.compare (p +:+ a) (p +:+ b) = String.compare a b.
Proof.
  induction p as [|c p IH]; [done|]. rewrite !app_cons_s. cbn [String.compare].
  unfold Ascii.compare. by rewrite N.compare_refl.
Qed.

(** Two strings of the same length that compare as less still do with
    anything added after them. *)
Lemma compare_app_tail (a b e e' : string) :
  Py.len a = Py.len b → String.compare a b = Lt →
  String.compare (a +:+ e) (b +:+ e') = Lt.
Proof.
  revert b. unfold Py.len. induction a as [|c a IH]; intros [|d b] Hlen Hlt;
    try done. rewrite !app_cons_s. cbn [String.compare] in *.
  destruct (Ascii.compare c d); [|done..]. apply IH; [|done].
  cbn [String.length] in Hlen. lia.
Qed.

Lemma int_go_shift (s : string) :
  ∀ acc, Py.int_go acc s = acc * 10 ^ Py.len s + Py.int_go 0 s.
Proof.
  unfold Py.len. induction s as [|c s IH]; intros acc.
  - cbn. lia.
  - cbn [Py.int_go String.length]. rewrite (IH (10 * acc + _)), (IH (10 * 0 + _)).
    rewrite Nat.pow_succ_r'. set (P := 10 ^ String.length s). clearbody P.
    rewrite !Nat.mul_add_distr_r, <-!Nat.mul_assoc. cbn [Nat.mul]. lia.
Qed.

Lemma int_digits_bound (s : string) :
  all_digits s = true → Py.int s < 10 ^ Py.len s.
Proof.
  unfold Py.int, Py.len. induction s as [|c s IH]; [cbn; lia|].
  cbn [all_digits]. intros [Hc Hs]%andb_prop. specialize (IH Hs).
  cbn [Py.int_go String.length]. rewrite int_go_shift. unfold Py.len.
  rewrite Nat.pow_succ_r'.
  assert (Py.digit_val c ≤ 9) as Hd.
  { unfold is_digit in Hc. apply andb_prop in Hc as [_ H2%Nat.leb_le].
    unfold Py.digit_val. lia. }
  assert ((10 * 0 + Py.digit_val c) * 10 ^ String.length s ≤ 9 * 10 ^ String.length s)
    by (apply Nat.mul_le_mono_r; lia).
  lia.
Qed.

Lemma digit_compare (c d : ascii) :
  is_digit c = true → is_digit d = true →
  Ascii.compare c d = Nat.compare (Py.digit_val c) (Py.digit_val d).
Proof.
  unfold is_digit, Py.digit_val, Ascii.compare, nat_of_ascii.
  intros [H1%Nat.leb_le _]%andb_prop [H2%Nat.leb_le _]%andb_prop.
  rewrite <-(N2Nat.id (N_of_ascii c)) at 1. rewrite <-(N2Nat.id (N_of_ascii d)) at 1.
  rewrite <-Nat2N.inj_compare.
  destruct (Nat.compare_spec (N.to_nat (N_of_ascii c)) (N.to_nat (N_of_ascii d)));
    symmetry; [apply Nat.compare_eq_iff|apply Nat.compare_lt_iff
              |apply Nat.compare_gt_iff]; lia.
Qed.

(** Numerals of the same length compare as their values do. *)
Lemma compare_numerals (a : string) :
  ∀ b, Py.len a = Py.len b → all_digits a = true → all_digits b = true →
       Py.int a < Py.int b → String.compare a b = Lt.
Proof.
  induction a as [|c a IH]; intros [|d b] Hlen Ha Hb Hlt;
    unfold Py.len in Hlen; cbn [String.length] in Hlen; try lia.
  cbn [all_digits] in Ha, Hb.
  apply andb_prop in Ha as [Hc Ha]. apply andb_prop in Hb as [Hd Hb].
  pose proof (int_digits_bound a Ha) as Hia. pose proof (int_digits_bound b Hb) as Hib.
  unfold Py.int in *. cbn [Py.int_go] in Hlt.
  rewrite (int_go_shift a), (int_go_shift b) in Hlt.
  unfold Py.len in *. assert (String.length a = String.length b) as Hl by lia.
  rewrite Hl in *. set (P := 10 ^ String.length b) in *.
  cbn [String.compare]. rewrite digit_compare by done.
  destruct (Nat.compare_spec (Py.digit_val c) (Py.digit_val d)) as [Heq|Hless|Hmore].
  - apply IH; [done..|]. unfold Py.int. rewrite Heq in Hlt. lia.
  - done.
  - exfalso.
    assert ((10 * 0 + Py.digit_val d + 1) * P ≤ (10 * 0 + Py.digit_val c) * P)
      by (apply Nat.mul_le_mono_r; lia).
    lia.
Qed.

(** X19. Sequential names sort as their indices do: for two indices
    [i < j] up to the number of files, the name made for [i] comes before
    the name made for [j] in the order of strings, so that a listing of
    the output folder by name shows the files in the order they were
    numbered. *)
Theorem sequential_names_sort_by_index (folder ext : string) (i j N : nat) :
  i < j → j ≤ N →
  String.ltb (generate_sequential_name folder i N ext)
             (generate_sequential_name folder j N ext) = true.
Proof.
  intros Hij HjN. unfold String.ltb, generate_sequential_name.
  rewrite <-!(app_assoc_s folder "-"), compare_app_head.
  destruct (str_value i) as [Hdi Hvi]. destruct (str_value j) as [Hdj Hvj].
  set (wd := Nat.max (Py.len (Py.str N)) 4).
  assert (Py.len (Py.str i) ≤ wd ∧ Py.len (Py.str j) ≤ wd) as [Hli Hlj].
  { rewrite !len_str. unfold wd. rewrite len_str.
    pose proof (digitCount_mono i N ltac:(lia)).
    pose proof (digitCount_mono j N HjN). lia. }
  rewrite !zfill_digits by done.
  rewrite compare_app_tail; [done| |].
  - rewrite !len_app, !len_zeros. lia.
  - apply compare_numerals.
    + rewrite !len_app, !len_zeros. lia.
    + by rewrite all_digits_app, all_digits_zeros.
    + by rewrite all_digits_app, all_digits_zeros.
    + rewrite !int_zeros. lia.
Qed.

Lemma sequential_names_sort_by_index_witness :
  String.ltb (generate_sequential_name "photos" 9 12 ".jpg")
             (generate_sequential_name "photos" 10 12 ".jpg") = true.
Proof.
  apply sequential_names_sort_by_index; lia.
Defined.

(** ** Discovery *)

(** Every triple of the walk is a directory of the tree, with its files. *)
Lemma walk_sound (t : tree) :
  tree_plain t →
  ∀ top root dnames fs,
    (root, dnames, fs) ∈ walk top t →
    ∃ ds, Path.of_str root = Path.of_str top ++ ds
          ∧ ∀ f, f ∈ fs → plain_name f ∧ tree_file t ds f.
Proof.
  induction t as [files dirs IH] using tree_induction.
  intros [Hfiles Hdirs]%tree_plain_unfold top root dnames fs Hin.
  cbn [walk] in Hin. apply elem_of_cons in Hin as [[= -> -> ->]|Hin].
  - exists []. rewrite app_nil_r. split; [done|]. intros f Hf. split.
    + rewrite Forall_forall in Hfiles. by apply Hfiles.
    + by constructor.
  - apply list_elem_of_In, in_flat_map in Hin.
    destruct Hin as ([d t'] & Hd%list_elem_of_In & Htr%list_elem_of_In).
    rewrite Forall_forall in IH, Hdirs.
    destruct (Hdirs _ Hd) as [Hpd Hpt]. cbn [fst snd] in *.
    destruct (IH _ Hd Hpt _ _ _ _ Htr) as (ds & Hds & Hfs).
    exists (d :: ds). split.
    + rewrite Hds, of_str_join by done. by rewrite <-app_assoc.
    + intros f Hf. destruct (Hfs f Hf) as [Hpf Htf]. split; [done|].
      by econstructor.
Qed.

(** Every file of the tree is in a triple of the walk. *)
Lemma walk_complete (t : tree) (ds : list string) (f : string) :
  tree_plain t → tree_file t ds f →
  ∀ top, ∃ root dnames fs,
    (root, dnames, fs) ∈ walk top t
    ∧ Path.of_str root = Path.of_str top ++ ds
    ∧ f ∈ fs ∧ plain_name f.
Proof.
  intros Ht Hf. induction Hf as [files dirs f Hin|files dirs d t ds f Hd Hf IH];
    intros top; apply tree_plain_unfold in Ht as [Hfiles Hdirs].
  - exists top, (map fst dirs), files. cbn [walk]. split; [by left|].
    rewrite app_nil_r. split; [done|]. split; [done|].
    rewrite Forall_forall in Hfiles. by apply Hfiles.
  - rewrite Forall_forall in Hdirs. destruct (Hdirs _ Hd) as [Hpd Hpt].
    cbn [fst snd] in *.
    destruct (IH Hpt (os_path_join top d)) as (root & dnames & fs & Hin & Hroot & Hf' & Hp).
    exists root, dnames, fs. split; [|split; [|done]].
    + cbn [walk]. right. apply list_elem_of_In, in_flat_map.
      exists (d, t). split; by apply list_elem_of_In.
    + rewrite Hroot, of_str_join by done. by rewrite <-app_assoc.
Qed.

Lemma suffix_of_plain (f : string) :
  plain_name f → Path.suffix (Path.of_str f) = Path.suffix_of_name f.
Proof.
  intros (Hs & Hne & Hnd). rewrite of_str_single by done.
  unfold Path.suffix, Path.name. cbn [last]. by rewrite no_sep_not_root.
Qed.

Lemma elem_of_collect (exts : gset string)
    (triples : list (string * list string * list string)) (s : string) :
  s ∈ collect exts triples
  ↔ ∃ root dnames fs file,
      (root, dnames, fs) ∈ triples ∧ file ∈ fs
      ∧ Py.lower (Path.suffix (Path.of_str file)) ∈ exts
      ∧ s = os_path_join root file.
Proof.
  unfold collect. split.
  - intros Hin. apply list_elem_of_In, in_flat_map in Hin.
    destruct Hin as ([[root dnames] fs] & Htr%list_elem_of_In & Hs%list_elem_of_In).
    apply list_elem_of_fmap in Hs as (file & -> & [Hext Hfile]%list_elem_of_filter).
    by exists root, dnames, fs, file.
  - intros (root & dnames & fs & file & Htr & Hfile & Hext & ->).
    apply list_elem_of_In, in_flat_map. exists (root, dnames, fs).
    split; [by apply list_elem_of_In|]. apply list_elem_of_In.
    apply list_elem_of_fmap_2. by apply list_elem_of_filter.
Qed.

Lemma get_image_files_collect (t : tree) (target_path : Path)
    (inc : option (gset string)) (w w' : World) (files : list string) :
  get_image_files t target_path inc w = (Ok files, w') →
  files = collect (image_extensions_of inc) (walk (Path.fspath target_path) t).
Proof.
  unfold get_image_files, image_extensions_of. destruct (truthy inc).
  - case_bool_decide as He.
    + rewrite bind_print. intros [= <- _]. rewrite He. unfold collect.
      induction (walk _ _) as [|[[root dnames] fs] l IH]; [done|].
      cbn [flat_map]. rewrite <-IH, app_nil_r.
      induction fs as [|x fs IHf]; [done|].
      rewrite filter_cons_False by set_solver. done.
    + by intros [= <- _].
  - by intros [= <- _].
Qed.

Lemma default_extensions_list (x : string) :
  x ∈ default_extensions
  ↔ x ∈ [".jpg"; ".jpeg"; ".png"; ".bmp"; ".tiff"; ".tif"; ".webp"].
Proof.
  unfold default_extensions.
  rewrite !elem_of_union, !elem_of_singleton, !elem_of_cons, elem_of_nil. tauto.
Qed.

(** The files collected on a tree of plain names. *)
Lemma collect_tree_files (exts : gset string) (t : tree) (target_path p : Path) :
  tree_plain t → canonical_path target_path →
  (∃ s, s ∈ collect exts (walk (Path.fspath target_path) t) ∧ Path.of_str s = p)
  ↔ (∃ ds f, tree_file t ds f
             ∧ Py.lower (Path.suffix_of_name f) ∈ exts
             ∧ p = target_path ++ ds ++ [f]).
Proof.
  intros Ht Hc. split.
  - intros (s & (root & dnames & fs & file & Htr & Hfile & Hext & ->)%elem_of_collect
              & <-).
    destruct (walk_sound t Ht _ _ _ _ Htr) as (ds & Hds & Hfs).
    destruct (Hfs file Hfile) as [Hpl Htf].
    exists ds, file. split; [done|]. split.
    + by rewrite <-suffix_of_plain.
    + rewrite of_str_join, Hds, Hc by done. by rewrite <-app_assoc.
  - intros (ds & f & Htf & Hext & ->).
    destruct (walk_complete t ds f Ht Htf (Path.fspath target_path))
      as (root & dnames & fs & Htr & Hroot & Hf & Hpl).
    exists (os_path_join root f). split.
    + apply elem_of_collect. exists root, dnames, fs, f.
      by rewrite suffix_of_plain.
    + rewrite of_str_join, Hroot, Hc by done. by rewrite <-app_assoc.
Qed.

(** C10. Given the empty filter set, [get_image_files] does what it does
    with no filter and prints nothing: on a tree of plain names it
    returns exactly the files of the tree whose suffix, in lower case, is
    one of the seven supported extensions, each at its place below the
    folder, and not the empty result.  The warning with the empty result
    comes exactly from a filter that is not empty and has no extension in
    common with the default set; every other filter leaves the output log
    as it was. *)
Theorem empty_filter_is_no_filter (t : tree) (folder_path : Path) (w : World) :
  get_image_files t folder_path (Some ∅) w = get_image_files t folder_path None w
  ∧ get_image_files t folder_path (Some ∅) w
    = (Ok (collect default_extensions (walk (Path.fspath folder_path) t)), w)
  ∧ (∃ files,
       get_image_files t folder_path (Some ∅) w = (Ok files, w)
       ∧ (tree_plain t → canonical_path folder_path →
          ∀ p, (∃ s, s ∈ files ∧ Path.of_str s = p)
               ↔ (∃ ds f,
                    tree_file t ds f
                    ∧ Py.lower (Path.suffix_of_name f)
                        ∈ [".jpg"; ".jpeg"; ".png"; ".bmp"; ".tiff"; ".tif"; ".webp"]
                    ∧ p = folder_path ++ ds ++ [f])))
  ∧ ∀ f : option (gset string),
      ((∃ s, f = Some s ∧ s ≠ ∅ ∧ s ∩ default_extensions = ∅)
       ∧ get_image_files t folder_path f w
         = (Ok [], mkWorld (nodes w) (stdout w ++ [include_warning])
                     (transformer_calls w)))
      ∨ (¬ (∃ s, f = Some s ∧ s ≠ ∅ ∧ s ∩ default_extensions = ∅)
         ∧ ∃ exts, get_image_files t folder_path f w
                   = (Ok (collect exts (walk (Path.fspath folder_path) t)), w)).
Proof.
  split; [|split; [|split]].
  - unfold get_image_files. by rewrite truthy_empty.
  - unfold get_image_files. by rewrite truthy_empty.
  - eexists. split.
    + unfold get_image_files. rewrite truthy_empty. reflexivity.
    + intros Ht Hc p. rewrite (collect_tree_files _ _ _ _ Ht Hc).
      by setoid_rewrite default_extensions_list.
  - intros [s|].
    + unfold get_image_files, truthy. cbn [default].
      destruct (decide (s = ∅)) as [->|Hs].
      { right. rewrite bool_decide_eq_true_2 by done. cbn [negb]. split.
        - intros (s' & [= <-] & Hne & _). by apply Hne.
        - by eexists. }
      rewrite bool_decide_eq_false_2 by done. cbn [negb].
      destruct (decide (s ∩ default_extensions = ∅)) as [Hi|Hi].
      * left. rewrite bool_decide_eq_true_2 by done. split; [by exists s|done].
      * right. rewrite bool_decide_eq_false_2 by done. split.
        -- intros (s' & [= <-] & _ & He). by apply Hi.
        -- by eexists.
    + right. split.
      * by intros (s' & [=] & _).
      * by eexists.
Qed.

Lemma empty_filter_is_no_filter_witness :
  ∃ files,
    get_image_files seven_files ["photos"] (Some ∅) empty_world = (Ok files, empty_world)
    ∧ ∃ s, s ∈ files ∧ Path.of_str s = ["photos"; "g.png"].
Proof.
  destruct (empty_filter_is_no_filter seven_files ["photos"] empty_world)
    as (_ & _ & (files & Hg & Hfiles) & _).
  exists files. split; [exact Hg|].
  apply Hfiles; [plain_tree|vm_compute; reflexivity|].
  exists [], "g.png". split; [constructor; by left|].
  split; [|reflexivity]. vm_compute. right. right. left.
Defined.

(** X20. On a tree of plain names below a target folder in canonical
    form, [get_image_files] finds exactly the image files of the tree: the
    paths it returns are those of the files whose suffix, in lower case,
    is one of the extensions looked for, each at its place below the
    target folder.  A file without a suffix, or with another one, is never
    returned. *)
Theorem discovery_finds_exactly_the_images (t : tree) (target_path : Path)
    (inc : option (gset string)) (w w' : World) (files : list string) :
  tree_plain t → canonical_path target_path →
  get_image_files t target_path inc w = (Ok files, w') →
  ∀ p, (∃ s, s ∈ files ∧ Path.of_str s = p)
       ↔ (∃ ds f, tree_file t ds f
                  ∧ Py.lower (Path.suffix_of_name f) ∈ image_extensions_of inc
                  ∧ p = target_path ++ ds ++ [f]).
Proof.
  intros Ht Hc Hg p. apply get_image_files_collect in Hg as ->. split.
  - intros (s & (root & dnames & fs & file & Htr & Hfile & Hext & ->)%elem_of_collect
              & <-).
    destruct (walk_sound t Ht _ _ _ _ Htr) as (ds & Hds & Hfs).
    destruct (Hfs file Hfile) as [Hpl Htf].
    exists ds, file. split; [done|]. split.
    + by rewrite <-suffix_of_plain.
    + rewrite of_str_join, Hds, Hc by done. by rewrite <-app_assoc.
  - intros (ds & f & Htf & Hext & ->).
    destruct (walk_complete t ds f Ht Htf (Path.fspath target_path))
      as (root & dnames & fs & Htr & Hroot & Hf & Hpl).
    exists (os_path_join root f). split.
    + apply elem_of_collect. exists root, dnames, fs, f.
      by rewrite suffix_of_plain.
    + rewrite of_str_join, Hroot, Hc by done. by rewrite <-app_assoc.
Qed.

Lemma discovery_finds_exactly_the_images_witness :
  ∃ s, s ∈ ["/in/photos/x.jpg"; "/in/photos/sub/y.png"]
       ∧ Path.of_str s = ["/"; "in"; "photos"] ++ ["sub"] ++ ["y.png"].
Proof.
  apply (discovery_finds_exactly_the_images with_subdir ["/"; "in"; "photos"] None
           empty_world empty_world ["/in/photos/x.jpg"; "/in/photos/sub/y.png"]).
  - plain_tree.
  - vm_compute. reflexivity.
  - vm_compute. reflexivity.
  - exists ["sub"], "y.png". split; [|split; [by vm_compute|reflexivity]].
    eapply tree_file_below; [left|]. constructor. left.
Defined.

Lemma collect_sublist (exts1 exts2 : gset string)
    (triples : list (string * list string * list string)) :
  exts1 ⊆ exts2 → collect exts1 triples `sublist_of` collect exts2 triples.
Proof.
  intros Hsub. unfold collect.
  induction triples as [|[[root dnames] fs] l IH]; [done|].
  cbn [flat_map]. apply sublist_app; [|done]. apply fmap_sublist.
  induction fs as [|x fs IHf]; [done|].
  destruct (decide (Py.lower (Path.suffix (Path.of_str x)) ∈ exts1)) as [H1|H1].
  - rewrite !filter_cons_True by auto. by apply sublist_skip.
  - rewrite (filter_cons_False (λ file, _ ∈ exts1)) by done.
    destruct (decide (Py.lower (Path.suffix (Path.of_str x)) ∈ exts2)) as [H2|H2].
    + rewrite filter_cons_True by done. by apply sublist_cons.
    + by rewrite filter_cons_False by done.
Qed.

(** X21. An include filter only narrows the discovery: with any filter,
    [get_image_files] returns a sub-sequence of what it returns without
    one, in the same order.  Extensions of the filter outside the
    supported ones add nothing. *)
Theorem include_filter_only_narrows (t : tree) (target_path : Path)
    (inc : option (gset string)) (w : World) :
  ∃ filtered unfiltered,
    (get_image_files t target_path inc w).1 = Ok filtered
    ∧ (get_image_files t target_path None w).1 = Ok unfiltered
    ∧ filtered `sublist_of` unfiltered.
Proof.
  destruct (get_image_files_Ok t target_path inc w) as (filtered & w1 & Hg & _).
  destruct (get_image_files_Ok t target_path None w) as (unfiltered & w2 & Hu & _).
  exists filtered, unfiltered. rewrite Hg, Hu. split; [done|]. split; [done|].
  apply get_image_files_collect in Hg as ->. apply get_image_files_collect in Hu as ->.
  apply collect_sublist. unfold image_extensions_of at 2. cbn [truthy].
  unfold image_extensions_of.
  destruct (truthy inc); [apply intersection_subseteq_r|done].
Qed.

(** ** The size summary *)

Section Sizes.

Local Open Scope Z_scope.

Abbreviation dig p := (Z.pos (digits2_pos p)).

(** A mantissa of 53 bits with a small exponent is a float as it stands,
    whatever the sign. *)
Lemma round_exact_signed (s : bool) (m : positive) (e : Z) :
  dig m = 53 → -1000 ≤ e ≤ 900 →
  binary_round_aux 53 1024 s (Z.pos m) e loc_Exact = S754_finite s m e.
Proof.
  intros Hd He. unfold binary_round_aux, shr_fexp. cbn [Zdigits2].
  rewrite Hd, fexp_normal by lia.
  replace (53 + e - 53 - e) with 0 by lia. cbn [shr shr_record_of_loc shr_m
    loc_of_shr_record round_nearest_even Zdigits2].
  rewrite Hd, fexp_normal by lia.
  replace (53 + e - 53 - e) with 0 by lia. cbn [shr shr_m].
  assert ((e <=? 1024 - 53) = true) as -> by (apply Z.leb_le; lia). done.
Qed.

(** [float(a)] and [float(-a)] for [0 < a < 2^53]. *)
Lemma binary_round_int (s : bool) (a : positive) :
  Z.pos a < 2 ^ 53 →
  ∃ m, binary_round 53 1024 s a 0 = S754_finite s m (dig a - 53)
       ∧ dig m = 53
       ∧ Z.pos m = Z.pos a * 2 ^ (53 - dig a).
Proof.
  intros Ha. pose proof (digits2_bounds a) as [Hl Hu].
  assert (dig a ≤ 53) as Hd.
  { destruct (Z_lt_le_dec 53 (dig a)); [|done].
    assert (2 ^ 53 ≤ 2 ^ (dig a - 1)) by (apply Z.pow_le_mono_r; lia). lia. }
  unfold binary_round.
  rewrite fexp_normal by lia. unfold shl_align.
  replace (dig a + 0 - 53 - 0) with (dig a - 53) by lia.
  destruct (Z.eq_dec (dig a) 53) as [H53|H53].
  - rewrite H53. cbn [Z.sub Z.add Z.opp Z.pos_sub Pos.pred_double].
    change (53 - 53) with 0. exists a. rewrite round_exact_signed by lia.
    split; [done|]. split; [done|]. change (2 ^ 0) with 1. lia.
  - destruct (dig a - 53) as [|k|k] eqn:Hk; [lia|lia|].
    assert (Z.pos (Pos.iter xO a k) = Z.pos a * 2 ^ (53 - dig a)) as Hm.
    { rewrite iter_xO. do 2 f_equal. lia. }
    assert (dig (Pos.iter xO a k) = 53) as Hdm.
    { apply digits2_unique. rewrite Hm.
      replace (2 ^ (53 - 1)) with (2 ^ (dig a - 1) * 2 ^ (53 - dig a))
        by (rewrite <-Z.pow_add_r by lia; f_equal; lia).
      replace (2 ^ 53) with (2 ^ dig a * 2 ^ (53 - dig a))
        by (rewrite <-Z.pow_add_r by lia; f_equal; lia).
      assert (0 < 2 ^ (53 - dig a)) by (apply Z.pow_pos_nonneg; lia).
      split.
      - apply Z.mul_le_mono_nonneg_r; lia.
      - apply Z.mul_lt_mono_pos_r; lia. }
    exists (Pos.iter xO a k). rewrite round_exact_signed by lia.
    replace (dig a + 0 - 53) with (Z.neg k) by lia. done.
Qed.

Lemma f1024_eq : f1024 = S754_finite false 4503599627370496 (-42).
Proof. by vm_compute. Qed.

(** Dividing a float by [1024.0] is exact: the exponent goes down by 10. *)
Lemma div_1024_exact (s : bool) (m : positive) (e : Z) :
  dig m = 53 → -900 ≤ e ≤ 0 →
  SFdiv 53 1024 (S754_finite s m e) f1024 = S754_finite s m (e - 10).
Proof.
  intros Hd He. rewrite f1024_eq. unfold SFdiv, SFdiv_core_binary. cbn [Zdigits2].
  rewrite Hd. change (Z.pos (digits2_pos 4503599627370496)) with 53.
  rewrite fexp_normal by lia.
  replace (Z.min (53 + e - (53 + -42) - 53) (e - -42)) with (e - 11) by lia.
  replace (e - -42 - (e - 11)) with 53 by lia.
  rewrite Z.shiftl_mul_pow2 by lia.
  match goal with |- context [Z.div_eucl ?a ?b] =>
    replace (Z.div_eucl a b) with (a / b, a mod b)
      by (unfold Z.div, Z.modulo; by destruct (Z.div_eucl a b))
  end.
  replace (Z.pos m * 2 ^ 53) with (Z.pos m~0 * 4503599627370496)
    by (rewrite (Pos2Z.inj_xO m); change (2 ^ 53) with (2 * 4503599627370496); lia).
  rewrite Z.div_mul, Z.mod_mul by done.
  change (new_location 4503599627370496 0) with loc_Exact.
  rewrite xorb_false_r.
  unfold binary_round_aux, shr_fexp. cbn [Zdigits2 digits2_pos].
  rewrite Pos2Z.inj_succ, Hd, fexp_normal by lia.
  replace (Z.succ 53 + (e - 11) - 53 - (e - 11)) with 1 by lia.
  cbn [shr shr_record_of_loc]. unfold SpecFloat.iter_pos.
  cbn [shr_1 shr_m shr_r shr_s orb loc_of_shr_record round_nearest_even Zdigits2].
  rewrite Hd, fexp_normal by lia.
  replace (53 + (e - 11 + 1) - 53 - (e - 11 + 1)) with 0 by lia.
  cbn [shr shr_record_of_loc shr_m].
  assert ((e - 11 + 1 <=? 1024 - 53) = true) as -> by (apply Z.leb_le; lia).
  f_equal. lia.
Qed.

(** A float with a mantissa of 53 bits is below [1024.0] when its
    exponent is below that of [1024.0]. *)
Lemma ltb_1024 (m : positive) (e : Z) :
  dig m = 53 → SFltb (S754_finite false m e) f1024 = (e <? -42).
Proof.
  intros Hd. rewrite f1024_eq. unfold SFltb, SFcompare.
  pose proof (digits2_bounds m) as [Hl _]. rewrite Hd in Hl.
  change (2 ^ (53 - 1)) with (Z.pos 4503599627370496) in Hl.
  destruct (Z.compare_spec e (-42)) as [->|Hlt|Hgt].
  - rewrite Z.ltb_irrefl.
    destruct (Pos.compare_cont Eq m 4503599627370496) eqn:E; [done| |done].
    apply (proj1 (Pos.compare_lt_iff m 4503599627370496)) in E.
    apply Pos2Z.pos_lt_pos in E. lia.
  - symmetry. by apply Z.ltb_lt.
  - symmetry. apply Z.ltb_ge. lia.
Qed.

Lemma round_half_even_scale (k a b : Z) :
  0 < k → 0 < b → round_half_even (a * k) (b * k) = round_half_even a b.
Proof.
  intros Hk Hb. unfold round_half_even.
  rewrite Z.div_mul_cancel_r, Z.mul_mod_distr_r by lia.
  set (q := a / b). set (r := a mod b).
  assert ((2 * (r * k) <? b * k) = (2 * r <? b)) as ->.
  { destruct (2 * r <? b) eqn:H.
    - apply Z.ltb_lt in H. apply Z.ltb_lt.
      replace (2 * (r * k)) with (2 * r * k) by lia.
      by apply Z.mul_lt_mono_pos_r.
    - apply Z.ltb_ge in H. apply Z.ltb_ge.
      replace (2 * (r * k)) with (2 * r * k) by lia.
      apply Z.mul_le_mono_nonneg_r; lia. }
  assert ((b * k <? 2 * (r * k)) = (b <? 2 * r)) as ->; [|done].
  destruct (b <? 2 * r) eqn:H.
  - apply Z.ltb_lt in H. apply Z.ltb_lt.
    replace (2 * (r * k)) with (2 * r * k) by lia.
    by apply Z.mul_lt_mono_pos_r.
  - apply Z.ltb_ge in H. apply Z.ltb_ge.
    replace (2 * (r * k)) with (2 * r * k) by lia.
    apply Z.mul_le_mono_nonneg_r; lia.
Qed.

Lemma round_half_even_1 (a : Z) : round_half_even a 1 = a.
Proof.
  unfold round_half_even. rewrite Z.div_1_r, Z.mod_1_r. done.
Qed.

(** The decimal of a float whose mantissa is [n] shifted: [n / 2^t]
    rounded to one decimal. *)
Lemma format_1f_scaled (s : bool) (m : positive) (e n t : Z) :
  0 ≤ t → e + t ≤ 0 → Z.pos m = n * 2 ^ (- (e + t)) →
  format_1f (S754_finite s m e)
  = (if s then "-" else "")%string +:+ decimal_1 (round_half_even (10 * n) (2 ^ t)).
Proof.
  intros Ht He Hm. unfold format_1f. do 2 f_equal.
  assert (0 < 2 ^ (- (e + t))) as Hp by (apply Z.pow_pos_nonneg; lia).
  assert (0 < 2 ^ t) as Hpt by (apply Z.pow_pos_nonneg; lia).
  destruct e as [|k|k].
  - assert (t = 0) as -> by lia. change (- (0 + 0)) with 0 in Hm.
    change (2 ^ 0) with 1 in *. rewrite round_half_even_1, Hm. lia.
  - lia.
  - rewrite Hm.
    replace (10 * (n * 2 ^ (- (Z.neg k + t)))) with (10 * n * 2 ^ (- (Z.neg k + t)))
      by lia.
    replace (2 ^ Z.pos k) with (2 ^ t * 2 ^ (- (Z.neg k + t)))
      by (rewrite <-Z.pow_add_r by lia; f_equal; lia).
    by apply round_half_even_scale.
Qed.

Lemma digits_lt (p : positive) (D : Z) :
  0 ≤ D → (Z.pos p <? 2 ^ D) = (dig p <? D + 1).
Proof.
  intros HD. pose proof (digits2_bounds p) as [Hl Hu].
  destruct (dig p <? D + 1) eqn:H.
  - apply Z.ltb_lt in H. apply Z.ltb_lt.
    assert (2 ^ dig p ≤ 2 ^ D) by (apply Z.pow_le_mono_r; lia). lia.
  - apply Z.ltb_ge in H. apply Z.ltb_ge.
    assert (2 ^ D ≤ 2 ^ (dig p - 1)) by (apply Z.pow_le_mono_r; lia). lia.
Qed.

Lemma size_unit_digits (a : positive) :
  size_unit (Z.pos a)
  = if dig a <? 10 + 1 then 0%nat
    else if dig a <? 20 + 1 then 1%nat
    else if dig a <? 30 + 1 then 2%nat
    else if dig a <? 40 + 1 then 3%nat
    else 4%nat.
Proof.
  unfold size_unit.
  change (Z.pos a <? 1024) with (Z.pos a <? 2 ^ 10).
  change (Z.pos a <? 1024 ^ 2) with (Z.pos a <? 2 ^ 20).
  change (Z.pos a <? 1024 ^ 3) with (Z.pos a <? 2 ^ 30).
  change (Z.pos a <? 1024 ^ 4) with (Z.pos a <? 2 ^ 40).
  by rewrite !digits_lt by lia.
Qed.

Lemma format_size_units_cons (unit : string) (rest : list string) (v : number) :
  format_size_units (unit :: rest) v
  = if lt_1024 v then
      match format_number v with
      | Ok s => Ok (s +:+ unit)
      | Raise e => Raise e
      end
    else
      match div_1024 v with
      | Ok x => format_size_units rest (PyFloat x)
      | Raise e => Raise e
      end.
Proof. done. Qed.

(** One turn of the loop of [format_size] on a float. *)
Lemma format_size_units_float (unit : string) (rest : list string)
    (m : positive) (e : Z) :
  dig m = 53 → -900 ≤ e ≤ 0 →
  format_size_units (unit :: rest) (PyFloat (S754_finite false m e))
  = if e <? -42 then Ok (format_1f (S754_finite false m e) +:+ unit)
    else format_size_units rest (PyFloat (S754_finite false m (e - 10))).
Proof.
  intros Hd He. rewrite format_size_units_cons.
  cbn [lt_1024 format_number to_float div_1024].
  rewrite ltb_1024 by done. destruct (e <? -42); [done|].
  unfold Float.prec, Float.emax. by rewrite div_1024_exact.
Qed.

Lemma decimal_1_tens (a : Z) : 0 ≤ a → decimal_1 (10 * a) = pretty a +:+ ".0".
Proof.
  intros Ha. unfold decimal_1.
  replace (10 * a) with (a * 10) by lia. by rewrite Z.div_mul, Z.mod_mul.
Qed.

(** Below [2^53] the loop of [format_size] loses nothing. *)
Lemma format_size_exact (n : Z) :
  0 ≤ n < 2 ^ 53 → format_size n = Ok (spec_format_size n).
Proof.
  intros [Hn0 Hn]. destruct n as [|a|a]; [by vm_compute| |lia].
  destruct (binary_round_int false a Hn) as (m & Hof & Hd & Hm).
  pose proof (digits2_bounds a) as [Hl Hu].
  assert (1 ≤ dig a ≤ 53) as Hda.
  { split; [lia|]. destruct (Z_lt_le_dec 53 (dig a)); [|done].
    assert (2 ^ 53 ≤ 2 ^ (dig a - 1)) by (apply Z.pow_le_mono_r; lia). lia. }
  set (d := dig a) in *.
  assert (to_float (PyInt (Z.pos a)) = Ok (S754_finite false m (d - 53))) as Hfloat.
  { unfold to_float.
    change (Float.of_int (Z.pos a)) with (binary_round 53 1024 false a 0).
    by rewrite Hof. }
  assert (∀ t, 0 ≤ t →
    format_1f (S754_finite false m (d - 53 - t))
    = decimal_1 (round_half_even (10 * Z.pos a) (2 ^ t))) as Hscaled.
  { intros t Ht. rewrite (format_1f_scaled false m _ (Z.pos a) t); [done|lia|lia|].
    rewrite Hm. do 2 f_equal. lia. }
  unfold format_size, spec_format_size. rewrite size_unit_digits. fold d.
  rewrite format_size_units_cons. cbn [lt_1024].
  change (Z.pos a <? 1024) with (Z.pos a <? 2 ^ 10).
  rewrite digits_lt by lia. fold d.
  unfold format_number, div_1024. rewrite Hfloat.
  unfold Float.prec, Float.emax.
  rewrite div_1024_exact by (done || lia).
  destruct (d <? 10 + 1) eqn:H0.
  { rewrite <-(Z.sub_0_r (d - 53)), Hscaled by lia. done. }
  apply Z.ltb_ge in H0.
  rewrite format_size_units_float by (done || lia).
  replace (d - 53 - 10 <? -42) with (d <? 20 + 1)
    by (destruct (d <? 20 + 1) eqn:E; symmetry;
        [apply Z.ltb_lt; apply Z.ltb_lt in E|apply Z.ltb_ge; apply Z.ltb_ge in E]; lia).
  destruct (d <? 20 + 1) eqn:H1.
  { rewrite Hscaled by lia. done. }
  apply Z.ltb_ge in H1.
  rewrite format_size_units_float by (done || lia).
  replace (d - 53 - 10 - 10) with (d - 53 - 20) by lia.
  replace (d - 53 - 20 <? -42) with (d <? 30 + 1)
    by (destruct (d <? 30 + 1) eqn:E; symmetry;
        [apply Z.ltb_lt; apply Z.ltb_lt in E|apply Z.ltb_ge; apply Z.ltb_ge in E]; lia).
  destruct (d <? 30 + 1) eqn:H2.
  { rewrite Hscaled by lia. done. }
  apply Z.ltb_ge in H2.
  rewrite format_size_units_float by (done || lia).
  replace (d - 53 - 20 - 10) with (d - 53 - 30) by lia.
  replace (d - 53 - 30 <? -42) with (d <? 40 + 1)
    by (destruct (d <? 40 + 1) eqn:E; symmetry;
        [apply Z.ltb_lt; apply Z.ltb_lt in E|apply Z.ltb_ge; apply Z.ltb_ge in E]; lia).
  destruct (d <? 40 + 1) eqn:H3.
  { rewrite Hscaled by lia. done. }
  apply Z.ltb_ge in H3.
  cbn [format_size_units format_number to_float].
  replace (d - 53 - 30 - 10) with (d - 53 - 40) by lia.
  rewrite Hscaled by lia. done.
Qed.

(** X23. For a size of [0 <= n < 2^53] bytes [format_size] returns the
    size in the first of the units B, KB, MB and GB in which it is below
    1024, or in TB, as the decimal with one digit after the point nearest
    to [n / 1024^k], halves going to the even digit: the divisions by
    [1024.0] lose nothing and only the printing rounds.  So a size just
    below a power of 1024 is printed as 1024.0 of the smaller unit. *)
Theorem format_size_rounds_once (n : Z) :
  0 ≤ n < 2 ^ 53 → format_size n = Ok (spec_format_size n).
Proof. apply format_size_exact. Qed.

(** A negative size is below [1024.0] at once. *)
Lemma format_size_negative (n : Z) :
  - 2 ^ 53 < n < 0 → format_size n = Ok ("-" +:+ pretty (- n) +:+ ".0B").
Proof.
  intros [Hl Hn]. destruct n as [|a|a]; [lia|lia|].
  assert (Z.pos a < 2 ^ 53) as Ha by lia.
  destruct (binary_round_int true a Ha) as (m & Hof & Hd & Hm).
  pose proof (digits2_bounds a) as [Hl' Hu'].
  assert (dig a ≤ 53) as Hda.
  { destruct (Z_lt_le_dec 53 (dig a)); [|done].
    assert (2 ^ 53 ≤ 2 ^ (dig a - 1)) by (apply Z.pow_le_mono_r; lia). lia. }
  assert (to_float (PyInt (Z.neg a)) = Ok (S754_finite true m (dig a - 53)))
    as Hfloat.
  { unfold to_float.
    change (Float.of_int (Z.neg a)) with (binary_round 53 1024 true a 0).
    by rewrite Hof. }
  unfold format_size. rewrite format_size_units_cons.
  cbn [lt_1024 Z.ltb Z.compare]. unfold format_number. rewrite Hfloat.
  rewrite (format_1f_scaled true m (dig a - 53) (Z.pos a) 0).
  - change (2 ^ 0) with 1. rewrite round_half_even_1, decimal_1_tens by lia.
    change (- Z.neg a) with (Z.pos a). by rewrite !app_assoc_s.
  - lia.
  - lia.
  - rewrite Hm. do 2 f_equal. lia.
Qed.

(** X24. A negative size is never scaled: [format_size] prints it in
    bytes whatever its magnitude, so the space saved by a run whose
    output is larger than its input is shown as a negative number of
    bytes. *)
Theorem format_size_negative_in_bytes (n : Z) :
  - 2 ^ 53 < n < 0 → format_size n = Ok ("-" +:+ pretty (- n) +:+ ".0B").
Proof. apply format_size_negative. Qed.

End Sizes.

Lemma format_size_rounds_once_witness :
  format_size 1048575 = Ok "1024.0KB".
Proof.
  apply (format_size_rounds_once 1048575). split; [lia|by vm_compute].
Defined.

Lemma format_size_negative_in_bytes_witness :
  format_size (-5000000) = Ok "-5000000.0B".
Proof.
  apply (format_size_negative_in_bytes (-5000000)). split; [by vm_compute|lia].
Defined.

(** X25. The size summary that ends [main]: when no input byte was
    counted nothing is printed; otherwise, for totals below [2^53], it
    never fails and prints exactly four lines: an empty one, the title,
    the two totals in their units, and the space saved with the
    compression ratio.  When the output is larger than the input the
    space saved is a negative number of bytes, whatever its size. *)
Theorem size_summary_prints_four_lines (st : RunStats) (w : World) :
  (total_input_size st = 0 → size_summary st w = (Ok (), w))
  ∧ (0 < total_input_size st →
     (Z.of_nat (total_input_size st) < 2 ^ 53)%Z →
     (Z.of_nat (total_output_size st) < 2 ^ 53)%Z →
     ∃ ratio,
       compression_ratio (Z.of_nat (total_input_size st))
         (Z.of_nat (total_output_size st)) = Ok ratio
       ∧ size_summary st w
         = (Ok (),
            mkWorld (nodes w)
              (stdout w ++
                 [ "";
                   "Size Summary:";
                   "Original: "
                     +:+ spec_format_size (Z.of_nat (total_input_size st))
                     +:+ " → Optimized: "
                     +:+ spec_format_size (Z.of_nat (total_output_size st));
                   "Space saved: "
                     +:+ (if bool_decide (total_output_size st ≤ total_input_size st)
                          then spec_format_size
                                 (Z.of_nat (total_input_size st)
                                  - Z.of_nat (total_output_size st))
                          else "-" +:+ pretty (Z.of_nat (total_output_size st)
                                               - Z.of_nat (total_input_size st))%Z
                                 +:+ ".0B")
                     +:+ " (" +:+ format_1f ratio +:+ "% compression)" ])
              (transformer_calls w))).
Proof.
  split.
  - intros H0. unfold size_summary. by rewrite H0.
  - intros Hin Hi Ho. unfold size_summary. cbv zeta.
    assert ((0 <? Z.of_nat (total_input_size st))%Z = true) as ->
      by (apply Z.ltb_lt; lia).
    unfold compression_ratio, Float.truediv.
    assert ((Z.of_nat (total_input_size st) =? 0)%Z = false) as ->
      by (apply Z.eqb_neq; lia).
    eexists. split; [reflexivity|].
    rewrite (format_size_exact (Z.of_nat (total_input_size st))),
      (format_size_exact (Z.of_nat (total_output_size st))) by lia.
    case_bool_decide as Hle.
    + rewrite format_size_exact by lia.
      unfold mbind, M_bind, bind, lift, print. cbn [stdout nodes transformer_calls].
      by rewrite <-!app_assoc.
    + rewrite format_size_negative by lia.
      replace (- (Z.of_nat (total_input_size st) - Z.of_nat (total_output_size st)))%Z
        with (Z.of_nat (total_output_size st) - Z.of_nat (total_input_size st))%Z by lia.
      unfold mbind, M_bind, bind, lift, print. cbn [stdout nodes transformer_calls].
      by rewrite <-!app_assoc.
Qed.

Lemma size_summary_prints_four_lines_witness :
  ∃ ratio,
    size_summary (mkStats 3 0 0 2000 2500) folders_world
    = (Ok (),
       mkWorld (nodes folders_world)
         (stdout folders_world ++
            [ ""; "Size Summary:"; "Original: 2.0KB → Optimized: 2.4KB";
              "Space saved: -500.0B (" +:+ format_1f ratio +:+ "% compression)" ])
         (transformer_calls folders_world)).
Proof.
  destruct (size_summary_prints_four_lines (mkStats 3 0 0 2000 2500) folders_world)
    as [_ H].
  destruct H as (ratio & _ & H); [cbn; lia|by vm_compute|by vm_compute|].
  exists ratio. exact H.
Defined.
